(** * Shallow embedding of the [akoskm/unzip] extraction samples

    The repository is a set of command-line samples; each one unpacks an
    archive with a different library and prints statistics.  The samples
    themselves contain the path handling, the per-entry loops, the fallback
    chains, the statistics and the summaries; those parts are embedded here.
    The libraries they call (Node's [path] and [fs], the decompressors) are
    not part of the repository: Node's POSIX [path] functions and the part of
    [fs] the samples use are given by small executable models, decompressors
    are parameters. *)

From Stdlib Require Import String Ascii List ZArith QArith Qround Lia Bool Arith.
From Stdlib Require Import Permutation Sorted DecimalString.
Import ListNotations.

Set Warnings "-register-all".

Local Close Scope Q_scope.
Local Open Scope string_scope.
Local Open Scope nat_scope.
Local Open Scope list_scope.

(** ** JavaScript strings

    Strings are sequences of characters; the samples only split them at
    ['/'] and ['.'], concatenate them and lower-case them. *)

Module Str.

Definition slash : ascii := "/"%char.
Definition dot : ascii := "."%char.

(** [s.split(sep)] for a one-character separator: always at least one
    piece, empty pieces kept. *)
Fixpoint split (sep : ascii) (s : string) : list string :=
  match s with
  | EmptyString => [EmptyString]
  | String c s' =>
      if Ascii.eqb c sep then EmptyString :: split sep s'
      else match split sep s' with
           | [] => [String c EmptyString]
           | x :: xs => String c x :: xs
           end
  end.

(** [s.charCodeAt(0) === c] *)
Definition starts_with (c : ascii) (s : string) : bool :=
  match s with
  | String c' _ => Ascii.eqb c' c
  | EmptyString => false
  end.

(** [s.charCodeAt(s.length - 1) === c] *)
Fixpoint ends_with (c : ascii) (s : string) : bool :=
  match s with
  | EmptyString => false
  | String c' EmptyString => Ascii.eqb c' c
  | String _ s' => ends_with c s'
  end.

Definition is_empty (s : string) : bool :=
  match s with EmptyString => true | _ => false end.

(** [c] lower-cased: the letters A-Z move to a-z, every other character
    stays.  This is [String.prototype.toLowerCase] on the ASCII range. *)
Definition lower_char (c : ascii) : ascii :=
  let n := nat_of_ascii c in
  if (65 <=? n)%nat && (n <=? 90)%nat then ascii_of_nat (n + 32) else c.

Fixpoint toLowerCase (s : string) : string :=
  match s with
  | EmptyString => EmptyString
  | String c s' => String (lower_char c) (toLowerCase s')
  end.

Fixpoint rev_acc (s acc : string) : string :=
  match s with
  | EmptyString => acc
  | String c s' => rev_acc s' (String c acc)
  end.

Definition rev (s : string) : string := rev_acc s EmptyString.

End Str.

(** ** Node's POSIX [path] module

    [normalize], [join], [dirname] and [extname] as Node defines them for
    POSIX paths.  [normalizeString] works on the segments between slashes:
    empty segments and ["."] are dropped, [".."] removes the segment before
    it, and is kept only at the front of a relative path. *)

Module Path.

Definition dotdot : string := "..".

(** The segment stack of [normalizeString], last segment first. *)
Definition push_segment (allowAboveRoot : bool) (res : list string) (seg : string)
  : list string :=
  if String.eqb seg "" || String.eqb seg "." then res
  else if String.eqb seg dotdot then
    match res with
    | [] => if allowAboveRoot then [dotdot] else []
    | last :: res' =>
        if String.eqb last dotdot
        then (if allowAboveRoot then dotdot :: res else res)
        else res'
    end
  else seg :: res.

Definition normalize_segments (allowAboveRoot : bool) (res : list string)
    (segs : list string) : list string :=
  fold_left (push_segment allowAboveRoot) segs res.

Definition normalizeString (path : string) (allowAboveRoot : bool) : string :=
  String.concat "/"
    (List.rev (normalize_segments allowAboveRoot [] (Str.split Str.slash path))).

Definition normalize (path : string) : string :=
  if Str.is_empty path then "."
  else
    let isAbsolute := Str.starts_with Str.slash path in
    let trailingSeparator := Str.ends_with Str.slash path in
    let p := normalizeString path (negb isAbsolute) in
    if Str.is_empty p then
      (if isAbsolute then "/" else if trailingSeparator then "./" else ".")
    else
      let p := if trailingSeparator then (p ++ "/")%string else p in
      if isAbsolute then ("/" ++ p)%string else p.

(** [path.join(a, b)]: the non-empty arguments joined by ['/'], then
    normalized. *)
Definition join (a b : string) : string :=
  match Str.is_empty a, Str.is_empty b with
  | true, true => "."
  | false, true => normalize a
  | true, false => normalize b
  | false, false => normalize (a ++ "/" ++ b)%string
  end.

(** Characters of [s] after its trailing slashes are removed, last
    character first. *)
Fixpoint drop_slashes (r : string) : string :=
  match r with
  | String c r' => if Ascii.eqb c Str.slash then drop_slashes r' else r
  | EmptyString => EmptyString
  end.

(** Splits a reversed string at its first slash: the part before it
    (reversed last component) and the rest, slash included. *)
Fixpoint break_slash (r : string) : string * string :=
  match r with
  | EmptyString => (EmptyString, EmptyString)
  | String c r' =>
      if Ascii.eqb c Str.slash then (EmptyString, r)
      else let '(a, b) := break_slash r' in (String c a, b)
  end.

(** [path.dirname(path)]: the scan runs from the last character down to
    index 1, skips the trailing slashes and the last component, and cuts
    the path at the slash before that component. *)
Definition dirname (path : string) : string :=
  match path with
  | EmptyString => "."
  | String c0 rest =>
      let hasRoot := Ascii.eqb c0 Str.slash in
      match snd (break_slash (drop_slashes (Str.rev rest))) with
      | EmptyString => if hasRoot then "/" else "."
      | String _ before =>
          if hasRoot && Str.is_empty before then "//"
          else String c0 (Str.rev before)
      end
  end.

(** Index of the last ['.'] of [s], counted from the end; [None] when
    there is none. *)
Fixpoint last_dot (r : string) : option nat :=
  match r with
  | EmptyString => None
  | String c r' =>
      if Ascii.eqb c Str.dot then Some 0%nat
      else option_map S (last_dot r')
  end.

Fixpoint take (n : nat) (s : string) : string :=
  match n, s with
  | S n', String c s' => String c (take n' s')
  | _, _ => EmptyString
  end.

(** [path.extname(path)]: from the last ['.'] of the last component to its
    end; empty when there is no dot, when the component starts at its only
    relevant dot, or when the component is [".."]. *)
Definition extname (path : string) : string :=
  let rbase := fst (break_slash (drop_slashes (Str.rev path))) in
  match last_dot rbase with
  | None => ""
  | Some k =>
      if (S k =? String.length rbase)%nat then ""
      else if String.eqb rbase dotdot then ""
      else Str.rev (take (S k) rbase)
  end.

(** [path.basename(path, suffix)], as Node's loop has it.  [None] stands
    for the index -1; [end] is set only after a character of the last
    component was seen, when [firstNonSlashEnd] is set too. *)
Record basename_scan := {
  b_start : nat;
  b_end : option nat;
  matchedSlash : bool;
  extIdx : option nat;
  firstNonSlashEnd : option nat
}.

(** The loop [for (let i = path.length - 1; i >= 0; --i)] from [i = n - 1]
    on, when a suffix is given and is not longer than the path. *)
Fixpoint scan_with_suffix (path suffix : string) (n : nat) (st : basename_scan)
  : basename_scan :=
  match n with
  | O => st
  | S i =>
      match String.get i path with
      | None => st
      | Some code =>
          if Ascii.eqb code Str.slash then
            if negb (matchedSlash st) then
              {| b_start := i + 1; b_end := b_end st;
                 matchedSlash := matchedSlash st; extIdx := extIdx st;
                 firstNonSlashEnd := firstNonSlashEnd st |}
            else scan_with_suffix path suffix i st
          else
            let st1 :=
              match firstNonSlashEnd st with
              | None =>
                  {| b_start := b_start st; b_end := b_end st;
                     matchedSlash := false; extIdx := extIdx st;
                     firstNonSlashEnd := Some (i + 1) |}
              | Some _ => st
              end in
            let st2 :=
              match extIdx st1 with
              | Some x =>
                  if match String.get x suffix with
                     | Some c => Ascii.eqb code c
                     | None => false
                     end
                  then
                    match x with
                    | O =>
                        {| b_start := b_start st1; b_end := Some i;
                           matchedSlash := matchedSlash st1; extIdx := None;
                           firstNonSlashEnd := firstNonSlashEnd st1 |}
                    | S x' =>
                        {| b_start := b_start st1; b_end := b_end st1;
                           matchedSlash := matchedSlash st1; extIdx := Some x';
                           firstNonSlashEnd := firstNonSlashEnd st1 |}
                    end
                  else
                    {| b_start := b_start st1; b_end := firstNonSlashEnd st1;
                       matchedSlash := matchedSlash st1; extIdx := None;
                       firstNonSlashEnd := firstNonSlashEnd st1 |}
              | None => st1
              end in
            scan_with_suffix path suffix i st2
      end
  end.

(** [path.slice(start, end)] *)
Definition slice (path : string) (start stop : nat) : string :=
  String.substring start (stop - start) path.

Definition basename (path suffix : string) : string :=
  if negb (Str.is_empty suffix)
     && (String.length suffix <=? String.length path)%nat
  then
    if String.eqb suffix path then ""
    else
      let st := scan_with_suffix path suffix (String.length path)
                  {| b_start := 0; b_end := None; matchedSlash := true;
                     extIdx := Some (String.length suffix - 1);
                     firstNonSlashEnd := None |} in
      let stop :=
        match b_end st with
        | Some e =>
            if (b_start st =? e)%nat
            then match firstNonSlashEnd st with
                 | Some f => f
                 | None => 0%nat
                 end
            else e
        | None => String.length path
        end in
      slice path (b_start st) stop
  else Str.rev (fst (break_slash (drop_slashes (Str.rev path)))).

End Path.

(** ** Results and exceptions *)

Inductive errno := ENOENT | ENOTDIR | EISDIR | EEXIST.

(** What a JavaScript [catch] receives: a failed file-system call with its
    code and path, a failed read of an open file, whose error names no path,
    or an error raised by a library with its message. *)
Inductive error :=
| FsError (code : errno) (path : string)
| ReadError (code : errno)
| LibError (message : string).

Inductive result (A : Type) :=
| Ok (a : A)
| Err (e : error).
Arguments Ok {A} a.
Arguments Err {A} e.

Definition bytes := list Byte.byte.

(** ** The part of Node's [fs] the samples use

    A file system is a tree of directories and regular files.  Paths are
    resolved against the working directory segment by segment, [".."] on the
    text of the path (the paths that the samples build with [path.join] have
    it at their front only); there are no symbolic links and no permissions,
    so a call fails only for the shape of the tree: a missing parent, a file
    where a directory is needed, a directory where a file is needed. *)

Module Fs.

Inductive node :=
| File (data : bytes)
| Dir (entries : list (string * node)).

Fixpoint assoc (k : string) (es : list (string * node)) : option node :=
  match es with
  | [] => None
  | (k', n) :: es' => if String.eqb k k' then Some n else assoc k es'
  end.

(** Replaces the entry named [k], or adds it at the end. *)
Fixpoint set_entry (k : string) (n : node) (es : list (string * node))
  : list (string * node) :=
  match es with
  | [] => [(k, n)]
  | (k', n') :: es' =>
      if String.eqb k k' then (k, n) :: es' else (k', n') :: set_entry k n es'
  end.

(** Absolute paths are lists of segments below the root directory. *)
Definition abspath := list string.

Definition resolve (cwd : abspath) (p : string) : abspath :=
  let base := if Str.starts_with Str.slash p then [] else List.rev cwd in
  List.rev (Path.normalize_segments false base (Str.split Str.slash p)).

Fixpoint lookup (n : node) (p : abspath) : option node :=
  match p with
  | [] => Some n
  | s :: p' =>
      match n with
      | Dir es => match assoc s es with
                  | Some c => lookup c p'
                  | None => None
                  end
      | File _ => None
      end
  end.

Definition read_file (n : node) (p : abspath) : option bytes :=
  match lookup n p with
  | Some (File d) => Some d
  | _ => None
  end.

Definition is_dir (n : node) : bool :=
  match n with Dir _ => true | File _ => false end.

(** [mkdir -p] on the tree. *)
Fixpoint mkdirp (n : node) (p : abspath) : errno + node :=
  match n with
  | File _ => inl (match p with [] => EEXIST | _ => ENOTDIR end)
  | Dir es =>
      match p with
      | [] => inr n
      | s :: p' =>
          let child := match assoc s es with Some c => c | None => Dir [] end in
          match mkdirp child p' with
          | inr c' => inr (Dir (set_entry s c' es))
          | inl e => inl e
          end
      end
  end.

(** Creating or replacing the regular file at [p]. *)
Fixpoint write (n : node) (p : abspath) (d : bytes) : errno + node :=
  match p with
  | [] => match n with
          | File _ => inr (File d)
          | Dir _ => inl EISDIR
          end
  | s :: p' =>
      match n with
      | File _ => inl ENOTDIR
      | Dir es =>
          match assoc s es with
          | Some c =>
              match write c p' d with
              | inr c' => inr (Dir (set_entry s c' es))
              | inl e => inl e
              end
          | None =>
              match p' with
              | [] => inr (Dir (set_entry s (File d) es))
              | _ => inl ENOENT
              end
          end
      end
  end.

(** Node lists a directory in the order of the names, compared byte by
    byte.  [insert_by_name] puts an entry before the first one whose name is
    not smaller, so entries keep their order in the tree where names are
    equal. *)
Fixpoint insert_by_name (e : string * node) (es : list (string * node))
  : list (string * node) :=
  match es with
  | [] => [e]
  | e' :: es' =>
      if String.ltb (fst e') (fst e) then e' :: insert_by_name e es'
      else e :: es
  end.

Definition by_name (es : list (string * node)) : list (string * node) :=
  fold_right insert_by_name [] es.

(** The tree as [readdir] shows it: every directory in the order of its
    names, so that a listing read from a child is in that order too. *)
Fixpoint in_name_order (n : node) : node :=
  match n with
  | File d => File d
  | Dir es => Dir (by_name (map (fun e => (fst e, in_name_order (snd e))) es))
  end.

Definition listing (es : list (string * node)) : list (string * node) :=
  by_name (map (fun e => (fst e, in_name_order (snd e))) es).

Section Calls.
Variable cwd : abspath.

(** [fs.existsSync(p)] *)
Definition existsSync (root : node) (p : string) : bool :=
  if Str.is_empty p then false
  else match lookup root (resolve cwd p) with
       | Some n => if Str.ends_with Str.slash p then is_dir n else true
       | None => false
       end.

(** [fs.mkdirSync(p, { recursive: true })] *)
Definition mkdirSync (root : node) (p : string) : result node :=
  if Str.is_empty p then Err (FsError ENOENT p)
  else match mkdirp root (resolve cwd p) with
       | inr root' => Ok root'
       | inl e => Err (FsError e p)
       end.

(** [fs.writeFileSync(p, data)] opens the path for writing, creating the
    file when it is missing.  A path that ends in a slash names a directory
    and never opens for writing: the call fails with [EISDIR] whatever the
    path leads to. *)
Definition writeFileSync (root : node) (p : string) (data : bytes)
  : result node :=
  if Str.is_empty p then Err (FsError ENOENT p)
  else if Str.ends_with Str.slash p then Err (FsError EISDIR p)
  else match write root (resolve cwd p) data with
       | inr root' => Ok root'
       | inl e => Err (FsError e p)
       end.

(** [fs.promises.readdir(p, { withFileTypes: true })]: the entries by
    name, each with its node, which is what a call on the entry's own path
    finds. *)
Definition readdir (root : node) (p : string)
  : result (list (string * node)) :=
  if Str.is_empty p then Err (FsError ENOENT p)
  else match lookup root (resolve cwd p) with
       | Some (Dir es) => Ok (listing es)
       | Some (File _) => Err (FsError ENOTDIR p)
       | None => Err (FsError ENOENT p)
       end.

(** [fs.readFileSync(p)]: a directory opens, and it is the read that
    fails. *)
Definition readFileSync (root : node) (p : string) : result bytes :=
  if Str.is_empty p then Err (FsError ENOENT p)
  else match lookup root (resolve cwd p) with
       | Some (File d) =>
           if Str.ends_with Str.slash p then Err (FsError ENOTDIR p) else Ok d
       | Some (Dir _) => Err (ReadError EISDIR)
       | None => Err (FsError ENOENT p)
       end.

(** [(await stat(p)).size]; the size of a directory is not modelled and
    reads as 0. *)
Definition stat_size (root : node) (p : string) : result nat :=
  if Str.is_empty p then Err (FsError ENOENT p)
  else match lookup root (resolve cwd p) with
       | Some (File d) =>
           if Str.ends_with Str.slash p then Err (FsError ENOTDIR p)
           else Ok (List.length d)
       | Some (Dir _) => Ok 0%nat
       | None => Err (FsError ENOENT p)
       end.

End Calls.

(** [q] lies in the directory [r] or below it. *)
Fixpoint under (r q : abspath) : bool :=
  match r, q with
  | [], _ => true
  | s :: r', t :: q' => String.eqb s t && under r' q'
  | _ :: _, [] => false
  end.

End Fs.

(** ** JavaScript numbers

    Byte and file counters are non-negative integers ([nat]); clock readings
    are integers ([Z], milliseconds).  A quotient is a JavaScript number: a
    finite value, kept as an exact rational (rounding to double precision is
    left out), one of the two infinities, or NaN. *)

Module JsNum.

Inductive jsnum :=
| Fin (q : Q)
| PosInf
| NegInf
| NaN.

Definition of_Z (z : Z) : jsnum := Fin (inject_Z z).
Definition of_nat (n : nat) : jsnum := of_Z (Z.of_nat n).

(** [a / b]; a zero divisor is [+0]. *)
Definition div (a b : jsnum) : jsnum :=
  match a, b with
  | NaN, _ | _, NaN => NaN
  | Fin x, Fin y =>
      if Qeq_bool y 0 then
        (if Qeq_bool x 0 then NaN else if Qle_bool 0 x then PosInf else NegInf)
      else Fin (Qred (x / y)%Q)
  | Fin _, PosInf | Fin _, NegInf => Fin 0
  | PosInf, Fin y => if Qle_bool 0 y then PosInf else NegInf
  | NegInf, Fin y => if Qle_bool 0 y then NegInf else PosInf
  | _, _ => NaN
  end.

(** [a >= b]; false as soon as one side is NaN. *)
Definition ge (a b : jsnum) : bool :=
  match a, b with
  | NaN, _ | _, NaN => false
  | PosInf, _ => true
  | _, NegInf => true
  | NegInf, _ => false
  | _, PosInf => false
  | Fin x, Fin y => Qle_bool y x
  end.

Definition is_finite (a : jsnum) : bool :=
  match a with Fin _ => true | _ => false end.

(** [a * b] for a finite [b] *)
Definition scale (a : jsnum) (b : Q) : jsnum :=
  match a with
  | Fin x => Fin (Qred (x * b)%Q)
  | NaN => NaN
  | PosInf => if Qeq_bool b 0 then NaN else if Qle_bool 0 b then PosInf else NegInf
  | NegInf => if Qeq_bool b 0 then NaN else if Qle_bool 0 b then NegInf else PosInf
  end.

(** [Math.round(a)]: the integer next to [a + 1/2] from below. *)
Definition round (a : jsnum) : jsnum :=
  match a with
  | Fin x => Fin (inject_Z (Qfloor (x + (1 # 2))%Q))
  | other => other
  end.

End JsNum.

Import JsNum.

(** [formatSize]: the loop of the samples divides by 1024 while the size is
    at least 1024 and a larger unit is left.  The model returns the scaled
    number and the unit; [toFixed1] below is how [toFixed(1)] renders the
    number. *)

Definition units : list string := ["B"; "KB"; "MB"; "GB"].

Record size_text := { amount : jsnum; unit_name : string }.

Fixpoint formatSize_loop (left : nat) (size : jsnum) (unitIndex : nat)
  : jsnum * nat :=
  match left with
  | O => (size, unitIndex)
  | S left' =>
      if JsNum.ge size (JsNum.of_Z 1024)
      then formatSize_loop left' (JsNum.div size (JsNum.of_Z 1024)) (S unitIndex)
      else (size, unitIndex)
  end.

Definition formatSize (b : jsnum) : size_text :=
  let '(size, unitIndex) := formatSize_loop (List.length units - 1) b 0 in
  {| amount := size; unit_name := nth unitIndex units "" |}.

(** [x.toFixed(1)] as the number of tenths that it prints: the nearest to
    [x], and the one further from 0 when two are as near.  An infinity or NaN
    prints no digits. *)
Definition toFixed1 (x : jsnum) : option Z :=
  match x with
  | Fin q =>
      Some (if Qle_bool 0 q then Qfloor (q * 10 + (1 # 2))
            else - Qfloor (- q * 10 + (1 # 2)))%Z
  | _ => None
  end.

(** ** Extension statistics: a JavaScript object used as a counter table

    [Record<string, number>]: the keys are extensions, which start with a dot
    or are the sentinel, so [Object.entries] lists them in the order in which
    they were first assigned. *)

Module Table.

Definition t := list (string * nat).

Fixpoint get (k : string) (r : t) : option nat :=
  match r with
  | [] => None
  | (k', v) :: r' => if String.eqb k k' then Some v else get k r'
  end.

(** [r[k] = v] *)
Fixpoint set (k : string) (v : nat) (r : t) : t :=
  match r with
  | [] => [(k, v)]
  | (k', v') :: r' =>
      if String.eqb k k' then (k, v) :: r' else (k', v') :: set k v r'
  end.

(** [r[k] || 0] *)
Definition get_or_0 (k : string) (r : t) : nat :=
  match get k r with Some v => v | None => 0 end.

(** [r[k] = (r[k] || 0) + n] *)
Definition add (k : string) (n : nat) (r : t) : t :=
  set k (get_or_0 k r + n) r.

(** [for (const [ext, count] of Object.entries(sub)) r[ext] = (r[ext] || 0) + count] *)
Definition merge (r sub : t) : t :=
  fold_left (fun acc kv => add (fst kv) (snd kv) acc) sub r.

(** The comparator of the summaries: [(a, b) => b[1] - a[1]]. *)
Definition comparator (a b : string * nat) : Z :=
  Z.of_nat (snd b) - Z.of_nat (snd a).

(** [Array.prototype.sort] is stable: an element moves in front of the
    sorted rest only as far as the comparator is not positive. *)
Fixpoint insert (x : string * nat) (l : t) : t :=
  match l with
  | [] => [x]
  | y :: l' =>
      if (comparator x y <=? 0)%Z then x :: y :: l' else y :: insert x l'
  end.

Fixpoint sort (l : t) : t :=
  match l with
  | [] => []
  | x :: l' => insert x (sort l')
  end.

End Table.

(** The bucket of a file name in every sample:
    [path.extname(name).toLowerCase() || '(no extension)']. *)

Definition no_extension : string := "(no extension)".

Definition bucket (name : string) : string :=
  let ext := Str.toLowerCase (Path.extname name) in
  if Str.is_empty ext then no_extension else ext.

(** ** Running a script: console, clock, file system, exceptions

    A statement of a script either completes with a value, throws, or ends
    the process with [process.exit(code)].  The world it acts on holds the
    file system, the lines printed so far, the number of clock readings
    taken, and the names of the library functions called. *)

(** Console lines, with the values they print. *)
Inductive line :=
| Note (text : string)
| InputMissing (inputFile : string)
| CreatedDirectory (outputDir : string)
| ErrorCreatingDirectory (err : error)
| InputSize (size : size_text)
| ExtractingTo (inputFile outputDir : string)
| FoundEntries (n : nat)
| Progress (name : string) (size : size_text)
| ExtractedEntry (percent : jsnum) (path : string) (size : size_text)
    (extractedCount totalFiles : nat) (speed : size_text)
| ExtractedFile (percent : jsnum) (path : string)
    (extractedCount totalFiles : nat) (filesPerSecond : jsnum)
| EntryError (path : string) (err : error)
| TimeTaken (seconds : jsnum)
| TotalSize (size : size_text)
| ExtractedSize (size : size_text)
| CompressionRatio (ratio : jsnum)
| AverageSpeed (speed : size_text)
| AverageFileSpeed (filesPerSecond : jsnum)
| ContentsFiles (n : nat)
| ContentsDirectories (n : nat)
| FileType (ext : string) (count : nat)
| Decompressed (algorithm : string) (size : nat)
| Processed (size speed : size_text)
| ErrorDuring (err : error)
| ErrorReadingInput (err : error)
| ErrorDuringDecompression (err : error)
| OutputFile (path : string).

Record world := {
  root : Fs.node;
  console : list line;
  ticks : nat;
  calls : list string   (* library functions called so far, by name *)
}.

Definition set_root (r : Fs.node) (w : world) : world :=
  {| root := r; console := console w; ticks := ticks w; calls := calls w |}.

Definition add_line (l : line) (w : world) : world :=
  {| root := root w; console := console w ++ [l];
     ticks := ticks w; calls := calls w |}.

Definition tick (w : world) : world :=
  {| root := root w; console := console w;
     ticks := S (ticks w); calls := calls w |}.

Definition add_call (name : string) (w : world) : world :=
  {| root := root w; console := console w;
     ticks := ticks w; calls := calls w ++ [name] |}.

Inductive completion (A : Type) :=
| Return (a : A)
| Throw (e : error)
| Exit (code : nat).
Arguments Return {A} a.
Arguments Throw {A} e.
Arguments Exit {A} code.

Definition M (A : Type) : Type := world -> completion A * world.

Definition ret {A} (a : A) : M A := fun w => (Return a, w).

Definition bind {A B} (m : M A) (k : A -> M B) : M B :=
  fun w =>
    match m w with
    | (Return a, w') => k a w'
    | (Throw e, w') => (Throw e, w')
    | (Exit c, w') => (Exit c, w')
    end.

Notation "x <- m ;; k" := (bind m (fun x => k))
  (at level 61, m at next level, right associativity).
Notation "m ;;; k" := (bind m (fun _ => k))
  (at level 61, right associativity).

Definition throw {A} (e : error) : M A := fun w => (Throw e, w).

(** [process.exit(code)] *)
Definition process_exit {A} (code : nat) : M A := fun w => (Exit code, w).

(** [try { m } catch (err) { h err }] *)
Definition try_catch {A} (m : M A) (h : error -> M A) : M A :=
  fun w =>
    match m w with
    | (Throw e, w') => h e w'
    | r => r
    end.

(** [console.log], [console.error] and [process.stdout.write] *)
Definition print (l : line) : M unit :=
  fun w => (Return tt, add_line l w).

(** A file-system call that changes the tree. *)
Definition fs_update (f : Fs.node -> result Fs.node) : M unit :=
  fun w =>
    match f (root w) with
    | Ok r => (Return tt, set_root r w)
    | Err e => (Throw e, w)
    end.

(** A call that only reads the world. *)
Definition fs_read {A} (f : Fs.node -> A) : M A :=
  fun w => (Return (f (root w)), w).

(** The outcome of a library call or of a reading file-system call. *)
Definition lift {A} (r : result A) : M A :=
  match r with
  | Ok a => ret a
  | Err e => throw e
  end.

Definition fs_get {A} (f : Fs.node -> result A) : M A :=
  fun w => lift (f (root w)) w.

(** [Date.now()]: the next reading of the clock. *)
Definition Date_now (clock : nat -> Z) : M Z :=
  fun w => (Return (clock (ticks w)), tick w).

(** A call of the library function [name], with its result; the call is
    noted in the world. *)
Definition call_library {A} (name : string) (r : result A) : M A :=
  fun w => lift r (add_call name w).

(** [for (const x of l) { body }] with the local variables [s] of the loop. *)
Fixpoint for_each {A S} (body : S -> A -> M S) (l : list A) (s : S) : M S :=
  match l with
  | [] => ret s
  | x :: l' => s' <- body s x ;; for_each body l' s'
  end.

(** What is left when the script is over: the exit code, the file system and
    the console. *)
Record outcome (A : Type) := {
  exit_code : nat;
  returned : option A;
  final_fs : Fs.node;
  output : list line;
  library_calls : list string
}.
Arguments exit_code {A} o.
Arguments returned {A} o.
Arguments final_fs {A} o.
Arguments output {A} o.
Arguments library_calls {A} o.

Definition start (fs : Fs.node) : world :=
  {| root := fs; console := []; ticks := 0; calls := [] |}.

(** A script that returns ends the process with code 0; an exception that
    nothing catches ends it with code 1. *)
Definition run {A} (script : M A) (fs : Fs.node) : outcome A :=
  let '(c, w) := script (start fs) in
  {| exit_code := match c with Return _ => 0 | Throw _ => 1 | Exit code => code end;
     returned := match c with Return a => Some a | _ => None end;
     final_fs := root w;
     output := console w;
     library_calls := calls w |}.

(** The text of an exception, as far as the scripts look into it
    ([err.message.includes(...)]); the name of the system call that Node puts
    before the path is left out, and a failed read names the call only. *)
Definition errno_text (c : errno) : string :=
  match c with
  | ENOENT => "ENOENT: no such file or directory"
  | ENOTDIR => "ENOTDIR: not a directory"
  | EISDIR => "EISDIR: illegal operation on a directory"
  | EEXIST => "EEXIST: file already exists"
  end.

Definition message (e : error) : string :=
  match e with
  | FsError c p => (errno_text c ++ ", '" ++ p ++ "'")%string
  | ReadError c => (errno_text c ++ ", read")%string
  | LibError m => m
  end.

Fixpoint includes (s needle : string) : bool :=
  String.prefix needle s ||
  match s with
  | EmptyString => false
  | String _ s' => includes s' needle
  end.

(** The start of most samples: the input file must exist, and the output
    directory is created when it is missing. *)
Definition check_arguments (cwd : Fs.abspath) (inputFile outputDir : string)
  : M unit :=
  present <- fs_read (fun r => Fs.existsSync cwd r inputFile) ;;
  (if present then ret tt
   else print (InputMissing inputFile) ;;; process_exit 1) ;;;
  out_present <- fs_read (fun r => Fs.existsSync cwd r outputDir) ;;
  if out_present then ret tt
  else try_catch
         (fs_update (fun r => Fs.mkdirSync cwd r outputDir) ;;;
          print (CreatedDirectory outputDir))
         (fun err => print (ErrorCreatingDirectory err) ;;; process_exit 1).

(** ** [fflate.ts] *)

Module Fflate.

(** [getFileTypeStats] on a directory of the tree: one more file in the
    bucket of each regular file, and the counts of each subdirectory,
    obtained by the recursive call, added in.  The recursion follows the
    tree: the subdirectory read by the recursive call is the child node. *)
Fixpoint stats_of_dir (dir : Fs.node) : Table.t :=
  match dir with
  | Fs.File _ => []
  | Fs.Dir entries =>
      (fix go (es : list (string * Fs.node)) (stats : Table.t) : Table.t :=
         match es with
         | [] => stats
         | (name, child) :: es' =>
             go es' (match child with
                     | Fs.Dir _ => Table.merge stats (stats_of_dir child)
                     | Fs.File _ => Table.add (bucket name) 1 stats
                     end)
         end) entries []
  end.

(** The local variables of the entry loop. *)
Record counters := {
  c_totalBytes : nat;
  c_fileCount : nat;
  c_dirCount : nat
}.

(** What a completed extraction knows when it prints its summary. *)
Record summary := {
  totalBytes : nat;
  fileCount : nat;
  dirCount : nat;
  totalTime : jsnum;
  fileTypes : Table.t
}.

Section Sample.
Variable cwd : Fs.abspath.
Variable clock : nat -> Z.
(** [Object.entries(unzipSync(zipData))], or the exception of [unzipSync] *)
Variable unzipSync : bytes -> result (list (string * bytes)).
Variables inputFile outputDir : string.

Definition ensureDir (dirPath : string) : M unit :=
  present <- fs_read (fun r => Fs.existsSync cwd r dirPath) ;;
  if present then ret tt
  else fs_update (fun r => Fs.mkdirSync cwd r dirPath).

Definition getFileTypeStats (dirPath : string) : M Table.t :=
  entries <- fs_get (fun r => Fs.readdir cwd r dirPath) ;;
  ret (stats_of_dir (Fs.Dir entries)).

(** Lines 91-108: the body of the loop over the entries. *)
Definition extract_entry (c : counters) (entry : string * bytes) : M counters :=
  let '(filename, contents) := entry in
  let filePath := Path.join outputDir filename in
  let fileDir := Path.dirname filePath in
  ensureDir fileDir ;;;
  fs_update (fun r => Fs.writeFileSync cwd r filePath contents) ;;;
  let c' := {| c_totalBytes := c_totalBytes c + List.length contents;
               c_fileCount := c_fileCount c + 1;
               c_dirCount := c_dirCount c |} in
  print (Progress filename (formatSize (of_nat (List.length contents)))) ;;;
  ret c'.

(** Lines 137-151: the [catch] of the whole extraction. *)
Definition on_error {A} (err : error) : M A :=
  print (ErrorDuring err) ;;;
  (if includes (message err) "invalid" || includes (message err) "not a"
   then print (Note "This might be due to: 1. Corrupted ZIP file 2. Unsupported ZIP format 3. Password-protected ZIP")
   else ret tt) ;;;
  process_exit 1.

Definition extractZipFile : M summary :=
  try_catch
    (present <- fs_read (fun r => Fs.existsSync cwd r inputFile) ;;
     (if present then ret tt
      else print (InputMissing inputFile) ;;; process_exit 1) ;;;
     inputSize <- fs_get (fun r => Fs.stat_size cwd r inputFile) ;;
     print (InputSize (formatSize (of_nat inputSize))) ;;;
     ensureDir outputDir ;;;
     print (ExtractingTo inputFile outputDir) ;;;
     zipData <- fs_get (fun r => Fs.readFileSync cwd r inputFile) ;;
     startTime <- Date_now clock ;;
     let c0 := {| c_totalBytes := 0; c_fileCount := 0; c_dirCount := 0 |} in
     files <- call_library "unzipSync" (unzipSync zipData) ;;
     c <- for_each extract_entry files c0 ;;
     endTime <- Date_now clock ;;
     let totalTime := JsNum.div (of_Z (endTime - startTime)) (of_Z 1000) in
     print (Note "Gathering file type statistics...") ;;;
     fileTypes <- getFileTypeStats outputDir ;;
     print (Note "Extraction completed successfully!") ;;;
     print (TimeTaken totalTime) ;;;
     print (InputSize (formatSize (of_nat inputSize))) ;;;
     print (ExtractedSize (formatSize (of_nat (c_totalBytes c)))) ;;;
     print (CompressionRatio
              (JsNum.div (of_nat (c_totalBytes c)) (of_nat inputSize))) ;;;
     print (AverageSpeed
              (formatSize (JsNum.div (of_nat (c_totalBytes c)) totalTime))) ;;;
     print (Note "Contents:") ;;;
     print (ContentsFiles (c_fileCount c)) ;;;
     print (ContentsDirectories (c_dirCount c)) ;;;
     print (Note "File types:") ;;;
     for_each (fun _ kv => print (FileType (fst kv) (snd kv)))
              (Table.sort fileTypes) tt ;;;
     ret {| totalBytes := c_totalBytes c;
            fileCount := c_fileCount c;
            dirCount := c_dirCount c;
            totalTime := totalTime;
            fileTypes := Table.sort fileTypes |})
    on_error.

End Sample.

End Fflate.

(** ** The minizip sample ([src/unnamed/part_000]) *)

Module Minizip.

(** An entry of the opened archive, with what [zip.extractEntry] yields
    for it. *)
Record entry := {
  path : string;
  isDirectory : bool;
  extractEntry : result bytes
}.

Record locals := {
  extractedCount : nat;
  totalBytes : nat;
  fileTypes : Table.t
}.

Record summary := {
  s_totalBytes : nat;
  s_totalTime : jsnum;
  s_fileTypes : Table.t
}.

(** Lines 104-105: [totalBytes / ((Date.now() - startTime) / 1000)] *)
Definition bytesPerSecond (totalBytes : nat) (startTime now : Z) : jsnum :=
  let elapsedSeconds := JsNum.div (of_Z (now - startTime)) (of_Z 1000) in
  JsNum.div (of_nat totalBytes) elapsedSeconds.

Definition progress (extractedCount totalFiles : nat) : jsnum :=
  JsNum.round (JsNum.scale (JsNum.div (of_nat extractedCount) (of_nat totalFiles)) 100%Q).

Section Sample.
Variable cwd : Fs.abspath.
Variable clock : nat -> Z.
(** [await instantiate()]: the library is ready, or its exception *)
Variable instantiate : result unit.
(** [openArchive(data).getEntries()], or the exception of the library *)
Variable openArchive : bytes -> result (list entry).
(** [zip.close()], or the exception of the library *)
Variable close : result unit.
Variables inputFile outputDir : string.

(** Lines 75-118: the body of the loop, a [try] with its [catch]. *)
Definition extract_entry (totalFiles : nat) (startTime : Z)
    (st : locals) (e : entry) : M locals :=
  try_catch
    (if isDirectory e then
       ret {| extractedCount := extractedCount st + 1;
              totalBytes := totalBytes st;
              fileTypes := fileTypes st |}
     else
       let outputPath := Path.join outputDir (path e) in
       let outputDirPath := Path.dirname outputPath in
       present <- fs_read (fun r => Fs.existsSync cwd r outputDirPath) ;;
       (if present then ret tt
        else fs_update (fun r => Fs.mkdirSync cwd r outputDirPath)) ;;;
       content <- call_library "extractEntry" (extractEntry e) ;;
       fs_update (fun r => Fs.writeFileSync cwd r outputPath content) ;;;
       let totalBytes' := totalBytes st + List.length content in
       let ext := bucket (path e) in
       let fileTypes' := Table.add ext 1 (fileTypes st) in
       let extractedCount' := extractedCount st + 1 in
       now <- Date_now clock ;;
       print (ExtractedEntry (progress extractedCount' totalFiles) (path e)
                (formatSize (of_nat (List.length content)))
                extractedCount' totalFiles
                (formatSize (bytesPerSecond totalBytes' startTime now))) ;;;
       ret {| extractedCount := extractedCount';
              totalBytes := totalBytes';
              fileTypes := fileTypes' |})
    (fun err => print (EntryError (path e) err) ;;; ret st).

Definition on_error {A} (err : error) : M A :=
  print (ErrorDuring err) ;;;
  (if includes (message err) "invalid" || includes (message err) "corrupted"
   then print (Note "This might be due to: 1. Corrupted ZIP file 2. Unsupported compression method 3. Password-protected ZIP")
   else ret tt) ;;;
  process_exit 1.

Definition extractZip : M summary :=
  try_catch
    (print (Note "Loading") ;;;
     call_library "instantiate" instantiate ;;;
     data <- fs_get (fun r => Fs.readFileSync cwd r inputFile) ;;
     startTime <- Date_now clock ;;
     entries <- call_library "openArchive" (openArchive data) ;;
     print (FoundEntries (List.length entries)) ;;;
     let st0 := {| extractedCount := 0; totalBytes := 0; fileTypes := [] |} in
     st <- for_each (extract_entry (List.length entries) startTime) entries st0 ;;
     call_library "close" close ;;;
     endTime <- Date_now clock ;;
     let totalTime := JsNum.div (of_Z (endTime - startTime)) (of_Z 1000) in
     print (Note "Extraction completed!") ;;;
     print (TotalSize (formatSize (of_nat (totalBytes st)))) ;;;
     print (TimeTaken totalTime) ;;;
     print (AverageSpeed
              (formatSize (JsNum.div (of_nat (totalBytes st)) totalTime))) ;;;
     print (Note "File types extracted:") ;;;
     for_each (fun _ kv => print (FileType (fst kv) (snd kv)))
              (Table.sort (fileTypes st)) tt ;;;
     ret {| s_totalBytes := totalBytes st;
            s_totalTime := totalTime;
            s_fileTypes := Table.sort (fileTypes st) |})
    on_error.

Definition main : M summary :=
  check_arguments cwd inputFile outputDir ;;; extractZip.

End Sample.

End Minizip.

(** ** The JSZip sample ([src/unnamed/part_002]) *)

Module JSZip.

(** A member of [zipContent.files], with what [async('nodebuffer')] yields
    for it. *)
Record zipObject := {
  filePath : string;
  dir : bool;
  nodebuffer : result bytes
}.

Record locals := {
  extractedCount : nat;
  fileTypes : Table.t
}.

Record summary := {
  s_extractedCount : nat;
  s_totalTime : jsnum;
  s_fileTypes : Table.t
}.

Section Sample.
Variable cwd : Fs.abspath.
Variable clock : nat -> Z.
(** The members of [zip.loadAsync(data, ...)] in the order of
    [Object.keys(zipContent.files)], or the exception of the library *)
Variable loadAsync : bytes -> result (list zipObject).
Variables inputFile outputDir : string.

(** Lines 67-109: the body of the loop. *)
Definition extract_file (totalFiles : nat) (startTime : Z)
    (st : locals) (zipEntry : zipObject) : M locals :=
  if dir zipEntry then
    ret {| extractedCount := extractedCount st + 1; fileTypes := fileTypes st |}
  else
    try_catch
      (let outputPath := Path.join outputDir (filePath zipEntry) in
       let outputDirPath := Path.dirname outputPath in
       present <- fs_read (fun r => Fs.existsSync cwd r outputDirPath) ;;
       (if present then ret tt
        else fs_update (fun r => Fs.mkdirSync cwd r outputDirPath)) ;;;
       content <- call_library "async" (nodebuffer zipEntry) ;;
       fs_update (fun r => Fs.writeFileSync cwd r outputPath content) ;;;
       let ext := bucket (filePath zipEntry) in
       let fileTypes' := Table.add ext 1 (fileTypes st) in
       let extractedCount' := extractedCount st + 1 in
       now <- Date_now clock ;;
       let elapsedSeconds := JsNum.div (of_Z (now - startTime)) (of_Z 1000) in
       let filesPerSecond := JsNum.div (of_nat extractedCount') elapsedSeconds in
       print (ExtractedFile (Minizip.progress extractedCount' totalFiles)
                (filePath zipEntry) extractedCount' totalFiles filesPerSecond) ;;;
       ret {| extractedCount := extractedCount'; fileTypes := fileTypes' |})
      (fun err => print (EntryError (filePath zipEntry) err) ;;; ret st).

Definition on_error {A} (err : error) : M A :=
  print (ErrorDuring err) ;;;
  (if includes (message err) "invalid signature"
   then print (Note "This might be due to: 1. Corrupted ZIP file 2. Not a valid ZIP file 3. Password-protected ZIP")
   else ret tt) ;;;
  process_exit 1.

Definition extractZip : M summary :=
  try_catch
    (print (Note "Loading") ;;;
     data <- fs_get (fun r => Fs.readFileSync cwd r inputFile) ;;
     files <- call_library "loadAsync" (loadAsync data) ;;
     print (FoundEntries (List.length files)) ;;;
     let st0 := {| extractedCount := 0; fileTypes := [] |} in
     startTime <- Date_now clock ;;
     st <- for_each (extract_file (List.length files) startTime) files st0 ;;
     endTime <- Date_now clock ;;
     let totalTime := JsNum.div (of_Z (endTime - startTime)) (of_Z 1000) in
     print (Note "Extraction completed!") ;;;
     print (TimeTaken totalTime) ;;;
     print (AverageFileSpeed
              (JsNum.div (of_nat (extractedCount st)) totalTime)) ;;;
     print (Note "File types extracted:") ;;;
     for_each (fun _ kv => print (FileType (fst kv) (snd kv)))
              (Table.sort (fileTypes st)) tt ;;;
     ret {| s_extractedCount := extractedCount st;
            s_totalTime := totalTime;
            s_fileTypes := Table.sort (fileTypes st) |})
    on_error.

Definition main : M summary :=
  check_arguments cwd inputFile outputDir ;;; extractZip.

End Sample.

End JSZip.

(** ** The node:zlib sample ([src/unnamed/part_004]) *)

Module NodeZlib.

Section Sample.
Variable cwd : Fs.abspath.
(** [zlib.inflateSync], [zlib.inflateRawSync] and [zlib.gunzipSync]: the
    decompressed data, or the exception *)
Variables inflateSync inflateRawSync gunzipSync : bytes -> result bytes.
Variables inputFile outputFile : string.

(** One [try] block of the chain, lines 50-54, 61-65 and 72-76:
    decompress, write the output file, report, and end the process with
    code 0. *)
Definition attempt (name algorithm : string)
    (decompress : bytes -> result bytes) (compressedData : bytes) : M unit :=
  decompressedData <- call_library name (decompress compressedData) ;;
  fs_update (fun r => Fs.writeFileSync cwd r outputFile decompressedData) ;;;
  print (Decompressed algorithm (List.length decompressedData)) ;;;
  process_exit 0.

(** Lines 42-87. *)
Definition decompress_file : M unit :=
  try_catch
    (print (Note "Decompressing") ;;;
     compressedData <- fs_get (fun r => Fs.readFileSync cwd r inputFile) ;;
     try_catch
       (attempt "inflateSync" "standard deflate" inflateSync compressedData)
       (fun _ => print (Note "Standard deflate decompression failed, trying raw deflate...")) ;;;
     try_catch
       (attempt "inflateRawSync" "raw deflate" inflateRawSync compressedData)
       (fun _ => print (Note "Raw deflate decompression failed, trying gzip...")) ;;;
     try_catch
       (attempt "gunzipSync" "gzip" gunzipSync compressedData)
       (fun _ =>
          print (Note "All decompression methods failed.") ;;;
          print (Note "Note: node:zlib does not support deflate64. For deflate64, you may need a specialized library.") ;;;
          process_exit 1))
    (fun err => print (ErrorDuring err) ;;; process_exit 1).

(** Lines 24-40, then the chain. *)
Definition main : M unit :=
  check_arguments cwd inputFile (Path.dirname outputFile) ;;;
  decompress_file.

End Sample.

End NodeZlib.

(** ** The progress handler of the minizlib sample ([minizlib.ts], lines 59-98) *)

Module Minizlib.

Record tracker := {
  totalBytes : nat;
  lastProgress : Z
}.

(** How [await pipelineAsync(...)] ends.  An ['error'] event of a stream is
    delivered to the listeners of that stream in the order in which they
    were added: the handler that the script put on the stream runs before
    the pipeline rejects its promise.  [InputError] is an error of the input
    stream, [UnzipError] an error of the decompressor; [Rejected] is a
    rejection for any other reason, the error of the output stream
    included. *)
Inductive ending :=
| Finished
| InputError (err : error)
| UnzipError (err : error)
| Rejected (err : error).

(** What a pipeline did: the chunks of the ['data'] events of its
    decompressor, the file system that its output stream left, and how it
    ended. *)
Record piped := {
  chunks : list bytes;
  left : Fs.node;
  ended : ending
}.

Record summary := {
  outputPath : string;
  s_totalBytes : nat;
  s_totalTime : jsnum
}.

Section Sample.
Variable clock : nat -> Z.

(** [unzip.on('data', (chunk) => ...)] *)
Definition on_data (startTime : Z) (st : tracker) (chunk : bytes) : M tracker :=
  let totalBytes' := totalBytes st + List.length chunk in
  now <- Date_now clock ;;
  if (100 <=? now - lastProgress st)%Z then
    let elapsedSeconds := JsNum.div (of_Z (now - startTime)) (of_Z 1000) in
    let bytesPerSecond := JsNum.div (of_nat totalBytes') elapsedSeconds in
    print (Processed (formatSize (of_nat totalBytes')) (formatSize bytesPerSecond)) ;;;
    ret {| totalBytes := totalBytes'; lastProgress := now |}
  else
    ret {| totalBytes := totalBytes'; lastProgress := lastProgress st |}.

(** The tracker over the chunks that the decompressor emits. *)
Definition track (chunks : list bytes) : M tracker :=
  startTime <- Date_now clock ;;
  lastProgress0 <- Date_now clock ;;
  for_each (on_data startTime) chunks
           {| totalBytes := 0; lastProgress := lastProgress0 |}.

Variable cwd : Fs.abspath.
(** [pipelineAsync(inputStream, new Unzip(options), fs.createWriteStream(outputPath))]
    on a file system.  The first argument is the [windowBits] of the
    options: [None] for the default options of the first method. *)
Variable pipeline : option Z -> string -> Fs.node -> piped.
Variables inputFile outputDir : string.

Definition pipelineAsync (windowBits : option Z) (outputPath : string)
  : M piped :=
  fun w =>
    let p := pipeline windowBits outputPath (root w) in
    (Return p, add_call "pipelineAsync" (set_root (left p) w)).

(** Lines 72-75 and 77-80: the handlers of the ['error'] events. *)
Definition on_input_error {A} (err : error) : M A :=
  print (ErrorReadingInput err) ;;; process_exit 1.

Definition on_unzip_error {A} (err : error) : M A :=
  print (ErrorDuringDecompression err) ;;; process_exit 1.

(** Lines 111-121 and 139-149: the report of a method that finished; the
    two blocks differ in their first line only. *)
Definition report (title outputPath : string) (startTime : Z) (st : tracker)
  : M summary :=
  endTime <- Date_now clock ;;
  let totalTime := JsNum.div (of_Z (endTime - startTime)) (of_Z 1000) in
  print (Note title) ;;;
  print (OutputFile outputPath) ;;;
  print (TotalSize (formatSize (of_nat (totalBytes st)))) ;;;
  print (TimeTaken totalTime) ;;;
  print (AverageSpeed
           (formatSize (JsNum.div (of_nat (totalBytes st)) totalTime))) ;;;
  ret {| outputPath := outputPath;
         s_totalBytes := totalBytes st;
         s_totalTime := totalTime |}.

(** Lines 154-168: the [catch] of the whole function. *)
Definition on_error {A} (err : error) : M A :=
  print (ErrorDuring err) ;;;
  (if includes (message err) "invalid" || includes (message err) "not a"
   then print (Note "This might be due to: 1. File is not compressed or uses unsupported compression 2. Corrupted compressed file 3. Unsupported compression method")
   else ret tt) ;;;
  process_exit 1.

(** Lines 126-152: the second method.  Its decompressor is a new one: the
    script put no handler on it, so its ['data'] events are not counted and
    its ['error'] event rejects the promise; the input stream is the one of
    the first method, with its handler. *)
Definition without_header (startTime : Z) (st : tracker) : M summary :=
  let outputPath := Path.join outputDir (Path.basename inputFile ".gz") in
  p <- pipelineAsync (Some (-15)%Z) outputPath ;;
  match ended p with
  | Finished =>
      report "Decompression without header completed!" outputPath startTime st
  | InputError err => on_input_error err
  | UnzipError err | Rejected err =>
      print (Note "All decompression methods failed") ;;; throw err
  end.

(** Lines 56-168.  Nothing but the promise of the pipeline can throw in the
    [try] block of the first method, so its [catch] is the branch of a
    rejected promise. *)
Definition extractCompressed : M summary :=
  try_catch
    (print (Note ("Processing " ++ inputFile ++ "...")) ;;;
     startTime <- Date_now clock ;;
     lastProgress0 <- Date_now clock ;;
     let st0 := {| totalBytes := 0; lastProgress := lastProgress0 |} in
     print (Note "Attempting standard decompression...") ;;;
     let outputPath := Path.join outputDir (Path.basename inputFile ".gz") in
     p <- pipelineAsync None outputPath ;;
     st <- for_each (on_data startTime) (chunks p) st0 ;;
     match ended p with
     | Finished => report "Decompression completed!" outputPath startTime st
     | InputError err => on_input_error err
     | UnzipError err => on_unzip_error err
     | Rejected _ =>
         print (Note "Standard decompression failed, trying without header...") ;;;
         without_header startTime st
     end)
    on_error.

(** Lines 17-41, then the function. *)
Definition main : M summary :=
  check_arguments cwd inputFile outputDir ;;; extractCompressed.

End Sample.

End Minizlib.

(** ** Decompressors for the examples

    The three node:zlib functions on streams made of uncompressed (stored)
    deflate blocks, with the zlib and gzip envelopes and their checksums.
    The examples below use such streams only; the theorems hold for any
    decompressors.  A stream with a Huffman-coded block is outside this
    fragment and is reported as an error here. *)

Module Stored.

Definition val (b : Byte.byte) : Z := Z.of_N (Byte.to_N b).

Definition le16 (lo hi : Byte.byte) : Z := val lo + 256 * val hi.

Definition le32 (b0 b1 b2 b3 : Byte.byte) : Z :=
  val b0 + 256 * val b1 + 65536 * val b2 + 16777216 * val b3.

Fixpoint split_at (n : nat) (l : bytes) : option (bytes * bytes) :=
  match n, l with
  | O, _ => Some ([], l)
  | S n', b :: l' =>
      match split_at n' l' with
      | Some (a, r) => Some (b :: a, r)
      | None => None
      end
  | S _, [] => None
  end.

(** The deflate blocks of [input]: the data and what follows the final
    block.  Every block takes at least five bytes, so [fuel] blocks at
    most are read from an input of [fuel] bytes. *)
Fixpoint blocks (fuel : nat) (input : bytes) : result (bytes * bytes) :=
  match fuel with
  | O => Err (LibError "unexpected end of file")
  | S fuel' =>
      match input with
      | h :: l0 :: l1 :: n0 :: n1 :: rest =>
          if (Z.land (Z.shiftr (val h) 1) 3 =? 0)%Z then
            if (Z.lxor (le16 l0 l1) 65535 =? le16 n0 n1)%Z then
              match split_at (Z.to_nat (le16 l0 l1)) rest with
              | Some (data, rest') =>
                  if Z.testbit (val h) 0 then Ok (data, rest')
                  else match blocks fuel' rest' with
                       | Ok (more, rest'') => Ok (data ++ more, rest'')
                       | Err e => Err e
                       end
              | None => Err (LibError "unexpected end of file")
              end
            else Err (LibError "invalid stored block lengths")
          else if (Z.land (Z.shiftr (val h) 1) 3 =? 3)%Z
               then Err (LibError "invalid block type")
               else Err (LibError "compressed block")
      | h :: _ =>
          if (Z.land (Z.shiftr (val h) 1) 3 =? 3)%Z
          then Err (LibError "invalid block type")
          else Err (LibError "unexpected end of file")
      | [] => Err (LibError "unexpected end of file")
      end
  end.

Definition inflateRawSync (input : bytes) : result bytes :=
  match blocks (List.length input) input with
  | Ok (data, _) => Ok data
  | Err e => Err e
  end.

Definition adler32 (data : bytes) : Z :=
  let '(a, b) :=
    fold_left (fun '(a, b) x =>
                 let a' := ((a + val x) mod 65521)%Z in
                 (a', ((b + a') mod 65521)%Z))
              data (1%Z, 0%Z) in
  (b * 65536 + a)%Z.

Definition crc32_byte (crc : Z) (x : Byte.byte) : Z :=
  let step c :=
    if Z.testbit c 0 then Z.lxor (Z.shiftr c 1) 3988292384 else Z.shiftr c 1 in
  step (step (step (step (step (step (step (step (Z.lxor crc (val x))))))))).

Definition crc32 (data : bytes) : Z :=
  Z.lxor (fold_left crc32_byte data 4294967295%Z) 4294967295.

Definition inflateSync (input : bytes) : result bytes :=
  match input with
  | cmf :: flg :: body =>
      if ((Z.land (val cmf) 15 =? 8) && (Z.shiftr (val cmf) 4 <=? 7)
          && ((256 * val cmf + val flg) mod 31 =? 0)
          && negb (Z.testbit (val flg) 5))%Z
      then match blocks (List.length body) body with
           | Ok (data, [c3; c2; c1; c0]) =>
               if (le32 c0 c1 c2 c3 =? adler32 data)%Z then Ok data
               else Err (LibError "incorrect data check")
           | Ok (data, c3 :: c2 :: c1 :: c0 :: _) =>
               if (le32 c0 c1 c2 c3 =? adler32 data)%Z then Ok data
               else Err (LibError "incorrect data check")
           | Ok _ => Err (LibError "unexpected end of file")
           | Err e => Err e
           end
      else Err (LibError "incorrect header check")
  | _ => Err (LibError "unexpected end of file")
  end.

Definition gunzipSync (input : bytes) : result bytes :=
  match input with
  | id1 :: id2 :: header =>
      if ((val id1 =? 31) && (val id2 =? 139))%Z then
        match header with
        | cm :: flg :: _ :: _ :: _ :: _ :: _ :: _ :: body =>
            if (val cm =? 8)%Z then
              if (val flg =? 0)%Z then
                match blocks (List.length body) body with
                | Ok (data, [c0; c1; c2; c3; s0; s1; s2; s3]) =>
                    if (le32 c0 c1 c2 c3 =? crc32 data)%Z then
                      if (le32 s0 s1 s2 s3
                          =? Z.of_nat (List.length data) mod 4294967296)%Z
                      then Ok data
                      else Err (LibError "incorrect length check")
                    else Err (LibError "incorrect data check")
                | Ok _ => Err (LibError "unexpected end of file")
                | Err e => Err e
                end
              else Err (LibError "optional header fields")
            else Err (LibError "unknown compression method")
        | _ => Err (LibError "unexpected end of file")
        end
      else Err (LibError "incorrect header check")
  | _ => Err (LibError "unexpected end of file")
  end.

End Stored.

(** ** fflate's [unzipSync] on archives of stored entries

    The function of the library, as it reads an archive: the end of central
    directory record is searched from the end, the headers of the central
    directory give the method, the sizes, the name and the place of each
    entry.  Entries that are not stored (method 0) and zip64 archives are
    left out: the function fails on them here.  Names are taken to be
    distinct. *)

Module FflateStored.

Definition byte_at (d : bytes) (i : nat) : Z :=
  match nth_error d i with
  | Some b => Stored.val b
  | None => 0%Z
  end.

(** [b2(d, b)] and [b4(d, b)]: little-endian fields *)
Definition b2 (d : bytes) (b : nat) : Z :=
  (byte_at d b + 256 * byte_at d (b + 1))%Z.

Definition b4 (d : bytes) (b : nat) : Z :=
  (byte_at d b + 256 * byte_at d (b + 1) + 65536 * byte_at d (b + 2)
   + 16777216 * byte_at d (b + 3))%Z.

(** [slc(d, s, e)] *)
Definition slc (d : bytes) (s e : nat) : bytes := firstn (e - s) (skipn s d).

(** The search for the end of central directory record, from [e] down:
    [for (; b4(data, e) != 0x6054B50; --e) if (!e || data.length - e > 65558) err(13)] *)
Fixpoint find_end (fuel : nat) (d : bytes) (e : nat) : option nat :=
  match fuel with
  | O => None
  | S fuel' =>
      if (b4 d e =? 101010256)%Z then Some e
      else if (e =? 0) || (65558 <? List.length d - e) then None
      else find_end fuel' d (e - 1)
  end.

(** The loop over the central directory: [zh] reads the header at [o], [slzh]
    the start of the data from the local header; the data of a stored entry
    is [slc(data, b, b + sc)], cut by the compressed size [sc]. *)
Fixpoint entries (count : nat) (d : bytes) (o : nat)
  : result (list (string * bytes)) :=
  match count with
  | O => Ok []
  | S count' =>
      let c := b2 d (o + 10) in
      let sc := Z.to_nat (b4 d (o + 20)) in
      let fnl := Z.to_nat (b2 d (o + 28)) in
      let fn := string_of_list_byte (slc d (o + 46) (o + 46 + fnl)) in
      let es := o + 46 + fnl in
      let no := es + Z.to_nat (b2 d (o + 30)) + Z.to_nat (b2 d (o + 32)) in
      let off := Z.to_nat (b4 d (o + 42)) in
      let b := off + 30 + Z.to_nat (b2 d (off + 26)) + Z.to_nat (b2 d (off + 28)) in
      if (c =? 0)%Z then
        match entries count' d no with
        | Ok rest => Ok ((fn, slc d b (b + sc)) :: rest)
        | Err e => Err e
        end
      else Err (LibError "compressed entry")
  end.

(** The uncompressed size that the header at [o] declares: [su] of [zh]. *)
Definition declared_size (d : bytes) (o : nat) : Z := b4 d (o + 24).

Definition unzipSync (d : bytes) : result (list (string * bytes)) :=
  if List.length d <? 22 then Err (LibError "invalid zip data")
  else
    match find_end (S (List.length d)) d (List.length d - 22) with
    | None => Err (LibError "invalid zip data")
    | Some e =>
        let c := b2 d (e + 8) in
        if (c =? 0)%Z then Ok []
        else
          let o := b4 d (e + 16) in
          if (o =? 4294967295)%Z || (c =? 65535)%Z
          then Err (LibError "zip64")
          else entries (Z.to_nat c) d (Z.to_nat o)
    end.

End FflateStored.

(** ** Vocabulary of the properties *)

Definition at_least (a b : string * nat) : Prop := snd b <= snd a.

(** The entries with the count [c], in the order of the list. *)
Definition with_count (c : nat) (l : Table.t) : Table.t :=
  filter (fun kv => (snd kv =? c)%nat) l.

(** The [FileType] lines of a console, in order. *)
Fixpoint file_type_lines (ls : list line) : Table.t :=
  match ls with
  | [] => []
  | FileType ext n :: ls' => (ext, n) :: file_type_lines ls'
  | _ :: ls' => file_type_lines ls'
  end.

(** ** Reasoning about scripts

    [wp m Q w]: running [m] in the world [w] ends in a way that [Q] accepts,
    with one condition for each way a statement can end. *)

Record post (A : Type) := Post {
  on_return : A -> world -> Prop;
  on_throw : error -> world -> Prop;
  on_exit : nat -> world -> Prop
}.
Arguments Post {A} _ _ _.
Arguments on_return {A} _ _ _.
Arguments on_throw {A} _ _ _.
Arguments on_exit {A} _ _ _.

Definition holds {A} (Q : post A) (r : completion A * world) : Prop :=
  match r with
  | (Return a, w) => on_return Q a w
  | (Throw e, w) => on_throw Q e w
  | (Exit n, w) => on_exit Q n w
  end.

Definition wp {A} (m : M A) (Q : post A) (w : world) : Prop := holds Q (m w).

(** The numbers of the [ContentsDirectories] lines of a console. *)
Fixpoint directories_lines (ls : list line) : list nat :=
  match ls with
  | [] => []
  | ContentsDirectories n :: ls' => n :: directories_lines ls'
  | _ :: ls' => directories_lines ls'
  end.

Definition add_lines (ls : list line) (w : world) : world :=
  {| root := root w; console := console w ++ ls;
     ticks := ticks w; calls := calls w |}.



(** ** Worlds and archives of the examples *)

Definition text (s : string) : bytes := list_byte_of_string s.

(** A working directory [/w] that holds the archive [in.zip]; [/etc/passwd]
    is a file outside of it. *)
Definition example_fs : Fs.node :=
  Fs.Dir [("etc", Fs.Dir [("passwd", Fs.File (text "root:x:0:0"))]);
          ("w", Fs.Dir [("in.zip", Fs.File (text "PK"))])].

Definition example_cwd : Fs.abspath := ["w"].

(** A clock that advances by a quarter of a second at each reading. *)
Definition example_clock (n : nat) : Z := (1000 + 250 * Z.of_nat n)%Z.

Definition member (name : string) : JSZip.zipObject :=
  {| JSZip.filePath := name; JSZip.dir := false;
     JSZip.nodebuffer := Ok (text name) |}.

(** Three [.txt] files, one [.png] and three [.md], met in this order. *)
Definition seven_members : list JSZip.zipObject :=
  map member ["a.txt"; "b.png"; "c.md"; "d.txt"; "e.txt"; "f.md"; "g.md"].

(** ** Attempts of the node:zlib chain

    An attempt is one [try] block: it succeeds when the decompressor returns
    data and the output file takes it. *)
Definition attempt_result (cwd : Fs.abspath) (outputFile : string)
    (decompress : bytes -> result bytes) (data : bytes) (fs : Fs.node)
  : result (bytes * Fs.node) :=
  match decompress data with
  | Ok d =>
      match Fs.writeFileSync cwd fs outputFile d with
      | Ok fs' => Ok (d, fs')
      | Err e => Err e
      end
  | Err e => Err e
  end.




Definition zlib_hello : bytes :=
  [Byte.x78; Byte.x01; Byte.x01; Byte.x05; Byte.x00; Byte.xfa; Byte.xff; Byte.x68; Byte.x65; Byte.x6c; Byte.x6c; Byte.x6f;
   Byte.x06; Byte.x2c; Byte.x02; Byte.x15].




(** An archive with one stored entry, [a.txt] with the data ["hello"], whose
    headers declare 5 bytes as its compressed size and 10 bytes as its
    uncompressed size: local header, data, central directory header at
    offset 40, end of central directory record. *)
Definition zip_declaring_10 : bytes :=
  [ Byte.x50; Byte.x4b; Byte.x03; Byte.x04; Byte.x0a; Byte.x00; Byte.x00; Byte.x00;
    Byte.x00; Byte.x00; Byte.x00; Byte.x00; Byte.x00; Byte.x00;
    Byte.x86; Byte.xa6; Byte.x10; Byte.x36;
    Byte.x05; Byte.x00; Byte.x00; Byte.x00; Byte.x0a; Byte.x00; Byte.x00; Byte.x00;
    Byte.x05; Byte.x00; Byte.x00; Byte.x00;
    Byte.x61; Byte.x2e; Byte.x74; Byte.x78; Byte.x74;
    Byte.x68; Byte.x65; Byte.x6c; Byte.x6c; Byte.x6f;
    Byte.x50; Byte.x4b; Byte.x01; Byte.x02; Byte.x14; Byte.x00; Byte.x0a; Byte.x00;
    Byte.x00; Byte.x00; Byte.x00; Byte.x00; Byte.x00; Byte.x00; Byte.x00; Byte.x00;
    Byte.x86; Byte.xa6; Byte.x10; Byte.x36;
    Byte.x05; Byte.x00; Byte.x00; Byte.x00; Byte.x0a; Byte.x00; Byte.x00; Byte.x00;
    Byte.x05; Byte.x00; Byte.x00; Byte.x00; Byte.x00; Byte.x00; Byte.x00; Byte.x00;
    Byte.x00; Byte.x00; Byte.x00; Byte.x00; Byte.x00; Byte.x00;
    Byte.x00; Byte.x00; Byte.x00; Byte.x00;
    Byte.x61; Byte.x2e; Byte.x74; Byte.x78; Byte.x74;
    Byte.x50; Byte.x4b; Byte.x05; Byte.x06; Byte.x00; Byte.x00; Byte.x00; Byte.x00;
    Byte.x01; Byte.x00; Byte.x01; Byte.x00;
    Byte.x33; Byte.x00; Byte.x00; Byte.x00; Byte.x28; Byte.x00; Byte.x00; Byte.x00;
    Byte.x00; Byte.x00 ].


Definition fs_with_input (data : bytes) : Fs.node :=
  Fs.Dir [("w", Fs.Dir [("in.z", Fs.File data); ("out", Fs.Dir [])])].


(** The throughput figures of a console: the speeds of the progress lines and
    of the summary. *)
Fixpoint speed_lines (ls : list line) : list size_text :=
  match ls with
  | [] => []
  | ExtractedEntry _ _ _ _ _ speed :: ls' => speed :: speed_lines ls'
  | AverageSpeed speed :: ls' => speed :: speed_lines ls'
  | Processed _ speed :: ls' => speed :: speed_lines ls'
  | _ :: ls' => speed_lines ls'
  end.

Definition one_text_file : list Minizip.entry :=
  [{| Minizip.path := "a.txt"; Minizip.isDirectory := false;
      Minizip.extractEntry := Ok (text "hello") |}].

(** ** Entries of an unzipped archive *)





(** ** Storing the entries of an archive, as a function of the file system *)

(** Storing one entry: its parent directory is created when it is missing,
    its data is obtained, its file is written.  The result is the file
    system that is left and the first failure, if any. *)
Definition store (cwd : Fs.abspath) (outputDir name : string)
    (content : result bytes) (fs : Fs.node) : Fs.node * option error :=
  let outputPath := Path.join outputDir name in
  let outputDirPath := Path.dirname outputPath in
  match (if Fs.existsSync cwd fs outputDirPath then Ok fs
         else Fs.mkdirSync cwd fs outputDirPath) with
  | Err e => (fs, Some e)
  | Ok fs1 =>
      match content with
      | Err e => (fs1, Some e)
      | Ok data =>
          match Fs.writeFileSync cwd fs1 outputPath data with
          | Err e => (fs1, Some e)
          | Ok fs2 => (fs2, None)
          end
      end
  end.

(** An entry: its path, whether it is a directory, and its data or the
    failure to obtain it. *)
Definition item : Type := string * bool * result bytes.

(** Every entry is tried, each in the file system that the entries before it
    left; the failures are listed with the path and the reason. *)
Fixpoint store_each (cwd : Fs.abspath) (outputDir : string)
    (items : list item) (fs : Fs.node) : list (string * error) * Fs.node :=
  match items with
  | [] => ([], fs)
  | (name, isDirectory, content) :: rest =>
      if isDirectory then store_each cwd outputDir rest fs
      else
        let '(fs', failure) := store cwd outputDir name content fs in
        let '(failures, fs'') := store_each cwd outputDir rest fs' in
        (match failure with
         | Some e => (name, e) :: failures
         | None => failures
         end, fs'')
  end.


Definition minizip_item (e : Minizip.entry) : item :=
  (Minizip.path e, Minizip.isDirectory e, Minizip.extractEntry e).

Definition jszip_item (z : JSZip.zipObject) : item :=
  (JSZip.filePath z, JSZip.dir z, JSZip.nodebuffer z).

(** The [EntryError] lines of a console: path and reason. *)
Fixpoint entry_errors (ls : list line) : list (string * error) :=
  match ls with
  | [] => []
  | EntryError p e :: ls' => (p, e) :: entry_errors ls'
  | _ :: ls' => entry_errors ls'
  end.

(** The [ErrorDuring] lines of a console. *)
Fixpoint fatal_errors (ls : list line) : list error :=
  match ls with
  | [] => []
  | ErrorDuring e :: ls' => e :: fatal_errors ls'
  | _ :: ls' => fatal_errors ls'
  end.

(** An archive with an entry for the directory [docs/] before the file in
    it. *)
Definition archive_with_directory : list (string * bytes) :=
  [("docs/", []); ("docs/a.txt", text "hello")].



(** An archive whose second entry cannot be extracted. *)
Definition archive_with_bad_entry : list Minizip.entry :=
  [ {| Minizip.path := "a.txt"; Minizip.isDirectory := false;
       Minizip.extractEntry := Ok (text "hello") |};
    {| Minizip.path := "b.bin"; Minizip.isDirectory := false;
       Minizip.extractEntry := Err (LibError "invalid compressed data") |};
    {| Minizip.path := "c.txt"; Minizip.isDirectory := false;
       Minizip.extractEntry := Ok (text "world") |} ].

(** The example file system with the output directory [/w/out] in place. *)
Definition example_fs_out : Fs.node :=
  Fs.Dir [("etc", Fs.Dir [("passwd", Fs.File (text "root:x:0:0"))]);
          ("w", Fs.Dir [("in.zip", Fs.File (text "PK")); ("out", Fs.Dir [])])].

(** ** Counting files by bucket *)

(** How many of the names fall into the bucket [k]. *)
Definition count_bucket (k : string) (names : list string) : nat :=
  List.length (filter (fun name => String.eqb (bucket name) k) names).

(** The names of the regular files in a directory and below it, in the order
    of the listing. *)
Fixpoint file_names (dir : Fs.node) : list string :=
  match dir with
  | Fs.File _ => []
  | Fs.Dir entries =>
      (fix go (es : list (string * Fs.node)) : list string :=
         match es with
         | [] => []
         | (name, child) :: es' =>
             match child with
             | Fs.Dir _ => file_names child ++ go es'
             | Fs.File _ => name :: go es'
             end
         end) entries
  end.

(** The table that counting the names one by one builds: each name adds one
    to the bucket of its extension, and a bucket that the table does not
    have yet is put after the others. *)
Definition tally_of (names : list string) : Table.t :=
  fold_left (fun t name => Table.add (bucket name) 1 t) names [].

(** An archive whose first entry comes second by name. *)
Definition two_extensions : list (string * bytes) :=
  [("b.txt", text "hello"); ("a.md", text "world")].

(** The paths of the entries that are stored without failure. *)
Fixpoint extracted (cwd : Fs.abspath) (outputDir : string)
    (items : list item) (fs : Fs.node) : list string :=
  match items with
  | [] => []
  | (name, isDirectory, content) :: rest =>
      if isDirectory then extracted cwd outputDir rest fs
      else
        match store cwd outputDir name content fs with
        | (fs', None) => name :: extracted cwd outputDir rest fs'
        | (fs', Some _) => extracted cwd outputDir rest fs'
        end
  end.

(** The sum of the counts that a table lists for the key [k]. *)
Definition weight (k : string) (t : Table.t) : nat :=
  list_sum (map snd (filter (fun kv => String.eqb (fst kv) k) t)).

(** No file disappears: the files of [fs] are files of [fs'] too. *)
Definition files_kept (fs fs' : Fs.node) : Prop :=
  forall q d, Fs.read_file fs q = Some d -> exists d', Fs.read_file fs' q = Some d'.

(** The output directory [/w/out] holds the file [old.log] before the
    extraction starts. *)
Definition fs_with_old_file : Fs.node :=
  Fs.Dir [("w", Fs.Dir [("in.zip", Fs.File (text "PK"));
                        ("out", Fs.Dir [("old.log", Fs.File (text "yesterday"))])])].

Definition one_file : list (string * bytes) := [("a.txt", text "hello")].

(** ** Entry paths *)

(** No segment of the path is [".."]. *)
Definition no_dotdot (p : string) : bool :=
  forallb (fun seg => negb (String.eqb seg "..")) (Str.split Str.slash p).

(** A segment that [normalizeString] keeps as a name: not empty, not ["."],
    not [".."]. *)
Definition is_name (seg : string) : bool :=
  negb (String.eqb seg "" || String.eqb seg "." || String.eqb seg "..").

(** The files outside the directory [rootp] are the same in [fs] and [fs']. *)
Definition same_outside (rootp : Fs.abspath) (fs fs' : Fs.node) : Prop :=
  forall q, Fs.under rootp q = false -> Fs.read_file fs' q = Fs.read_file fs q.

(** What the stack holds: names, and [".."] where the path may rise above
    its start. *)
Definition stack_ok (res : list string) : Prop :=
  Forall (fun seg => String.eqb seg "" || String.eqb seg "." = false) res.

(** An archive whose entry climbs out of the output directory, and one whose
    entry has a rooted name. *)
Definition traversal_archive : list (string * bytes) :=
  [("../../etc/passwd", text "evil::0:0")].

Definition rooted_archive : list (string * bytes) :=
  [("/etc/shadow", text "secret")].

(** ** Library calls that work on the file system *)

(** A number in a console line, in decimal. *)
Definition nat_text (n : nat) : string :=
  NilEmpty.string_of_uint (Nat.to_uint n).

(** A call of the library function [name] that reads or writes the file
    system itself: the file system it leaves, also when it fails, and its
    result. *)
Definition call_fs_library {A} (name : string)
    (f : Fs.node -> Fs.node * result A) : M A :=
  fun w =>
    let '(r, res) := f (root w) in
    lift res (add_call name (set_root r w)).

(** The same for a library function that takes a callback of the script:
    the library also says for which items it called it, and [callback] is the
    line that the script prints for an item. *)
Definition call_fs_library_with {A B} (name : string) (callback : B -> line)
    (f : Fs.node -> list B * Fs.node * result A) : M A :=
  fun w =>
    let '(seen, r, res) := f (root w) in
    lift res (add_call name (add_lines (map callback seen) (set_root r w))).

(** [path.resolve(p)]: the absolute path of [p], as text. *)
Definition path_resolve (cwd : Fs.abspath) (p : string) : string :=
  ("/" ++ String.concat "/" (Fs.resolve cwd p))%string.

(** ** The extract-zip sample ([src/unnamed/part_003]) *)

Module ExtractZip.

(** [getDirectorySize] on a directory of the tree: the sizes of the regular
    files, and of the subdirectories by the recursive call. *)
Fixpoint directory_size (dir : Fs.node) : nat :=
  match dir with
  | Fs.File _ => 0
  | Fs.Dir files =>
      (fix go (fs : list (string * Fs.node)) (size : nat) : nat :=
         match fs with
         | [] => size
         | (name, file) :: fs' =>
             go fs' (size + match file with
                            | Fs.Dir _ => directory_size file
                            | Fs.File data => List.length data
                            end)
         end) files 0
  end.

Record tally := {
  files : nat;
  directories : nat
}.

(** [countFiles] on a directory of the tree. *)
Fixpoint count_of_dir (dir : Fs.node) : tally :=
  match dir with
  | Fs.File _ => {| files := 0; directories := 0 |}
  | Fs.Dir entries =>
      (fix go (es : list (string * Fs.node)) (count : tally) : tally :=
         match es with
         | [] => count
         | (name, child) :: es' =>
             go es' (match child with
                     | Fs.Dir _ =>
                         let subCount := count_of_dir child in
                         {| files := files count + files subCount;
                            directories :=
                              directories count + 1 + directories subCount |}
                     | Fs.File _ =>
                         {| files := files count + 1;
                            directories := directories count |}
                     end)
         end) entries {| files := 0; directories := 0 |}
  end.

(** What a completed extraction prints in its summary. *)
Record summary := {
  inputSize : nat;
  extractedSize : nat;
  counts : tally;
  totalTime : jsnum;
  fileTypes : Table.t
}.

Section Sample.
Variable cwd : Fs.abspath.
Variable clock : nat -> Z.
(** [extract(inputFile, { dir, onEntry })]: the names of the entries for
    which the library calls [onEntry], the file system it leaves, and whether
    it fails *)
Variable extract : string -> string -> Fs.node -> list string * Fs.node * result unit.
Variables inputFile outputDir : string.

Definition getDirectorySize (dirPath : string) : M nat :=
  files <- fs_get (fun r => Fs.readdir cwd r dirPath) ;;
  ret (directory_size (Fs.Dir files)).

Definition countFiles (dirPath : string) : M tally :=
  entries <- fs_get (fun r => Fs.readdir cwd r dirPath) ;;
  ret (count_of_dir (Fs.Dir entries)).

(** The same function as in [fflate.ts]. *)
Definition getFileTypeStats (dirPath : string) : M Table.t :=
  entries <- fs_get (fun r => Fs.readdir cwd r dirPath) ;;
  ret (Fflate.stats_of_dir (Fs.Dir entries)).

(** Lines 159-173: the [catch] of the whole extraction. *)
Definition on_error {A} (err : error) : M A :=
  print (ErrorDuring err) ;;;
  (if includes (message err) "invalid" || includes (message err) "not a"
   then print (Note "This might be due to: 1. Corrupted ZIP file 2. Unsupported ZIP format 3. Password-protected ZIP")
   else ret tt) ;;;
  process_exit 1.

(** Lines 96-174. *)
Definition extractZipFile : M summary :=
  try_catch
    (present <- fs_read (fun r => Fs.existsSync cwd r inputFile) ;;
     (if present then ret tt
      else print (InputMissing inputFile) ;;; process_exit 1) ;;;
     inputSize <- fs_get (fun r => Fs.stat_size cwd r inputFile) ;;
     print (InputSize (formatSize (of_nat inputSize))) ;;;
     out_present <- fs_read (fun r => Fs.existsSync cwd r outputDir) ;;
     (if out_present then ret tt
      else fs_update (fun r => Fs.mkdirSync cwd r outputDir) ;;;
           print (CreatedDirectory outputDir)) ;;;
     print (ExtractingTo inputFile outputDir) ;;;
     startTime <- Date_now clock ;;
     call_fs_library_with "extract"
       (fun fileName => Note ("Extracting: " ++ fileName))
       (extract inputFile (path_resolve cwd outputDir)) ;;;
     endTime <- Date_now clock ;;
     let totalTime := JsNum.div (of_Z (endTime - startTime)) (of_Z 1000) in
     print (Note "Gathering statistics...") ;;;
     extractedSize <- getDirectorySize outputDir ;;
     counts <- countFiles outputDir ;;
     fileTypes <- getFileTypeStats outputDir ;;
     print (Note "Extraction completed successfully!") ;;;
     print (TimeTaken totalTime) ;;;
     print (InputSize (formatSize (of_nat inputSize))) ;;;
     print (ExtractedSize (formatSize (of_nat extractedSize))) ;;;
     print (CompressionRatio
              (JsNum.div (of_nat extractedSize) (of_nat inputSize))) ;;;
     print (AverageSpeed
              (formatSize (JsNum.div (of_nat extractedSize) totalTime))) ;;;
     print (Note "Contents:") ;;;
     print (ContentsFiles (files counts)) ;;;
     print (ContentsDirectories (directories counts)) ;;;
     print (Note "File types:") ;;;
     for_each (fun _ kv => print (FileType (fst kv) (snd kv)))
              (Table.sort fileTypes) tt ;;;
     ret {| inputSize := inputSize;
            extractedSize := extractedSize;
            counts := counts;
            totalTime := totalTime;
            fileTypes := Table.sort fileTypes |})
    on_error.

End Sample.

End ExtractZip.

(** ** The decompress sample ([src/unnamed/part_001], first script) *)

Module Decompress.

(** A file of the array that [decompress] resolves to. *)
Record file := {
  path : string;
  data : bytes
}.

Record summary := {
  total : nat;
  fileTypes : Table.t
}.

(** Lines 63-67: [files.reduce((acc, file) => ..., {})] *)
Definition group (files : list file) : Table.t :=
  fold_left (fun acc file => Table.add (bucket (path file)) 1 acc) files [].

Section Sample.
Variable cwd : Fs.abspath.
(** [decompress(inputFile, outputDir, { filter, map })]: the paths of the
    files for which the library calls [filter], the file system it leaves,
    and the files it resolves to or its exception *)
Variable decompress :
  string -> string -> Fs.node -> list string * Fs.node * result (list file).
Variables inputFile outputDir : string.

Definition on_error {A} (err : error) : M A :=
  print (ErrorDuring err) ;;;
  (if includes (message err) "not a valid"
   then print (Note "This might be due to: 1. Unsupported compression format 2. Corrupted archive file 3. Password-protected archive")
   else ret tt) ;;;
  process_exit 1.

(** Lines 40-91. *)
Definition extractArchive : M summary :=
  try_catch
    (print (ExtractingTo inputFile outputDir) ;;;
     files <- call_fs_library_with "decompress"
                (fun path => Note ("Processing: " ++ path))
                (decompress inputFile outputDir) ;;
     print (Note "Extraction completed successfully!") ;;;
     print (Note ("Total files extracted: " ++ nat_text (List.length files))) ;;;
     let fileTypes := group files in
     print (Note "File types extracted:") ;;;
     for_each (fun _ kv => print (FileType (fst kv) (snd kv)))
              (Table.sort fileTypes) tt ;;;
     ret {| total := List.length files;
            fileTypes := Table.sort fileTypes |})
    on_error.

Definition main : M summary :=
  check_arguments cwd inputFile outputDir ;;; extractArchive.

End Sample.

End Decompress.

(** The sum of the counts of a table. *)
Definition table_total (t : Table.t) : nat := list_sum (map snd t).

(** A library that puts one file into the output directory. *)
Definition one_file_library {A} (name : string) (a : A)
    (fs : Fs.node) : list string * Fs.node * result A :=
  match Fs.writeFileSync example_cwd fs ("out/" ++ name) (text "hello") with
  | Ok fs' => ([name], fs', Ok a)
  | Err e => ([], fs, Err e)
  end.

(** ** The zip.js sample ([src/unnamed/part_001], second script) *)

Module ZipJs.

(** An entry of [zipReader.getEntries()]; [getData] is an optional method,
    given here by what it yields when it is there. *)
Record entry := {
  filename : string;
  directory : bool;
  getData : option (result bytes)
}.

Section Sample.
Variable cwd : Fs.abspath.
(** [new ZipReader(...).getEntries()] on the data of the archive *)
Variable getEntries : bytes -> result (list entry).
(** [zipReader.close()] *)
Variable close : result unit.
Variables inputFile outputDir : string.

(** Lines 148-164: the body of the loop; there is no [try] around it. *)
Definition extract_entry (_ : unit) (entry : entry) : M unit :=
  match directory entry, getData entry with
  | false, Some data =>
      let outputPath := Path.join outputDir (filename entry) in
      let outputDirPath := Path.dirname outputPath in
      present <- fs_read (fun r => Fs.existsSync cwd r outputDirPath) ;;
      (if present then ret tt
       else fs_update (fun r => Fs.mkdirSync cwd r outputDirPath)) ;;;
      buffer <- call_library "getData" data ;;
      fs_update (fun r => Fs.writeFileSync cwd r outputPath buffer) ;;;
      print (Note ("Extracted: " ++ filename entry))
  | _, _ => ret tt
  end.

(** Lines 132-172. *)
Definition extractZip : M unit :=
  try_catch
    (print (ExtractingTo inputFile outputDir) ;;;
     zipData <- fs_get (fun r => Fs.readFileSync cwd r inputFile) ;;
     entries <- call_library "getEntries" (getEntries zipData) ;;
     print (Note ("Found " ++ nat_text (List.length entries)
                  ++ " entries in the ZIP file.")) ;;;
     for_each extract_entry entries tt ;;;
     call_library "close" close ;;;
     print (Note "Extraction completed successfully."))
    (fun err => print (ErrorDuring err) ;;; process_exit 1).

Definition main : M unit :=
  check_arguments cwd inputFile outputDir ;;; extractZip.

End Sample.

End ZipJs.

(** ** [adm-zip.ts] *)

Module AdmZip.

Record entry := {
  entryName : string;
  isDirectory : bool
}.

Section Sample.
Variable cwd : Fs.abspath.
(** The archive object of the library. *)
Variable archive : Type.
(** [new AdmZip(inputFile)]: the library reads the file itself *)
Variable open : string -> Fs.node -> result archive.
(** [zip.getEntries()] *)
Variable getEntries : archive -> list entry.
(** [zip.extractAllTo(targetPath, true)]: the file system that the call
    leaves, also when it fails *)
Variable extractAllTo : archive -> string -> Fs.node -> Fs.node * result unit.
(** [zip.extractEntryTo(entryName, targetPath, false, true)] *)
Variable extractEntryTo :
  archive -> string -> string -> Fs.node -> Fs.node * result bool.
Variables inputFile outputDir : string.

(** Lines 62-76: the body of the loop of the second method. *)
Definition extract_entry (zip : archive) (_ : unit) (entry : entry) : M unit :=
  if isDirectory entry then ret tt
  else
    let outputPath := Path.join outputDir (entryName entry) in
    let outputDirPath := Path.dirname outputPath in
    present <- fs_read (fun r => Fs.existsSync cwd r outputDirPath) ;;
    (if present then ret tt
     else fs_update (fun r => Fs.mkdirSync cwd r outputDirPath)) ;;;
    call_fs_library "extractEntryTo"
      (extractEntryTo zip (entryName entry) outputDirPath) ;;;
    print (Note ("Extracted: " ++ entryName entry)).

(** Lines 39-87.  A [return] inside the first [try] ends the function: the
    first block says whether it got there. *)
Definition extractZip : M unit :=
  try_catch
    (print (ExtractingTo inputFile outputDir) ;;;
     zip <- call_fs_library "AdmZip" (fun r => (r, open inputFile r)) ;;
     let zipEntries := getEntries zip in
     print (FoundEntries (List.length zipEntries)) ;;;
     finished <-
       try_catch
         (call_fs_library "extractAllTo" (extractAllTo zip outputDir) ;;;
          print (Note "Successfully extracted all files using bulk extraction") ;;;
          ret true)
         (fun _ =>
            print (Note "Bulk extraction failed, trying individual file extraction...") ;;;
            ret false) ;;
     if finished then ret tt
     else
       try_catch
         (for_each (extract_entry zip) zipEntries tt ;;;
          print (Note "Successfully extracted all files individually"))
         (fun error =>
            print (Note "Individual file extraction failed") ;;;
            throw error))
    (fun err => print (ErrorDuring err) ;;; process_exit 1).

Definition main : M unit :=
  check_arguments cwd inputFile outputDir ;;; extractZip.

End Sample.

End AdmZip.

(** ** [unzipperjs.ts] *)

Module Unzipper.

(** A file of [directory.files]: its path, and what piping its stream into
    a write stream for a path does to the file system. *)
Record file := {
  path : string;
  pipe_to : string -> Fs.node -> Fs.node * result unit
}.

Section Sample.
Variable cwd : Fs.abspath.
(** [(await unzipper.Open.file(inputFile)).files] *)
Variable open : string -> Fs.node -> result (list file).
(** [pipelineAsync(fs.createReadStream(inputFile), unzipper.Extract({ path }))] *)
Variable Extract : string -> string -> Fs.node -> Fs.node * result unit.
Variables inputFile outputDir : string.

(** Lines 69-84: the body of the loop of the second method; every file of
    the directory listing is piped, whatever its type. *)
Definition extract_file (_ : unit) (file : file) : M unit :=
  let outputPath := Path.join outputDir (path file) in
  let outputDirPath := Path.dirname outputPath in
  present <- fs_read (fun r => Fs.existsSync cwd r outputDirPath) ;;
  (if present then ret tt
   else fs_update (fun r => Fs.mkdirSync cwd r outputDirPath)) ;;;
  call_fs_library "pipeline" (pipe_to file outputPath) ;;;
  print (Note ("Extracted: " ++ path file)).

(** Lines 43-95. *)
Definition extractZip : M unit :=
  try_catch
    (print (ExtractingTo inputFile outputDir) ;;;
     files <- call_fs_library "Open.file" (fun r => (r, open inputFile r)) ;;
     print (Note ("Found " ++ nat_text (List.length files)
                  ++ " files in the ZIP archive")) ;;;
     finished <-
       try_catch
         (call_fs_library "Extract" (Extract inputFile outputDir) ;;;
          print (Note "Successfully extracted all files using direct extraction") ;;;
          ret true)
         (fun _ =>
            print (Note "Direct extraction failed, trying individual file extraction...") ;;;
            ret false) ;;
     if finished then ret tt
     else
       try_catch
         (for_each extract_file files tt ;;;
          print (Note "Successfully extracted all files individually"))
         (fun error =>
            print (Note "Individual file extraction failed") ;;;
            throw error))
    (fun err => print (ErrorDuring err) ;;; process_exit 1).

Definition main : M unit :=
  check_arguments cwd inputFile outputDir ;;; extractZip.

End Sample.

End Unzipper.

(** ** Entries stored until one fails *)

(** The entries that are not directories are stored in turn, each in the
    file system that the entries before it left, until one fails. *)
Fixpoint store_items_until_failure (cwd : Fs.abspath) (outputDir : string)
    (items : list item) (fs : Fs.node) : Fs.node * option error :=
  match items with
  | [] => (fs, None)
  | (name, isDirectory, content) :: rest =>
      if isDirectory then store_items_until_failure cwd outputDir rest fs
      else
        match store cwd outputDir name content fs with
        | (fs', None) => store_items_until_failure cwd outputDir rest fs'
        | (fs', Some e) => (fs', Some e)
        end
  end.

(** An entry of the zip.js sample is passed over when it is a directory or
    has no [getData]. *)
Definition zipjs_item (e : ZipJs.entry) : item :=
  match ZipJs.getData e with
  | Some data => (ZipJs.filename e, ZipJs.directory e, data)
  | None => (ZipJs.filename e, true, Ok [])
  end.

(** The entries that the second method of [adm-zip.ts] extracts. *)
Definition admzip_files (entries : list AdmZip.entry) : list AdmZip.entry :=
  filter (fun e => negb (AdmZip.isDirectory e)) entries.

(** An archive library for the examples: the archive is the list of its
    entries with their data, extracting everything at once fails, and
    extracting one entry writes its data under its last name into the target
    directory. *)
Definition example_entries (zip : list (string * bytes)) : list AdmZip.entry :=
  map (fun e => {| AdmZip.entryName := fst e;
                   AdmZip.isDirectory := Str.ends_with Str.slash (fst e) |}) zip.

Definition example_extractAllTo (zip : list (string * bytes)) (targetPath : string)
    (fs : Fs.node) : Fs.node * result unit :=
  (fs, Err (LibError "bulk extraction is not available")).

Definition example_write (data : bytes) (targetPath : string) (fs : Fs.node)
  : Fs.node * result unit :=
  match Fs.writeFileSync example_cwd fs targetPath data with
  | Ok fs' => (fs', Ok tt)
  | Err e => (fs, Err e)
  end.

Definition example_extractEntryTo (zip : list (string * bytes))
    (entryName targetPath : string) (fs : Fs.node) : Fs.node * result bool :=
  match find (fun e => String.eqb (fst e) entryName) zip with
  | Some (name, data) =>
      match example_write data
              (Path.join targetPath (List.last (Str.split Str.slash name) "")) fs with
      | (fs', Ok _) => (fs', Ok true)
      | (fs', Err e) => (fs', Err e)
      end
  | None => (fs, Ok false)
  end.

Definition example_unzipper_files : list Unzipper.file :=
  [ {| Unzipper.path := "docs/"; Unzipper.pipe_to := example_write [] |};
    {| Unzipper.path := "docs/a.txt";
       Unzipper.pipe_to := example_write (text "hello") |} ].

(** The second method of [adm-zip.ts] and of [unzipperjs.ts] as a function
    of the file system.  An item is the path of an entry and what the
    library does for it, given the path of its parent directory and its
    output path: the file system that it leaves and its failure. *)
Definition library_item : Type :=
  string * (string -> string -> Fs.node -> Fs.node * option error).

(** The items are extracted in turn until one fails: for each, the parent
    directory is created when it is missing, then the library is called.
    The result is the file system that is left, the number of calls of the
    library, and the first failure. *)
Fixpoint extract_until_failure (cwd : Fs.abspath) (outputDir : string)
    (items : list library_item) (fs : Fs.node) : Fs.node * nat * option error :=
  match items with
  | [] => (fs, 0, None)
  | (name, extract) :: rest =>
      let outputPath := Path.join outputDir name in
      let outputDirPath := Path.dirname outputPath in
      match (if Fs.existsSync cwd fs outputDirPath then Ok fs
             else Fs.mkdirSync cwd fs outputDirPath) with
      | Err e => (fs, 0, Some e)
      | Ok fs1 =>
          match extract outputDirPath outputPath fs1 with
          | (fs2, Some e) => (fs2, 1, Some e)
          | (fs2, None) =>
              let '(fs3, k, failure) :=
                extract_until_failure cwd outputDir rest fs2 in
              (fs3, S k, failure)
          end
      end
  end.

Definition failure_of {A} (r : Fs.node * result A) : Fs.node * option error :=
  match r with
  | (fs, Ok _) => (fs, None)
  | (fs, Err e) => (fs, Some e)
  end.

(** The items of the two samples: the entries of the archive that are not
    directories, every file of the listing. *)
Definition admzip_items {archive : Type}
    (extractEntryTo : archive -> string -> string -> Fs.node -> Fs.node * result bool)
    (zip : archive) (entries : list AdmZip.entry) : list library_item :=
  map (fun e => (AdmZip.entryName e,
                 fun outputDirPath (_ : string) fs =>
                   failure_of (extractEntryTo zip (AdmZip.entryName e)
                                 outputDirPath fs)))
      (admzip_files entries).

Definition unzipper_items (files : list Unzipper.file) : list library_item :=
  map (fun f => (Unzipper.path f,
                 fun (_ : string) outputPath fs =>
                   failure_of (Unzipper.pipe_to f outputPath fs)))
      files.

(** The number of progress lines of the minizlib sample on a console. *)
Fixpoint processed_lines (ls : list line) : nat :=
  match ls with
  | [] => 0
  | Processed _ _ :: ls' => S (processed_lines ls')
  | _ :: ls' => processed_lines ls'
  end.

(** The result of a library call, with [f] applied to what it yields. *)
Definition result_map {A B} (f : A -> B) (r : result A) : result B :=
  match r with
  | Ok a => Ok (f a)
  | Err e => Err e
  end.

(** An archive without its directory entries. *)
Definition minizip_files (entries : list Minizip.entry) : list Minizip.entry :=
  filter (fun e => negb (Minizip.isDirectory e)) entries.

Definition jszip_files (files : list JSZip.zipObject) : list JSZip.zipObject :=
  filter (fun z => negb (JSZip.dir z)) files.

(** An archive with two directories, a file and a member that cannot be
    read. *)
Definition members_with_directories : list JSZip.zipObject :=
  [ {| JSZip.filePath := "docs/"; JSZip.dir := true; JSZip.nodebuffer := Ok [] |};
    member "docs/a.txt";
    {| JSZip.filePath := "empty/"; JSZip.dir := true; JSZip.nodebuffer := Ok [] |};
    {| JSZip.filePath := "b.bin"; JSZip.dir := false;
       JSZip.nodebuffer := Err (LibError "corrupted data") |} ].

(** Every regular file of [fs] is a regular file of [fs'], with its old data
    or with data of which [written] holds. *)
Definition files_kept_or (written : bytes -> Prop) (fs fs' : Fs.node) : Prop :=
  forall q d, Fs.read_file fs q = Some d ->
    exists d', Fs.read_file fs' q = Some d' /\ (d' = d \/ written d').

(** A script that removes no file, however it ends, and puts into a file
    that is there only data of which [written] holds. *)
Definition keeps_files_or {A} (written : bytes -> Prop) (m : M A) : Prop :=
  forall w, files_kept_or written (root w) (root (snd (m w))).

(** The percentages of the progress lines of a console. *)
Fixpoint percent_lines (ls : list line) : list jsnum :=
  match ls with
  | [] => []
  | ExtractedEntry percent _ _ _ _ _ :: ls' => percent :: percent_lines ls'
  | ExtractedFile percent _ _ _ _ :: ls' => percent :: percent_lines ls'
  | _ :: ls' => percent_lines ls'
  end.

(** A whole number from 0 to 100. *)
Definition is_percent (v : jsnum) : Prop :=
  exists z : Z, v = Fin (inject_Z z) /\ (0 <= z <= 100)%Z.

(** The hint that the fflate and extract-zip samples print after an error
    whose message contains "invalid" or "not a". *)
Definition zip_hint : line :=
  Note "This might be due to: 1. Corrupted ZIP file 2. Unsupported ZIP format 3. Password-protected ZIP".

(** The output path [/w/out] is a regular file. *)
Definition fs_with_file_as_output : Fs.node :=
  Fs.Dir [("w", Fs.Dir [("in.zip", Fs.File (text "PK"));
                        ("out", Fs.File (text "not a directory"))])].

(** The input path [/w/invalid.zip] is a directory. *)
Definition fs_with_directory_as_input : Fs.node :=
  Fs.Dir [("w", Fs.Dir [("invalid.zip", Fs.Dir []); ("out", Fs.Dir [])])].

(** The size that [getDirectorySize] adds for an entry of a directory. *)
Definition node_size (n : Fs.node) : nat :=
  match n with
  | Fs.File data => List.length data
  | Fs.Dir _ => ExtractZip.directory_size n
  end.

(** The size of the regular file at [q]; 0 when there is none. *)
Definition size_at (fs : Fs.node) (q : Fs.abspath) : nat :=
  match Fs.read_file fs q with
  | Some data => List.length data
  | None => 0
  end.


(** * Properties *)

(** ** The summary order *)

Section SummaryOrder.

Lemma insert_perm : forall x l, Permutation (Table.insert x l) (x :: l).
Proof.
  intros x l; induction l as [|y l IH]; simpl.
  - apply Permutation_refl.
  - destruct (Table.comparator x y <=? 0)%Z.
    + apply Permutation_refl.
    + eapply perm_trans; [apply perm_skip, IH | apply perm_swap].
Qed.

Lemma sort_perm : forall l, Permutation (Table.sort l) l.
Proof.
  induction l as [|x l IH]; simpl.
  - constructor.
  - eapply perm_trans; [apply insert_perm | apply perm_skip, IH].
Qed.

Lemma comparator_le : forall x y,
  (Table.comparator x y <=? 0)%Z = (snd y <=? snd x)%nat.
Proof.
  intros x y; unfold Table.comparator.
  destruct (snd y <=? snd x)%nat eqn:E.
  - apply Nat.leb_le in E. apply Z.leb_le. lia.
  - apply Nat.leb_gt in E. apply Z.leb_gt. lia.
Qed.

Lemma insert_sorted : forall x l,
  StronglySorted at_least l -> StronglySorted at_least (Table.insert x l).
Proof.
  intros x l; induction 1 as [|y l Hs IH Hy]; simpl.
  - repeat constructor.
  - rewrite comparator_le. destruct (snd y <=? snd x)%nat eqn:E.
    + apply Nat.leb_le in E. constructor; [constructor; assumption|].
      constructor; [exact E|].
      eapply Forall_impl; [|exact Hy]. unfold at_least; intros; lia.
    + apply Nat.leb_gt in E. constructor; [exact IH|].
      eapply Permutation_Forall; [apply Permutation_sym, insert_perm|].
      constructor; [unfold at_least; lia | exact Hy].
Qed.

Lemma sort_sorted : forall l, StronglySorted at_least (Table.sort l).
Proof.
  induction l; simpl; [constructor | apply insert_sorted; assumption].
Qed.

Lemma insert_with_count : forall c x l,
  StronglySorted at_least l ->
  with_count c (Table.insert x l) = with_count c (x :: l).
Proof.
  intros c x l; induction 1 as [|y l Hs IH Hy]; [reflexivity|].
  simpl Table.insert. rewrite comparator_le.
  destruct (snd y <=? snd x)%nat eqn:E; [reflexivity|].
  apply Nat.leb_gt in E. unfold with_count in *. simpl in *. rewrite IH.
  destruct (snd y =? c)%nat eqn:Ey, (snd x =? c)%nat eqn:Ex; try reflexivity.
  apply Nat.eqb_eq in Ey, Ex. lia.
Qed.

Lemma sort_with_count : forall c l,
  with_count c (Table.sort l) = with_count c l.
Proof.
  intros c l; induction l as [|x l IH]; [reflexivity|].
  simpl Table.sort. rewrite insert_with_count by apply sort_sorted.
  unfold with_count in *; simpl. rewrite IH. reflexivity.
Qed.

End SummaryOrder.

(** ** Rules for scripts *)

Lemma wp_bind : forall A B (m : M A) (k : A -> M B) Q w,
  wp m (Post (fun a => wp (k a) Q) (on_throw Q) (on_exit Q)) w ->
  wp (bind m k) Q w.
Proof.
  unfold wp, bind, holds; intros A B m k Q w H.
  destruct (m w) as [[a|e|n] w']; simpl in *; exact H.
Qed.

Lemma wp_try_catch : forall A (m : M A) (h : error -> M A) Q w,
  wp m (Post (on_return Q) (fun e => wp (h e) Q) (on_exit Q)) w ->
  wp (try_catch m h) Q w.
Proof.
  unfold wp, try_catch, holds; intros A m h Q w H.
  destruct (m w) as [[a|e|n] w']; simpl in *; exact H.
Qed.

Lemma wp_weaken : forall A (m : M A) (Q Q' : post A) w,
  wp m Q w ->
  (forall a w', on_return Q a w' -> on_return Q' a w') ->
  (forall e w', on_throw Q e w' -> on_throw Q' e w') ->
  (forall n w', on_exit Q n w' -> on_exit Q' n w') ->
  wp m Q' w.
Proof.
  unfold wp, holds; intros A m Q Q' w H Hr Ht He.
  destruct (m w) as [[a|e|n] w']; auto.
Qed.

(** A loop keeps an invariant of its local variables, the items that are
    left and the world. *)
Lemma wp_for_each : forall A S (body : S -> A -> M S)
    (I : list A -> S -> world -> Prop) T X,
  (forall x l s w, I (x :: l) s w -> wp (body s x) (Post (I l) T X) w) ->
  forall l s w, I l s w -> wp (for_each body l s) (Post (I []) T X) w.
Proof.
  intros A S body I T X Hbody l; induction l as [|x l IH]; intros s w HI.
  - exact HI.
  - simpl for_each. apply wp_bind. simpl.
    eapply wp_weaken; [apply Hbody; exact HI | | |]; simpl; auto.
Qed.

Lemma wp_ret : forall A (a : A) (Q : post A) w,
  on_return Q a w -> wp (ret a) Q w.
Proof. intros; assumption. Qed.

Lemma wp_exit : forall A n (Q : post A) w,
  on_exit Q n w -> wp (process_exit n) Q w.
Proof. intros; assumption. Qed.

Lemma wp_print : forall l (Q : post unit) w,
  on_return Q tt (add_line l w) -> wp (print l) Q w.
Proof. intros; assumption. Qed.

Lemma wp_fs_read : forall A (f : Fs.node -> A) (Q : post A) w,
  on_return Q (f (root w)) w -> wp (fs_read f) Q w.
Proof. intros; assumption. Qed.

Lemma wp_fs_get : forall A (f : Fs.node -> result A) (Q : post A) w,
  (forall a, f (root w) = Ok a -> on_return Q a w) ->
  (forall e, f (root w) = Err e -> on_throw Q e w) ->
  wp (fs_get f) Q w.
Proof.
  unfold wp, fs_get, lift; intros A f Q w Hok Herr.
  destruct (f (root w)); [apply Hok | apply Herr]; reflexivity.
Qed.

Lemma wp_fs_update : forall (f : Fs.node -> result Fs.node) (Q : post unit) w,
  (forall r, f (root w) = Ok r -> on_return Q tt (set_root r w)) ->
  (forall e, f (root w) = Err e -> on_throw Q e w) ->
  wp (fs_update f) Q w.
Proof.
  unfold wp, fs_update; intros f Q w Hok Herr.
  destruct (f (root w)); [apply Hok | apply Herr]; reflexivity.
Qed.

Lemma wp_Date_now : forall clock (Q : post Z) w,
  on_return Q (clock (ticks w)) (tick w) -> wp (Date_now clock) Q w.
Proof. intros; assumption. Qed.

Lemma wp_call_library : forall A name (r : result A) (Q : post A) w,
  (forall a, r = Ok a -> on_return Q a (add_call name w)) ->
  (forall e, r = Err e -> on_throw Q e (add_call name w)) ->
  wp (call_library name r) Q w.
Proof.
  unfold wp, call_library, lift; intros A name r Q w Hok Herr.
  destruct r; [apply Hok | apply Herr]; reflexivity.
Qed.

Lemma wp_if : forall A (b : bool) (m1 m2 : M A) Q w,
  (b = true -> wp m1 Q w) -> (b = false -> wp m2 Q w) ->
  wp (if b then m1 else m2) Q w.
Proof. intros A [] m1 m2 Q w H1 H2; auto. Qed.

(** One step of a script: the rule of its first statement. *)
Ltac wp_simpl := simpl on_return; simpl on_throw; simpl on_exit.

Ltac wp_step :=
  first
    [ apply wp_bind; wp_simpl
    | apply wp_try_catch; wp_simpl
    | apply wp_ret; wp_simpl
    | apply wp_exit; wp_simpl
    | apply wp_print; wp_simpl
    | apply wp_fs_read; wp_simpl
    | apply wp_Date_now; wp_simpl
    | apply wp_fs_get; intros ? ?; wp_simpl
    | apply wp_fs_update; intros ? ?; wp_simpl
    | apply wp_call_library; intros ? ?; wp_simpl
    | apply wp_if; intro ].

(** ** Printing loops *)

Lemma print_each : forall A (f : A -> line) (l : list A) w,
  for_each (fun _ x => print (f x)) l tt w = (Return tt, add_lines (map f l) w).
Proof.
  intros A f l; induction l as [|x l IH]; intro w.
  - unfold add_lines; simpl. rewrite app_nil_r. destruct w; reflexivity.
  - simpl for_each. unfold bind, print. rewrite IH.
    unfold add_lines, add_line; simpl. rewrite <- app_assoc. reflexivity.
Qed.

Lemma wp_print_each : forall A (f : A -> line) (l : list A) (Q : post unit) w,
  on_return Q tt (add_lines (map f l) w) ->
  wp (for_each (fun _ x => print (f x)) l tt) Q w.
Proof. intros A f l Q w H. unfold wp. rewrite print_each. exact H. Qed.

(** ** [fflate.ts]: the directories counter *)

Lemma directories_lines_app : forall a b,
  directories_lines (a ++ b) = directories_lines a ++ directories_lines b.
Proof.
  induction a as [|l a IH]; intro b; [reflexivity|].
  destruct l; simpl; rewrite ?IH; reflexivity.
Qed.

Lemma directories_lines_file_types : forall l : Table.t,
  directories_lines (map (fun kv => FileType (fst kv) (snd kv)) l) = [].
Proof. induction l; simpl; auto. Qed.

Ltac dirs_simpl :=
  simpl console;
  rewrite ?directories_lines_app, ?directories_lines_file_types;
  simpl directories_lines; rewrite ?app_nil_r.

Lemma fflate_loop_dirCount : forall cwd outputDir files c w,
  wp (for_each (Fflate.extract_entry cwd outputDir) files c)
     (Post (fun c' w' => directories_lines (console w') = directories_lines (console w)
                         /\ Fflate.c_dirCount c' = Fflate.c_dirCount c)
           (fun _ w' => directories_lines (console w') = directories_lines (console w))
           (fun _ _ => False)) w.
Proof.
  intros cwd outputDir files c w.
  apply (wp_for_each _ _ (Fflate.extract_entry cwd outputDir)
           (fun _ c' w' =>
              directories_lines (console w') = directories_lines (console w)
              /\ Fflate.c_dirCount c' = Fflate.c_dirCount c)); [|auto].
  intros [filename contents] l s w' [Hd Hc]. unfold Fflate.extract_entry.
  repeat wp_step; dirs_simpl; auto.
Qed.

Lemma fflate_directories_wp : forall cwd clock unzipSync inputFile outputDir w,
  directories_lines (console w) = [] ->
  wp (Fflate.extractZipFile cwd clock unzipSync inputFile outputDir)
     (Post (fun s w' => directories_lines (console w') = [0] /\ Fflate.dirCount s = 0)
           (fun _ _ => False)
           (fun n w' => n = 1 /\ directories_lines (console w') = [])) w.
Proof.
  intros cwd clock unzipSync inputFile outputDir w H.
  unfold Fflate.extractZipFile.
  repeat wp_step; try (dirs_simpl; rewrite H; auto; fail).
  all: (eapply wp_weaken; [apply fflate_loop_dirCount | | |]; wp_simpl;
    [ intros c w' [Hd Hc]; revert Hd; dirs_simpl; intro Hd; simpl in Hc;
      unfold Fflate.getFileTypeStats;
      repeat wp_step; try (dirs_simpl; rewrite Hd, H; auto; fail);
      apply wp_print_each; wp_simpl; repeat wp_step;
      dirs_simpl; rewrite Hd, H, Hc; auto
    | intros e w' Hd; revert Hd; dirs_simpl; intro Hd;
      repeat wp_step; dirs_simpl; rewrite Hd, H; auto
    | intros n w' [] ]).
Qed.

(** C10: in the fflate sample the summary reports 0 directories whatever the
    archive holds: a run that ends with code 0 prints the line once, with 0,
    a run that fails does not print it, and the counter that a completed
    extraction returns is 0. *)
Theorem fflate_reports_zero_directories :
  forall cwd clock unzipSync inputFile outputDir fs,
    let r := run (Fflate.extractZipFile cwd clock unzipSync inputFile outputDir) fs in
    directories_lines (output r) = (if (exit_code r =? 0)%nat then [0] else [])
    /\ match returned r with
       | Some s => Fflate.dirCount s = 0
       | None => True
       end.
Proof.
  intros cwd clock unzipSync inputFile outputDir fs r.
  pose proof (fflate_directories_wp cwd clock unzipSync inputFile outputDir
                (start fs) eq_refl) as H.
  unfold wp, holds in H. subst r. unfold run.
  destruct (Fflate.extractZipFile _ _ _ _ _ _) as [[s|e|n] w]; simpl in *.
  - exact H.
  - destruct H.
  - destruct H as [-> H]. simpl. auto.
Qed.

(** C7, counterexample: three [.txt], one [.png] and three [.md] files, with
    [.txt] met first, are reported as [.txt], [.md], [.png]: the tie is not
    broken by the extension string. *)
Lemma summary_order_counterexample :
  let r := run (JSZip.main example_cwd example_clock (fun _ => Ok seven_members)
                  "in.zip" "out") example_fs in
  exit_code r = 0
  /\ file_type_lines (output r) = [(".txt", 3); (".md", 3); (".png", 1)]
  /\ file_type_lines (output r) <> [(".md", 3); (".txt", 3); (".png", 1)].
Proof.
  vm_compute. repeat split; discriminate.
Qed.

(** ** Extension buckets *)



Lemma toLowerCase_empty : forall s,
  Str.is_empty (Str.toLowerCase s) = Str.is_empty s.
Proof. destruct s; reflexivity. Qed.

Lemma table_get_set : forall k v t k',
  Table.get k' (Table.set k v t) = if String.eqb k' k then Some v else Table.get k' t.
Proof.
  intros k v t k'; induction t as [|[k0 v0] t IH]; simpl.
  - destruct (String.eqb k' k); reflexivity.
  - destruct (String.eqb k k0) eqn:E; simpl.
    + apply String.eqb_eq in E. subst k0.
      destruct (String.eqb k' k); reflexivity.
    + rewrite IH. destruct (String.eqb k' k0) eqn:E0; [|reflexivity].
      apply String.eqb_eq in E0. subst k0.
      destruct (String.eqb k' k) eqn:E1; [|reflexivity].
      apply String.eqb_eq in E1. subst k'. rewrite String.eqb_refl in E. discriminate.
Qed.

Lemma table_add_count : forall k n t k',
  Table.get_or_0 k' (Table.add k n t)
  = if String.eqb k' k then Table.get_or_0 k t + n else Table.get_or_0 k' t.
Proof.
  intros k n t k'. unfold Table.add, Table.get_or_0 at 1. rewrite table_get_set.
  destruct (String.eqb k' k); reflexivity.
Qed.



(** ** The node:zlib chain *)


(** What one [try] block of the chain does. *)
Lemma attempt_spec : forall cwd outputFile name algorithm decompress data (Q : post unit) w,
  match attempt_result cwd outputFile decompress data (root w) with
  | Ok (d, fs') =>
      on_exit Q 0 (add_line (Decompressed algorithm (List.length d))
                     (set_root fs' (add_call name w)))
  | Err e => on_throw Q e (add_call name w)
  end ->
  wp (NodeZlib.attempt cwd outputFile name algorithm decompress data) Q w.
Proof.
  intros cwd outputFile name algorithm decompress data Q w H.
  unfold attempt_result in H. unfold NodeZlib.attempt.
  wp_step. wp_step; rewrite H0 in H.
  - wp_step. wp_step; simpl root in *; rewrite H1 in H; [|exact H].
    repeat wp_step. exact H.
  - exact H.
Qed.




Lemma wp_pipelineAsync : forall pipeline windowBits outputPath (Q : post Minizlib.piped) w,
  on_return Q (pipeline windowBits outputPath (root w))
    (add_call "pipelineAsync"
       (set_root (Minizlib.left (pipeline windowBits outputPath (root w))) w)) ->
  wp (Minizlib.pipelineAsync pipeline windowBits outputPath) Q w.
Proof. intros pipeline windowBits outputPath Q w H. exact H. Qed.


Example basename_examples :
  Path.basename "data.gz" ".gz" = "data"
  /\ Path.basename "dir/data.txt.gz" ".gz" = "data.txt"
  /\ Path.basename "dir/data.bin" ".gz" = "data.bin"
  /\ Path.basename "dir/.gz" ".gz" = ".gz"
  /\ Path.basename ".gz" ".gz" = ""
  /\ Path.basename "dir/data.gz//" ".gz" = "data"
  /\ Path.basename "a" ".gz" = "a".
Proof. vm_compute. repeat split; reflexivity. Qed.






(** ** Throughput *)

(** C6, counterexample: an extraction that is over within the millisecond in
    which it started prints an infinite speed, in the progress line and in
    the summary. *)
Lemma throughput_counterexample :
  let r := run (Minizip.main example_cwd (fun _ => 1000%Z) (Ok tt)
                  (fun _ => Ok one_text_file) (Ok tt) "in.zip" "out") example_fs in
  exit_code r = 0
  /\ speed_lines (output r)
     = [ {| amount := PosInf; unit_name := "GB" |};
         {| amount := PosInf; unit_name := "GB" |} ].
Proof. vm_compute. split; reflexivity. Qed.

Lemma inject_Z_eq_0 : forall z, Qeq_bool (inject_Z z / inject_Z 1000) 0 = (z =? 0)%Z.
Proof.
  intro z. unfold Qeq_bool, Qdiv, Qmult, Qinv, inject_Z; simpl.
  destruct z; reflexivity.
Qed.

Lemma Qred_eq_0 : forall q, Qeq_bool (Qred q) 0 = Qeq_bool q 0.
Proof.
  intro q. destruct (Qeq_bool q 0) eqn:E.
  - apply Qeq_bool_iff. apply Qeq_bool_iff in E. rewrite Qred_correct. exact E.
  - apply not_true_is_false. intro H. apply Qeq_bool_iff in H.
    rewrite Qred_correct in H. apply Qeq_bool_iff in H. congruence.
Qed.

Lemma formatSize_loop_finite : forall n v k,
  is_finite v = true -> is_finite (fst (formatSize_loop n v k)) = true.
Proof.
  induction n as [|n IH]; intros v k Hv; simpl; [exact Hv|].
  destruct (JsNum.ge v (of_Z 1024)); [|exact Hv].
  apply IH. destruct v; try discriminate. simpl. reflexivity.
Qed.

Lemma formatSize_finite : forall v,
  is_finite v = true -> is_finite (amount (formatSize v)) = true.
Proof.
  intros v Hv. unfold formatSize.
  pose proof (formatSize_loop_finite (List.length units - 1) v 0 Hv) as H.
  destruct (formatSize_loop _ v 0); exact H.
Qed.

Lemma throughput_finite : forall totalBytes elapsed,
  elapsed <> 0%Z ->
  is_finite (JsNum.div (of_nat totalBytes)
               (JsNum.div (of_Z elapsed) (of_Z 1000))) = true.
Proof.
  intros totalBytes elapsed H. unfold JsNum.div, of_nat, of_Z.
  change (Qeq_bool (inject_Z 1000) 0) with false. cbv iota.
  rewrite Qred_eq_0, inject_Z_eq_0.
  destruct (elapsed =? 0)%Z eqn:E; [apply Z.eqb_eq in E; contradiction|].
  reflexivity.
Qed.

Lemma speed_lines_app : forall a b,
  speed_lines (a ++ b) = speed_lines a ++ speed_lines b.
Proof.
  induction a as [|x a IH]; intro b; [reflexivity|].
  destruct x; simpl; rewrite ?IH; reflexivity.
Qed.

(** The progress handler of the minizlib sample reports a speed only when
    100 ms have passed since its last report; its last report is never
    earlier than the start. *)
Lemma minizlib_handler_finite : forall clock startTime chunks st w,
  (startTime <= Minizlib.lastProgress st)%Z ->
  Forall (fun s => is_finite (amount s) = true) (speed_lines (console w)) ->
  wp (for_each (Minizlib.on_data clock startTime) chunks st)
     (Post (fun _ w' =>
              Forall (fun s => is_finite (amount s) = true) (speed_lines (console w')))
           (fun _ _ => False) (fun _ _ => False)) w.
Proof.
  intros clock startTime chunks st w Hst Hw.
  eapply wp_weaken;
    [ apply (wp_for_each _ _ (Minizlib.on_data clock startTime)
               (fun _ st' w' =>
                  (startTime <= Minizlib.lastProgress st')%Z
                  /\ Forall (fun s => is_finite (amount s) = true)
                            (speed_lines (console w')))
               (fun _ _ => False) (fun _ _ => False)); [|auto]
    | simpl; tauto | auto | auto ].
  clear. intros chunk l st w [Hst Hw]. unfold Minizlib.on_data.
  wp_step. wp_step. wp_step.
  - apply Z.leb_le in H.
    assert (Hfin : forall n,
      is_finite (amount (formatSize
        (JsNum.div (of_nat n)
           (JsNum.div (of_Z (clock (ticks w) - startTime)) (of_Z 1000))))) = true)
      by (intro n; apply formatSize_finite, throughput_finite; lia).
    assert (Hle : (startTime <= clock (ticks w))%Z) by lia.
    repeat wp_step. unfold add_line; cbn [console Minizlib.lastProgress].
    split; [exact Hle|].
    rewrite speed_lines_app. apply Forall_app. split; [exact Hw|].
    constructor; [apply Hfin|constructor].
  - repeat wp_step. simpl. auto.
Qed.

(** C6, as the samples have it: the speed is the bytes written divided by the
    seconds elapsed on the wall clock at the time of the report, and nothing
    guards the division: the figure is finite when the elapsed time is not
    zero, and is Infinity, or NaN when no byte was written, when it is zero;
    [formatSize] passes these on to the console.  The progress handler of
    the minizlib sample alone never meets a zero: it reports only 100 ms or
    more after its last report, provided the clock did not run backwards
    between its first two readings. *)
Theorem throughput_division_unguarded :
  (forall totalBytes startTime now,
     Minizip.bytesPerSecond totalBytes startTime now
     = JsNum.div (of_nat totalBytes)
         (JsNum.div (of_Z (now - startTime)) (of_Z 1000))
     /\ (now <> startTime ->
         is_finite (Minizip.bytesPerSecond totalBytes startTime now) = true)
     /\ (now = startTime ->
         Minizip.bytesPerSecond totalBytes startTime now
         = if totalBytes =? 0 then NaN else PosInf))
  /\ formatSize PosInf = {| amount := PosInf; unit_name := "GB" |}
  /\ formatSize NaN = {| amount := NaN; unit_name := "B" |}
  /\ (forall clock chunks w,
        (clock (ticks w) <= clock (S (ticks w)))%Z ->
        speed_lines (console w) = [] ->
        Forall (fun s => is_finite (amount s) = true)
               (speed_lines (console (snd (Minizlib.track clock chunks w))))).
Proof.
  split; [|split; [reflexivity|split; [reflexivity|]]].
  - intros totalBytes startTime now. split; [reflexivity|]. split.
    + intro H. apply throughput_finite. lia.
    + intros ->. unfold Minizip.bytesPerSecond. rewrite Z.sub_diag.
      unfold JsNum.div, of_nat, of_Z. simpl Qeq_bool. cbv iota.
      destruct totalBytes; reflexivity.
  - intros clock chunks w Hclock Hw. unfold Minizlib.track.
    assert (H : wp (startTime <- Date_now clock ;;
                    lastProgress0 <- Date_now clock ;;
                    for_each (Minizlib.on_data clock startTime) chunks
                      {| Minizlib.totalBytes := 0;
                         Minizlib.lastProgress := lastProgress0 |})
                   (Post (fun _ w' =>
                            Forall (fun s => is_finite (amount s) = true)
                                   (speed_lines (console w')))
                         (fun _ _ => False) (fun _ _ => False)) w).
    { apply wp_bind; wp_simpl. apply wp_Date_now; wp_simpl.
      apply wp_bind; wp_simpl. apply wp_Date_now; wp_simpl.
      apply minizlib_handler_finite; simpl.
      - exact Hclock.
      - rewrite Hw. constructor. }
    unfold wp, holds in H.
    destruct (bind _ _ w) as [[st|e|n] w']; simpl in *; tauto.
Qed.

Lemma throughput_witness :
  is_finite (Minizip.bytesPerSecond 5000 1000 1250) = true
  /\ Minizip.bytesPerSecond 5000 1000 1000 = PosInf
  /\ Forall (fun s => is_finite (amount s) = true)
       (speed_lines (console (snd (Minizlib.track example_clock
                                     [text "hello"; text "world"] (start example_fs))))).
Proof.
  destruct throughput_division_unguarded as (H1 & _ & _ & H4).
  destruct (H1 5000 1000%Z 1250%Z) as (_ & Hfin & _).
  destruct (H1 5000 1000%Z 1000%Z) as (_ & _ & Hinf).
  split; [apply Hfin; lia|]. split; [apply Hinf; reflexivity|].
  apply H4; [vm_compute; discriminate | reflexivity].
Defined.

(** ** The file system: what a call leaves untouched *)

Lemma assoc_set_entry_same : forall k n es,
  Fs.assoc k (Fs.set_entry k n es) = Some n.
Proof.
  intros k n es; induction es as [|[k' n'] es IH]; simpl.
  - rewrite String.eqb_refl. reflexivity.
  - destruct (String.eqb k k') eqn:E; simpl.
    + rewrite String.eqb_refl. reflexivity.
    + rewrite E. exact IH.
Qed.

Lemma assoc_set_entry_other : forall k k' n es,
  k' <> k -> Fs.assoc k' (Fs.set_entry k n es) = Fs.assoc k' es.
Proof.
  intros k k' n es Hne; induction es as [|[k0 n0] es IH]; simpl.
  - apply String.eqb_neq in Hne. rewrite Hne. reflexivity.
  - destruct (String.eqb k k0) eqn:E; simpl.
    + apply String.eqb_eq in E. subst k0.
      apply String.eqb_neq in Hne. rewrite Hne. reflexivity.
    + rewrite IH. reflexivity.
Qed.

Lemma read_file_nil : forall n,
  Fs.read_file n [] = match n with Fs.File d => Some d | Fs.Dir _ => None end.
Proof. destruct n; reflexivity. Qed.

Lemma read_file_cons : forall es s p,
  Fs.read_file (Fs.Dir es) (s :: p)
  = match Fs.assoc s es with
    | Some c => Fs.read_file c p
    | None => None
    end.
Proof.
  intros es s p. unfold Fs.read_file. simpl.
  destruct (Fs.assoc s es); reflexivity.
Qed.

Lemma read_file_file_cons : forall d s p, Fs.read_file (Fs.File d) (s :: p) = None.
Proof. reflexivity. Qed.

(** [mkdir -p] creates directories only. *)
Lemma mkdirp_keeps_files : forall p n n' q,
  Fs.mkdirp n p = inr n' -> Fs.read_file n' q = Fs.read_file n q.
Proof.
  induction p as [|s p IH]; intros n n' q H.
  - destruct n; simpl in H; [discriminate|]. injection H as <-. reflexivity.
  - destruct n as [d|es]; simpl in H; [discriminate|].
    destruct (Fs.mkdirp _ p) as [e|c'] eqn:Hc; [discriminate|].
    injection H as <-.
    destruct q as [|t q]; [reflexivity|].
    rewrite !read_file_cons.
    destruct (String.eqb t s) eqn:E.
    + apply String.eqb_eq in E. subst t. rewrite assoc_set_entry_same.
      rewrite (IH _ _ q Hc).
      destruct (Fs.assoc s es) as [c|]; [reflexivity|].
      destruct q; reflexivity.
    + apply String.eqb_neq in E. rewrite assoc_set_entry_other by exact E.
      reflexivity.
Qed.

(** Writing a file puts the data at its path and changes no other file. *)
Lemma write_reads_back : forall p n n' d,
  Fs.write n p d = inr n' -> Fs.read_file n' p = Some d.
Proof.
  induction p as [|s p IH]; intros n n' d H.
  - destruct n; simpl in H; [|discriminate]. injection H as <-. reflexivity.
  - destruct n as [d0|es]; simpl in H; [discriminate|].
    destruct (Fs.assoc s es) as [c|] eqn:Hs.
    + destruct (Fs.write c p d) as [e|c'] eqn:Hc; [discriminate|].
      injection H as <-. rewrite read_file_cons, assoc_set_entry_same.
      eapply IH; eassumption.
    + destruct p; [|discriminate]. injection H as <-.
      rewrite read_file_cons, assoc_set_entry_same. reflexivity.
Qed.

Lemma write_keeps_others : forall p n n' d q,
  Fs.write n p d = inr n' -> q <> p -> Fs.read_file n' q = Fs.read_file n q.
Proof.
  induction p as [|s p IH]; intros n n' d q H Hq.
  - destruct n; simpl in H; [|discriminate]. injection H as <-.
    destruct q; [congruence|reflexivity].
  - destruct n as [d0|es]; simpl in H; [discriminate|].
    destruct q as [|t q]; [destruct (Fs.assoc s es) as [c|];
      [destruct (Fs.write c p d); [discriminate|]; injection H as <-; reflexivity
      |destruct p; [injection H as <-; reflexivity|discriminate]]|].
    rewrite (read_file_cons es).
    destruct (String.eqb t s) eqn:E.
    + apply String.eqb_eq in E. subst t.
      assert (Hqp : q <> p) by congruence.
      destruct (Fs.assoc s es) as [c|] eqn:Hs.
      * destruct (Fs.write c p d) as [e|c'] eqn:Hc; [discriminate|].
        injection H as <-. rewrite read_file_cons, assoc_set_entry_same.
        eapply IH; eassumption.
      * destruct p; [|discriminate]. injection H as <-.
        rewrite read_file_cons, assoc_set_entry_same.
        destruct q; [congruence|reflexivity].
    + apply String.eqb_neq in E.
      destruct (Fs.assoc s es) as [c|] eqn:Hs.
      * destruct (Fs.write c p d) as [e|c'] eqn:Hc; [discriminate|].
        injection H as <-. rewrite read_file_cons, assoc_set_entry_other by exact E.
        reflexivity.
      * destruct p; [|discriminate]. injection H as <-.
        rewrite read_file_cons, assoc_set_entry_other by exact E. reflexivity.
Qed.

Lemma mkdirSync_keeps_files : forall cwd r p r' q,
  Fs.mkdirSync cwd r p = Ok r' -> Fs.read_file r' q = Fs.read_file r q.
Proof.
  intros cwd r p r' q H. unfold Fs.mkdirSync in H.
  destruct (Str.is_empty p); [discriminate|].
  destruct (Fs.mkdirp r (Fs.resolve cwd p)) as [e|n] eqn:Hm; [discriminate|].
  injection H as <-. eapply mkdirp_keeps_files; eassumption.
Qed.

Lemma writeFileSync_spec : forall cwd r p d r',
  Fs.writeFileSync cwd r p d = Ok r' ->
  Str.ends_with Str.slash p = false
  /\ Fs.read_file r' (Fs.resolve cwd p) = Some d
  /\ forall q, q <> Fs.resolve cwd p -> Fs.read_file r' q = Fs.read_file r q.
Proof.
  intros cwd r p d r' H. unfold Fs.writeFileSync in H.
  destruct (Str.is_empty p); [discriminate|].
  destruct (Str.ends_with Str.slash p); [discriminate|].
  destruct (Fs.write r (Fs.resolve cwd p) d) as [e|n] eqn:Hw; [discriminate|].
  injection H as <-. split; [reflexivity|]. split.
  - eapply write_reads_back; eassumption.
  - intros q Hq. eapply write_keeps_others; eassumption.
Qed.

(** ** Paths that end in a slash *)



Lemma is_empty_false : forall s, s <> "" -> Str.is_empty s = false.
Proof. destruct s; [congruence|reflexivity]. Qed.



(** ** [fflate.ts]: what a completed extraction has counted *)





(** ** Failures of single entries *)

Lemma entry_errors_app : forall a b,
  entry_errors (a ++ b) = entry_errors a ++ entry_errors b.
Proof.
  induction a as [|l a IH]; intro b; [reflexivity|].
  destruct l; simpl; rewrite ?IH; reflexivity.
Qed.

Lemma fatal_errors_app : forall a b,
  fatal_errors (a ++ b) = fatal_errors a ++ fatal_errors b.
Proof.
  induction a as [|l a IH]; intro b; [reflexivity|].
  destruct l; simpl; rewrite ?IH; reflexivity.
Qed.

Lemma entry_errors_file_types : forall l : Table.t,
  entry_errors (map (fun kv => FileType (fst kv) (snd kv)) l) = [].
Proof. induction l; simpl; auto. Qed.

(** The loop of the minizip sample tries every entry and prints every
    failure. *)
Lemma minizip_loop_failures :
  forall cwd clock outputDir totalFiles startTime entries st w,
    wp (for_each (Minizip.extract_entry cwd clock outputDir totalFiles startTime)
          entries st)
       (Post (fun _ w' =>
                entry_errors (console w')
                = entry_errors (console w)
                  ++ fst (store_each cwd outputDir (map minizip_item entries) (root w))
                /\ root w'
                   = snd (store_each cwd outputDir (map minizip_item entries) (root w)))
             (fun _ _ => False) (fun _ _ => False)) w.
Proof.
  intros cwd clock outputDir totalFiles startTime entries;
    induction entries as [|e entries IH]; intros st w.
  - apply wp_ret; wp_simpl. simpl. rewrite app_nil_r. auto.
  - simpl for_each. apply wp_bind; wp_simpl.
    unfold Minizip.extract_entry. simpl map. unfold minizip_item at 1 3.
    cbn [store_each]. unfold store.
    apply wp_try_catch; wp_simpl. apply wp_if; intro Hdir; rewrite Hdir.
    + wp_step. eapply wp_weaken; [apply IH | | auto | auto].
      wp_simpl. auto.
    + repeat wp_step; simpl root in *;
        repeat match goal with
               | H : ?x = _ |- context [?x] => rewrite H
               end;
        (eapply wp_weaken; [apply IH | | auto | auto]); wp_simpl;
        simpl root; simpl console;
        destruct (store_each cwd outputDir (map minizip_item entries) _)
          as [failures fs'']; simpl;
        intros _ w' [Hc Hr]; rewrite Hc, ?entry_errors_app; simpl;
        rewrite ?app_nil_r, <- ?app_assoc; auto.
Qed.

(** So does the loop of the JSZip sample. *)
Lemma jszip_loop_failures :
  forall cwd clock outputDir totalFiles startTime files st w,
    wp (for_each (JSZip.extract_file cwd clock outputDir totalFiles startTime)
          files st)
       (Post (fun _ w' =>
                entry_errors (console w')
                = entry_errors (console w)
                  ++ fst (store_each cwd outputDir (map jszip_item files) (root w))
                /\ root w'
                   = snd (store_each cwd outputDir (map jszip_item files) (root w)))
             (fun _ _ => False) (fun _ _ => False)) w.
Proof.
  intros cwd clock outputDir totalFiles startTime files;
    induction files as [|z files IH]; intros st w.
  - apply wp_ret; wp_simpl. simpl. rewrite app_nil_r. auto.
  - simpl for_each. apply wp_bind; wp_simpl.
    unfold JSZip.extract_file. simpl map. unfold jszip_item at 1 3.
    cbn [store_each]. unfold store.
    apply wp_if; intro Hdir; rewrite Hdir.
    + wp_step. eapply wp_weaken; [apply IH | | auto | auto].
      wp_simpl. auto.
    + repeat wp_step; simpl root in *;
        repeat match goal with
               | H : ?x = _ |- context [?x] => rewrite H
               end;
        (eapply wp_weaken; [apply IH | | auto | auto]); wp_simpl;
        simpl root; simpl console;
        destruct (store_each cwd outputDir (map jszip_item files) _)
          as [failures fs'']; simpl;
        intros _ w' [Hc Hr]; rewrite Hc, ?entry_errors_app; simpl;
        rewrite ?app_nil_r, <- ?app_assoc; auto.
Qed.



Ltac use_equations :=
  simpl root in *;
  repeat first
    [ discriminate
    | match goal with
      | H : Ok _ = Ok _ |- _ => injection H as H; subst
      | H : ?x = Ok _, H' : ?x = Ok _ |- _ => rewrite H in H'
      | H : ?x = Ok _, H' : ?x = Err _ |- _ => rewrite H in H'
      | H : ?x = true, H' : ?x = false |- _ => rewrite H in H'
      end ].

Lemma wp_and : forall A (m : M A) (Q1 Q2 : post A) w,
  wp m Q1 w -> wp m Q2 w ->
  wp m (Post (fun a w' => on_return Q1 a w' /\ on_return Q2 a w')
             (fun e w' => on_throw Q1 e w' /\ on_throw Q2 e w')
             (fun n w' => on_exit Q1 n w' /\ on_exit Q2 n w')) w.
Proof.
  unfold wp, holds; intros A m Q1 Q2 w H1 H2.
  destruct (m w) as [[a|e|n] w']; simpl; auto.
Qed.






(** ** Directories stay directories *)
















(** ** Declared sizes *)




Example zip_check :
  List.length zip_declaring_10 = 113
  /\ FflateStored.declared_size zip_declaring_10 40 = 10%Z
  /\ FflateStored.unzipSync zip_declaring_10 = Ok [("a.txt", text "hello")].
Proof. vm_compute. repeat split; reflexivity. Qed.







(** ** Counter tables *)

Lemma weight_app : forall k a b, weight k (a ++ b) = weight k a + weight k b.
Proof.
  intros k a b. unfold weight. rewrite filter_app, map_app, list_sum_app.
  reflexivity.
Qed.

Lemma weight_perm : forall k a b, Permutation a b -> weight k a = weight k b.
Proof.
  intros k a b H. unfold weight.
  induction H as [|x a b H IH|x y a|a b c H1 IH1 H2 IH2]; simpl.
  - reflexivity.
  - destruct (String.eqb (fst x) k); simpl; rewrite IH; reflexivity.
  - destruct (String.eqb (fst x) k), (String.eqb (fst y) k); simpl; lia.
  - congruence.
Qed.

Lemma get_not_in : forall k t,
  ~ In k (map fst t) -> Table.get k t = None /\ weight k t = 0.
Proof.
  intros k t; induction t as [|[k' v] t IH]; intro H; [split; reflexivity|].
  simpl in H. unfold weight. simpl.
  destruct (String.eqb k k') eqn:E.
  - apply String.eqb_eq in E. subst k'. tauto.
  - rewrite String.eqb_sym, E. apply IH. tauto.
Qed.

(** With one line for each key, a table gives the weight of a key. *)
Lemma get_or_0_weight : forall k t,
  NoDup (map fst t) -> Table.get_or_0 k t = weight k t.
Proof.
  intros k t; induction t as [|[k' v] t IH]; intro H; [reflexivity|].
  inversion H as [|? ? Hnotin Hnodup]; subst.
  unfold Table.get_or_0, weight in *. simpl.
  destruct (String.eqb k k') eqn:E.
  - apply String.eqb_eq in E. subst k'. rewrite String.eqb_refl. simpl.
    destruct (get_not_in k t Hnotin) as [_ Hw]. unfold weight in Hw.
    rewrite Hw. lia.
  - rewrite String.eqb_sym, E. apply IH. exact Hnodup.
Qed.

Lemma set_keys : forall k v t,
  map fst (Table.set k v t)
  = if existsb (String.eqb k) (map fst t) then map fst t else map fst t ++ [k].
Proof.
  intros k v t; induction t as [|[k' v'] t IH]; [reflexivity|].
  simpl. destruct (String.eqb k k') eqn:E; simpl.
  - apply String.eqb_eq in E. subst k'. reflexivity.
  - rewrite IH. destruct (existsb (String.eqb k) (map fst t)); reflexivity.
Qed.

Lemma add_keeps_nodup : forall k n t,
  NoDup (map fst t) -> NoDup (map fst (Table.add k n t)).
Proof.
  intros k n t H. unfold Table.add. rewrite set_keys.
  destruct (existsb (String.eqb k) (map fst t)) eqn:E; [exact H|].
  apply NoDup_app; [exact H | repeat constructor; intros [] |].
  intros x Hx [Heq|[]]. subst x.
  assert (existsb (String.eqb k) (map fst t) = true); [|congruence].
  apply existsb_exists. exists k. split; [exact Hx | apply String.eqb_refl].
Qed.

Lemma add_weight : forall k n t k',
  NoDup (map fst t) ->
  weight k' (Table.add k n t)
  = if String.eqb k' k then weight k t + n else weight k' t.
Proof.
  intros k n t k' H.
  rewrite <- (get_or_0_weight k' _ (add_keeps_nodup k n t H)).
  rewrite table_add_count, !get_or_0_weight by exact H. reflexivity.
Qed.

Lemma weight_cons : forall k k' v t,
  weight k ((k', v) :: t) = (if String.eqb k' k then v else 0) + weight k t.
Proof.
  intros k k' v t. unfold weight. simpl.
  destruct (String.eqb k' k); reflexivity.
Qed.

Lemma merge_spec : forall sub t,
  NoDup (map fst t) ->
  NoDup (map fst (Table.merge t sub))
  /\ forall k, weight k (Table.merge t sub) = weight k t + weight k sub.
Proof.
  unfold Table.merge.
  induction sub as [|[k' v] sub IH]; intros t H; simpl.
  - split; [exact H|]. intro k. unfold weight at 3. simpl. lia.
  - destruct (IH (Table.add k' v t) (add_keeps_nodup k' v t H)) as [Hn Hw].
    split; [exact Hn|]. intro k.
    rewrite Hw, add_weight, weight_cons by exact H.
    rewrite (String.eqb_sym k k').
    destruct (String.eqb k' k) eqn:E; [|lia].
    apply String.eqb_eq in E. subst k'. lia.
Qed.

Lemma sort_get_or_0 : forall k t,
  NoDup (map fst t) -> Table.get_or_0 k (Table.sort t) = weight k t.
Proof.
  intros k t H. rewrite get_or_0_weight.
  - apply weight_perm, sort_perm.
  - eapply Permutation_NoDup; [|exact H].
    apply Permutation_map, Permutation_sym, sort_perm.
Qed.

Lemma count_bucket_app : forall k a b,
  count_bucket k (a ++ b) = count_bucket k a + count_bucket k b.
Proof.
  intros k a b. unfold count_bucket. rewrite filter_app, length_app. reflexivity.
Qed.

Lemma count_bucket_cons : forall k name names,
  count_bucket k (name :: names)
  = (if String.eqb k (bucket name) then 1 else 0) + count_bucket k names.
Proof.
  intros k name names. unfold count_bucket. simpl.
  rewrite (String.eqb_sym k). destruct (String.eqb (bucket name) k); reflexivity.
Qed.

(** ** The walk of [getFileTypeStats] counts the files of the tree *)

Lemma node_induction : forall P : Fs.node -> Prop,
  (forall d, P (Fs.File d)) ->
  (forall es, Forall (fun e => P (snd e)) es -> P (Fs.Dir es)) ->
  forall n, P n.
Proof.
  intros P Hfile Hdir. fix IH 1. intros [d|es]; [apply Hfile|].
  apply Hdir. induction es as [|e es IHes]; constructor; [apply IH | exact IHes].
Qed.

Lemma stats_of_dir_spec : forall dir,
  NoDup (map fst (Fflate.stats_of_dir dir))
  /\ forall k, weight k (Fflate.stats_of_dir dir) = count_bucket k (file_names dir).
Proof.
  induction dir as [d|entries IH] using node_induction.
  - split; [constructor|reflexivity].
  - simpl.
    assert (Hgo : forall stats,
      NoDup (map fst stats) ->
      NoDup (map fst
        ((fix go (es : list (string * Fs.node)) (stats : Table.t) : Table.t :=
            match es with
            | [] => stats
            | (name, child) :: es' =>
                go es' (match child with
                        | Fs.Dir _ => Table.merge stats (Fflate.stats_of_dir child)
                        | Fs.File _ => Table.add (bucket name) 1 stats
                        end)
            end) entries stats))
      /\ forall k,
          weight k
            ((fix go (es : list (string * Fs.node)) (stats : Table.t) : Table.t :=
                match es with
                | [] => stats
                | (name, child) :: es' =>
                    go es' (match child with
                            | Fs.Dir _ => Table.merge stats (Fflate.stats_of_dir child)
                            | Fs.File _ => Table.add (bucket name) 1 stats
                            end)
                end) entries stats)
          = weight k stats
            + count_bucket k
                ((fix go (es : list (string * Fs.node)) : list string :=
                    match es with
                    | [] => []
                    | (name, child) :: es' =>
                        match child with
                        | Fs.Dir _ => file_names child ++ go es'
                        | Fs.File _ => name :: go es'
                        end
                    end) entries)).
    { induction IH as [|[name child] es Hchild _ IHes]; intros stats Hstats.
      - split; [exact Hstats|]. intro k. unfold count_bucket; simpl. lia.
      - destruct child as [d|sub].
        + destruct (IHes _ (add_keeps_nodup (bucket name) 1 stats Hstats)) as [Hn Hw].
          split; [exact Hn|]. intro k. rewrite Hw, add_weight by exact Hstats.
          rewrite (count_bucket_cons k name).
          destruct (String.eqb k (bucket name)) eqn:E; [|lia].
          apply String.eqb_eq in E. subst k. lia.
        + cbn [snd] in Hchild. destruct Hchild as [Hsubn Hsubw].
          destruct (merge_spec (Fflate.stats_of_dir (Fs.Dir sub)) stats Hstats)
            as [Hmn Hmw].
          destruct (IHes _ Hmn) as [Hn Hw].
          split; [exact Hn|]. intro k.
          rewrite Hw, Hmw, Hsubw, count_bucket_app. lia. }
    destruct (Hgo [] (NoDup_nil _)) as [Hn Hw].
    split; [exact Hn|]. intro k. rewrite Hw. reflexivity.
Qed.

Lemma count_bucket_in : forall name names,
  In name names -> 1 <= count_bucket (bucket name) names.
Proof.
  intros name names; induction names as [|x names IH]; intros []; subst.
  - rewrite count_bucket_cons, String.eqb_refl. lia.
  - rewrite count_bucket_cons. specialize (IH H). lia.
Qed.

Lemma assoc_in : forall s es c, Fs.assoc s es = Some c -> In (s, c) es.
Proof.
  intros s es c; induction es as [|[k n] es IH]; simpl; [discriminate|].
  destruct (String.eqb s k) eqn:E.
  - apply String.eqb_eq in E. subst k. intro H; injection H as ->. auto.
  - auto.
Qed.

Lemma file_names_entry : forall s c es,
  In (s, c) es ->
  match c with
  | Fs.File _ => In s (file_names (Fs.Dir es))
  | Fs.Dir _ => incl (file_names c) (file_names (Fs.Dir es))
  end.
Proof.
  intros s c es; induction es as [|[k n] es IH]; intros []; cbn [file_names].
  - injection H as -> ->. destruct c; [left; reflexivity|].
    intros x Hx. apply in_or_app. left. exact Hx.
  - specialize (IH H). destruct c, n; cbn [file_names] in *.
    + right. exact IH.
    + apply in_or_app. right. exact IH.
    + intros x Hx. right. exact (IH x Hx).
    + intros x Hx. apply in_or_app. right. exact (IH x Hx).
Qed.

(** A file that is in a directory or below it is one of the files that the
    walk counts. *)
Lemma read_file_counted : forall p es d,
  p <> [] -> Fs.read_file (Fs.Dir es) p = Some d ->
  In (last p "") (file_names (Fs.Dir es)).
Proof.
  induction p as [|s p IH]; intros es d Hp H; [congruence|].
  rewrite read_file_cons in H.
  destruct (Fs.assoc s es) as [c|] eqn:Hs; [|discriminate].
  apply assoc_in in Hs. pose proof (file_names_entry _ _ _ Hs) as Hc.
  destruct p as [|t p].
  - destruct c; [exact Hc|discriminate].
  - destruct c as [d0|es']; [discriminate|].
    apply Hc. change (last (s :: t :: p) "") with (last (t :: p) "").
    apply (IH es' d); [discriminate | exact H].
Qed.

Lemma lookup_app : forall a b n,
  Fs.lookup n (a ++ b)
  = match Fs.lookup n a with
    | Some m => Fs.lookup m b
    | None => None
    end.
Proof.
  induction a as [|s a IH]; intros b n; [reflexivity|].
  simpl. destruct n as [d|es]; [reflexivity|].
  destruct (Fs.assoc s es); [apply IH | reflexivity].
Qed.

(** ** Listings by name *)

Lemma ltb_irrefl : forall a b, String.ltb a b = true -> a <> b.
Proof.
  intros a b H ->. unfold String.ltb in H.
  pose proof (String.compare_antisym b b) as Ha.
  destruct (String.compare b b); simpl in Ha; discriminate.
Qed.

Lemma assoc_insert_by_name : forall k e es,
  Fs.assoc k (Fs.insert_by_name e es)
  = if String.eqb k (fst e) then Some (snd e) else Fs.assoc k es.
Proof.
  intros k [k0 n0] es; induction es as [|[k1 n1] es IH]; simpl; [reflexivity|].
  destruct (String.ltb k1 k0) eqn:Hlt; simpl.
  - rewrite IH. simpl. destruct (String.eqb k k0) eqn:E; [|reflexivity].
    apply String.eqb_eq in E. subst k. apply ltb_irrefl in Hlt.
    assert (E : String.eqb k0 k1 = false) by (apply String.eqb_neq; congruence).
    rewrite E. reflexivity.
  - reflexivity.
Qed.

Lemma assoc_by_name : forall k es, Fs.assoc k (Fs.by_name es) = Fs.assoc k es.
Proof.
  intros k es; induction es as [|[k0 n0] es IH]; [reflexivity|].
  simpl. rewrite assoc_insert_by_name, IH. reflexivity.
Qed.

Lemma assoc_listing : forall k es,
  Fs.assoc k (Fs.listing es)
  = match Fs.assoc k es with
    | Some c => Some (Fs.in_name_order c)
    | None => None
    end.
Proof.
  intros k es. unfold Fs.listing. rewrite assoc_by_name.
  induction es as [|[k0 n0] es IH]; [reflexivity|].
  simpl. destruct (String.eqb k k0); [reflexivity | exact IH].
Qed.

Lemma lookup_in_name_order : forall p n,
  Fs.lookup (Fs.in_name_order n) p
  = match Fs.lookup n p with
    | Some c => Some (Fs.in_name_order c)
    | None => None
    end.
Proof.
  induction p as [|s p IH]; intro n; [reflexivity|].
  destruct n as [d|es]; [reflexivity|].
  change (Fs.in_name_order (Fs.Dir es)) with (Fs.Dir (Fs.listing es)).
  simpl. rewrite assoc_listing.
  destruct (Fs.assoc s es) as [c|]; [apply IH | reflexivity].
Qed.

(** A file is read from the listing as it is from the tree. *)
Lemma read_file_listing : forall es q,
  Fs.read_file (Fs.Dir (Fs.listing es)) q = Fs.read_file (Fs.Dir es) q.
Proof.
  intros es q. unfold Fs.read_file.
  change (Fs.Dir (Fs.listing es)) with (Fs.in_name_order (Fs.Dir es)).
  rewrite lookup_in_name_order.
  destruct (Fs.lookup (Fs.Dir es) q) as [[d|es']|]; reflexivity.
Qed.

Lemma insert_by_name_perm : forall e es,
  Permutation (Fs.insert_by_name e es) (e :: es).
Proof.
  intros e es; induction es as [|e' es IH]; simpl; [reflexivity|].
  destruct (String.ltb (fst e') (fst e)); [|reflexivity].
  rewrite IH. apply perm_swap.
Qed.

Lemma by_name_perm : forall es, Permutation (Fs.by_name es) es.
Proof.
  induction es as [|e es IH]; simpl; [reflexivity|].
  rewrite insert_by_name_perm, IH. reflexivity.
Qed.

Lemma readdir_read_file : forall cwd r p es q,
  Fs.readdir cwd r p = Ok es ->
  Fs.read_file r (Fs.resolve cwd p ++ q) = Fs.read_file (Fs.Dir es) q.
Proof.
  intros cwd r p es q H. unfold Fs.readdir in H.
  destruct (Str.is_empty p); [discriminate|].
  unfold Fs.read_file. rewrite lookup_app.
  destruct (Fs.lookup r (Fs.resolve cwd p)) as [[d|es']|]; try discriminate.
  injection H as <-. symmetry. apply read_file_listing.
Qed.

(** ** Which files the statistics count *)

Lemma files_kept_refl : forall fs, files_kept fs fs.
Proof. intros fs q d H. eauto. Qed.

Lemma files_kept_mkdir : forall cwd fs r p r',
  files_kept fs r -> Fs.mkdirSync cwd r p = Ok r' -> files_kept fs r'.
Proof.
  intros cwd fs r p r' Hk Hm q d H. rewrite (mkdirSync_keeps_files _ _ _ _ q Hm).
  eapply Hk; eassumption.
Qed.

Lemma files_kept_write : forall cwd fs r p data r',
  files_kept fs r -> Fs.writeFileSync cwd r p data = Ok r' -> files_kept fs r'.
Proof.
  intros cwd fs r p data r' Hk Hw q d H.
  destruct (writeFileSync_spec _ _ _ _ _ Hw) as (_ & Hsame & Hother).
  destruct (list_eq_dec string_dec q (Fs.resolve cwd p)) as [->|Hne].
  - eauto.
  - rewrite (Hother q Hne). eapply Hk; eassumption.
Qed.

Lemma fflate_loop_keeps_files : forall cwd outputDir fs files c w,
  files_kept fs (root w) ->
  wp (for_each (Fflate.extract_entry cwd outputDir) files c)
     (Post (fun _ w' => files_kept fs (root w')) (fun _ _ => True) (fun _ _ => True)) w.
Proof.
  intros cwd outputDir fs files c w Hw.
  eapply wp_weaken;
    [ apply (wp_for_each _ _ (Fflate.extract_entry cwd outputDir)
               (fun _ _ w' => files_kept fs (root w'))
               (fun _ _ => True) (fun _ _ => True)); [|exact Hw]
    | auto | auto | auto ].
  clear. intros [name contents] l c w Hw. unfold Fflate.extract_entry.
  repeat wp_step; auto; simpl root in *;
    eauto using files_kept_mkdir, files_kept_write.
Qed.

(** The table of the minizip sample grows with the entries that are stored. *)
Lemma minizip_loop_counts :
  forall cwd clock outputDir totalFiles startTime entries st w,
    NoDup (map fst (Minizip.fileTypes st)) ->
    wp (for_each (Minizip.extract_entry cwd clock outputDir totalFiles startTime)
          entries st)
       (Post (fun st' _ =>
                NoDup (map fst (Minizip.fileTypes st'))
                /\ forall k,
                     weight k (Minizip.fileTypes st')
                     = weight k (Minizip.fileTypes st)
                       + count_bucket k
                           (extracted cwd outputDir (map minizip_item entries) (root w)))
             (fun _ _ => False) (fun _ _ => False)) w.
Proof.
  intros cwd clock outputDir totalFiles startTime entries;
    induction entries as [|e entries IH]; intros st w Hst.
  - apply wp_ret; wp_simpl. split; [exact Hst|]. intro k.
    unfold count_bucket; simpl. lia.
  - simpl for_each. apply wp_bind; wp_simpl.
    unfold Minizip.extract_entry. simpl map. unfold minizip_item at 1.
    cbn [extracted]. unfold store.
    apply wp_try_catch; wp_simpl. apply wp_if; intro Hdir; rewrite Hdir.
    + wp_step. eapply wp_weaken; [apply IH; exact Hst | | auto | auto].
      wp_simpl. auto.
    + repeat wp_step; simpl root in *;
        repeat match goal with
               | H : ?x = _ |- context [?x] => rewrite H
               end;
        (eapply wp_weaken;
           [ apply IH; cbn [Minizip.fileTypes];
             first [exact Hst | apply add_keeps_nodup; exact Hst]
           | | auto | auto ]);
        wp_simpl; simpl root; cbn [Minizip.fileTypes];
        intros st' _ [Hn Hw]; (split; [exact Hn|]); intro k; rewrite Hw;
        rewrite ?add_weight, ?count_bucket_cons by exact Hst;
        try reflexivity;
        destruct (String.eqb k (bucket (Minizip.path e))) eqn:E; try lia;
        apply String.eqb_eq in E; subst k; lia.
Qed.

(** So does the table of the JSZip sample. *)
Lemma jszip_loop_counts :
  forall cwd clock outputDir totalFiles startTime files st w,
    NoDup (map fst (JSZip.fileTypes st)) ->
    wp (for_each (JSZip.extract_file cwd clock outputDir totalFiles startTime)
          files st)
       (Post (fun st' _ =>
                NoDup (map fst (JSZip.fileTypes st'))
                /\ forall k,
                     weight k (JSZip.fileTypes st')
                     = weight k (JSZip.fileTypes st)
                       + count_bucket k
                           (extracted cwd outputDir (map jszip_item files) (root w)))
             (fun _ _ => False) (fun _ _ => False)) w.
Proof.
  intros cwd clock outputDir totalFiles startTime files;
    induction files as [|z files IH]; intros st w Hst.
  - apply wp_ret; wp_simpl. split; [exact Hst|]. intro k.
    unfold count_bucket; simpl. lia.
  - simpl for_each. apply wp_bind; wp_simpl.
    unfold JSZip.extract_file. simpl map. unfold jszip_item at 1.
    cbn [extracted]. unfold store.
    apply wp_if; intro Hdir; rewrite Hdir.
    + wp_step. eapply wp_weaken; [apply IH; exact Hst | | auto | auto].
      wp_simpl. auto.
    + repeat wp_step; simpl root in *;
        repeat match goal with
               | H : ?x = _ |- context [?x] => rewrite H
               end;
        (eapply wp_weaken;
           [ apply IH; cbn [JSZip.fileTypes];
             first [exact Hst | apply add_keeps_nodup; exact Hst]
           | | auto | auto ]);
        wp_simpl; simpl root; cbn [JSZip.fileTypes];
        intros st' _ [Hn Hw]; (split; [exact Hn|]); intro k; rewrite Hw;
        rewrite ?add_weight, ?count_bucket_cons by exact Hst;
        try reflexivity;
        destruct (String.eqb k (bucket (JSZip.filePath z))) eqn:E; try lia;
        apply String.eqb_eq in E; subst k; lia.
Qed.

(** ** Tables: the order of the keys *)

Lemma set_set : forall k v1 v2 t,
  Table.set k v2 (Table.set k v1 t) = Table.set k v2 t.
Proof.
  intros k v1 v2 t; induction t as [|[k' v'] t IH]; simpl.
  - rewrite String.eqb_refl. reflexivity.
  - destruct (String.eqb k k') eqn:E; simpl.
    + rewrite String.eqb_refl. reflexivity.
    + rewrite E, IH. reflexivity.
Qed.

Lemma get_set_same : forall k v t, Table.get k (Table.set k v t) = Some v.
Proof.
  intros k v t; induction t as [|[k' v'] t IH]; simpl.
  - rewrite String.eqb_refl. reflexivity.
  - destruct (String.eqb k k') eqn:E; simpl.
    + rewrite String.eqb_refl. reflexivity.
    + rewrite E. exact IH.
Qed.

Lemma get_set_other : forall k k' v t,
  k' <> k -> Table.get k' (Table.set k v t) = Table.get k' t.
Proof.
  intros k k' v t Hne; induction t as [|[k0 v0] t IH]; simpl.
  - apply String.eqb_neq in Hne. rewrite Hne. reflexivity.
  - destruct (String.eqb k k0) eqn:E; simpl.
    + apply String.eqb_eq in E. subst k0.
      apply String.eqb_neq in Hne. rewrite Hne. reflexivity.
    + rewrite IH. reflexivity.
Qed.

(** Changing the value of a key that the table has commutes with setting
    another key. *)
Lemma set_comm : forall k v k2 v2 t,
  Table.get k t <> None -> k <> k2 ->
  Table.set k2 v2 (Table.set k v t) = Table.set k v (Table.set k2 v2 t).
Proof.
  intros k v k2 v2 t Hin Hne; induction t as [|[k0 v0] t IH]; simpl in *.
  - congruence.
  - assert (E2 : String.eqb k2 k = false) by (apply String.eqb_neq; congruence).
    assert (E1 : String.eqb k k2 = false) by (apply String.eqb_neq; congruence).
    destruct (String.eqb k k0) eqn:E; simpl.
    + apply String.eqb_eq in E. subst k0. rewrite E2. simpl.
      rewrite String.eqb_refl. reflexivity.
    + destruct (String.eqb k2 k0) eqn:E0; simpl.
      * rewrite E1. reflexivity.
      * rewrite E. rewrite IH by exact Hin. reflexivity.
Qed.

Lemma add_add : forall k v s,
  Table.add k 1 (Table.add k v s) = Table.add k (v + 1) s.
Proof.
  intros k v s. unfold Table.add, Table.get_or_0.
  rewrite get_set_same, set_set. f_equal. lia.
Qed.

Lemma add_comm : forall k n k2 v2 s,
  Table.get k s <> None -> k <> k2 ->
  Table.add k2 v2 (Table.add k n s) = Table.add k n (Table.add k2 v2 s).
Proof.
  intros k n k2 v2 s Hin Hne. unfold Table.add, Table.get_or_0.
  rewrite (get_set_other k k2) by congruence.
  rewrite (get_set_other k2 k) by congruence.
  apply set_comm; assumption.
Qed.

Lemma get_add_same : forall k n s, Table.get k (Table.add k n s) <> None.
Proof. intros k n s. unfold Table.add. rewrite get_set_same. discriminate. Qed.

Lemma get_add_other : forall k k' n s,
  k' <> k -> Table.get k' (Table.add k n s) = Table.get k' s.
Proof. intros k k' n s H. unfold Table.add. apply get_set_other; exact H. Qed.

Lemma merge_add_present : forall sub k n s,
  Table.get k s <> None -> ~ In k (map fst sub) ->
  Table.merge (Table.add k n s) sub = Table.add k n (Table.merge s sub).
Proof.
  unfold Table.merge.
  induction sub as [|[k2 v2] sub IH]; intros k n s Hin Hnot; [reflexivity|].
  simpl in *.
  assert (Hne : k <> k2) by (intros ->; tauto).
  rewrite add_comm by assumption.
  apply IH; [|tauto].
  rewrite get_add_other by exact Hne. exact Hin.
Qed.

(** Counting one more file after a table is merged, or before. *)
Lemma merge_add : forall sub k s,
  NoDup (map fst sub) ->
  Table.merge s (Table.add k 1 sub) = Table.add k 1 (Table.merge s sub).
Proof.
  induction sub as [|[k' v'] sub IH]; intros k s Hnodup; [reflexivity|].
  inversion Hnodup as [|? ? Hnotin Hnodup']; subst.
  unfold Table.add at 1. unfold Table.get_or_0. simpl Table.get. simpl Table.set.
  destruct (String.eqb k k') eqn:E.
  - apply String.eqb_eq in E. subst k'.
    unfold Table.merge. simpl fold_left.
    rewrite <- add_add.
    apply (merge_add_present sub k 1 (Table.add k v' s));
      [apply get_add_same | exact Hnotin].
  - unfold Table.merge. simpl fold_left.
    apply (IH k (Table.add k' v' s) Hnodup').
Qed.

Lemma tally_nodup : forall names t,
  NoDup (map fst t) ->
  NoDup (map fst (fold_left (fun t name => Table.add (bucket name) 1 t) names t)).
Proof.
  induction names as [|n names IH]; intros t H; [exact H|].
  simpl. apply IH, add_keeps_nodup, H.
Qed.

(** Merging the table of some names is counting them one by one. *)
Lemma merge_tally : forall names s,
  Table.merge s (tally_of names)
  = fold_left (fun t name => Table.add (bucket name) 1 t) names s.
Proof.
  induction names as [|n names IH] using rev_ind; intro s; [reflexivity|].
  unfold tally_of. rewrite !fold_left_app. simpl.
  rewrite merge_add by (apply tally_nodup; constructor).
  f_equal. apply IH.
Qed.

(** The table of a directory counts its files one by one in the order of
    the walk. *)
Lemma stats_of_dir_tally : forall dir,
  Fflate.stats_of_dir dir = tally_of (file_names dir).
Proof.
  induction dir as [d|entries IH] using node_induction; [reflexivity|].
  unfold tally_of. cbn [Fflate.stats_of_dir file_names].
  generalize (@nil (string * nat)) as stats.
  induction IH as [|[name child] es Hchild Hes IHes]; intro stats; [reflexivity|].
  cbv beta iota. destruct child as [d|sub].
  - simpl fold_left. apply IHes.
  - rewrite fold_left_app. simpl snd in Hchild. rewrite Hchild, merge_tally.
    apply IHes.
Qed.

Lemma jszip_loop_order :
  forall cwd clock outputDir totalFiles startTime files st w,
    wp (for_each (JSZip.extract_file cwd clock outputDir totalFiles startTime)
          files st)
       (Post (fun st' _ =>
                JSZip.fileTypes st'
                = fold_left (fun t name => Table.add (bucket name) 1 t)
                    (extracted cwd outputDir (map jszip_item files) (root w))
                    (JSZip.fileTypes st))
             (fun _ _ => False) (fun _ _ => False)) w.
Proof.
  intros cwd clock outputDir totalFiles startTime files;
    induction files as [|z files IH]; intros st w.
  - apply wp_ret; wp_simpl. reflexivity.
  - simpl for_each. apply wp_bind; wp_simpl.
    unfold JSZip.extract_file. simpl map. unfold jszip_item at 1.
    cbn [extracted]. unfold store.
    apply wp_if; intro Hdir; rewrite Hdir.
    + wp_step. eapply wp_weaken; [apply IH | | auto | auto].
      wp_simpl. auto.
    + repeat wp_step; simpl root in *;
        repeat match goal with
               | H : ?x = _ |- context [?x] => rewrite H
               end;
        (eapply wp_weaken; [ apply IH | | auto | auto ]);
        wp_simpl; simpl root; cbn [JSZip.fileTypes];
        intros st' _ Hst'; rewrite Hst'; reflexivity.
Qed.

Lemma file_type_lines_app : forall a b,
  file_type_lines (a ++ b) = file_type_lines a ++ file_type_lines b.
Proof.
  induction a as [|l a IH]; intro b; [reflexivity|].
  destruct l; simpl; rewrite ?IH; reflexivity.
Qed.

Lemma file_type_lines_table : forall l : Table.t,
  file_type_lines (map (fun kv => FileType (fst kv) (snd kv)) l) = l.
Proof.
  induction l as [|[k v] l IH]; simpl; [|rewrite IH]; reflexivity.
Qed.

Ltac types_simpl :=
  simpl console;
  rewrite ?file_type_lines_app, ?file_type_lines_table;
  simpl file_type_lines; rewrite ?app_nil_r.

(** The loops print no line of the report. *)
Lemma jszip_loop_no_report :
  forall cwd clock outputDir totalFiles startTime files st w,
    wp (for_each (JSZip.extract_file cwd clock outputDir totalFiles startTime)
          files st)
       (Post (fun _ w' => file_type_lines (console w') = file_type_lines (console w))
             (fun _ _ => False) (fun _ _ => False)) w.
Proof.
  intros cwd clock outputDir totalFiles startTime files st w.
  apply (wp_for_each _ _ (JSZip.extract_file cwd clock outputDir totalFiles startTime)
           (fun _ _ w' => file_type_lines (console w') = file_type_lines (console w)));
    [|reflexivity].
  intros z l s w' H. unfold JSZip.extract_file.
  repeat wp_step; types_simpl; rewrite ?H; reflexivity.
Qed.

Lemma fflate_loop_no_report : forall cwd outputDir files c w,
  wp (for_each (Fflate.extract_entry cwd outputDir) files c)
     (Post (fun _ w' => file_type_lines (console w') = file_type_lines (console w))
           (fun _ _ => True) (fun _ _ => False)) w.
Proof.
  intros cwd outputDir files c w.
  apply (wp_for_each _ _ (Fflate.extract_entry cwd outputDir)
           (fun _ _ w' => file_type_lines (console w') = file_type_lines (console w)));
    [|reflexivity].
  intros [filename contents] l s w' H. unfold Fflate.extract_entry.
  repeat wp_step; types_simpl; rewrite ?H; auto.
Qed.

Opaque tally_of file_names Fflate.stats_of_dir.

(** C7, as the samples have it.  The report of the extension counts is the
    statistics table sorted by descending count with a stable sort whose
    comparator looks at the counts only: extensions with the same count stay
    in the order of the table.  In the JSZip sample the table is built while
    the entries are extracted, so that order is the one in which the
    extraction stored the first file of each extension.  In the fflate
    sample the table is built by the walk of the output directory after the
    extraction, so that order is the one in which the walk, which lists each
    directory by name, meets the first file of each extension. *)
Theorem summary_order_follows_the_table :
  (forall table : Table.t,
     Permutation (Table.sort table) table
     /\ StronglySorted at_least (Table.sort table)
     /\ forall c, with_count c (Table.sort table) = with_count c table)
  /\ (forall cwd clock loadAsync inputFile outputDir fs data files s,
        Fs.readFileSync cwd fs inputFile = Ok data ->
        loadAsync data = Ok files ->
        let r := run (JSZip.extractZip cwd clock loadAsync inputFile outputDir) fs in
        returned r = Some s ->
        file_type_lines (output r) = JSZip.s_fileTypes s
        /\ JSZip.s_fileTypes s
           = Table.sort
               (tally_of (extracted cwd outputDir (map jszip_item files) fs)))
  /\ (forall cwd clock unzipSync inputFile outputDir fs s,
        let r := run (Fflate.extractZipFile cwd clock unzipSync inputFile outputDir) fs in
        returned r = Some s ->
        file_type_lines (output r) = Fflate.fileTypes s
        /\ exists listed,
             Fs.readdir cwd (final_fs r) outputDir = Ok listed
             /\ Fflate.fileTypes s
                = Table.sort (tally_of (file_names (Fs.Dir listed)))).
Proof.
  split; [|split].
  - intro table. split; [apply sort_perm|].
    split; [apply sort_sorted | intro c; apply sort_with_count].
  - intros cwd clock loadAsync inputFile outputDir fs data files s
           Hread Hload r Hret.
    assert (H : wp (JSZip.extractZip cwd clock loadAsync inputFile outputDir)
                  (Post (fun s' w' =>
                           file_type_lines (console w') = JSZip.s_fileTypes s'
                           /\ JSZip.s_fileTypes s'
                              = Table.sort
                                  (tally_of (extracted cwd outputDir
                                               (map jszip_item files) fs)))
                        (fun _ _ => True) (fun _ _ => True)) (start fs)).
    { unfold JSZip.extractZip.
      repeat wp_step; auto; use_equations.
      eapply wp_weaken;
        [ apply wp_and; [apply jszip_loop_order | apply jszip_loop_no_report]
        | | wp_simpl; intros ? ? []; contradiction
        | wp_simpl; intros ? ? []; contradiction ].
      wp_simpl. simpl root. cbn [JSZip.fileTypes]. intros st w' [Ht Hl].
      repeat wp_step. apply wp_print_each; wp_simpl. repeat wp_step.
      cbn [JSZip.s_fileTypes]. revert Hl. types_simpl. intro Hl.
      rewrite Hl, Ht. auto. }
    unfold wp, holds in H. subst r. unfold run in *.
    destruct (JSZip.extractZip _ _ _ _ _ _) as [[s'|e|n] w]; simpl in *;
      try discriminate.
    injection Hret as <-. exact H.
  - intros cwd clock unzipSync inputFile outputDir fs s r Hret.
    assert (H : wp (Fflate.extractZipFile cwd clock unzipSync inputFile outputDir)
                  (Post (fun s' w' =>
                           file_type_lines (console w') = Fflate.fileTypes s'
                           /\ exists listed,
                                Fs.readdir cwd (root w') outputDir = Ok listed
                                /\ Fflate.fileTypes s'
                                   = Table.sort
                                       (tally_of (file_names (Fs.Dir listed))))
                        (fun _ _ => True) (fun _ _ => True)) (start fs)).
    { unfold Fflate.extractZipFile.
      repeat wp_step; auto; simpl root in *;
        (eapply wp_weaken;
           [ apply fflate_loop_no_report
           | | wp_simpl; intros; repeat wp_step; auto | auto ]);
        wp_simpl; intros c w' Hl; unfold Fflate.getFileTypeStats;
        repeat wp_step; auto;
        apply wp_print_each; wp_simpl; repeat wp_step;
        simpl root in *; cbn [Fflate.fileTypes]; revert Hl; types_simpl;
        intro Hl; rewrite Hl; (split; [reflexivity|]);
        eexists; (split; [eassumption|]);
        rewrite stats_of_dir_tally; reflexivity. }
    unfold wp, holds in H. subst r. unfold run in *.
    destruct (Fflate.extractZipFile _ _ _ _ _ _) as [[s'|e|n] w]; simpl in *;
      try discriminate.
    injection Hret as <-. exact H.
Qed.

Transparent tally_of file_names Fflate.stats_of_dir.

(** In the JSZip sample three [.txt] files met first stay before three
    [.md] files; in the fflate sample [a.md] is listed before [b.txt],
    which was extracted first. *)
Lemma summary_order_witness :
  file_type_lines
    (output (run (JSZip.extractZip example_cwd example_clock
                    (fun _ => Ok seven_members) "in.zip" "out") example_fs))
  = [(".txt", 3); (".md", 3); (".png", 1)]
  /\ file_type_lines
       (output (run (Fflate.extractZipFile example_cwd example_clock
                       (fun _ => Ok two_extensions) "in.zip" "out")
                    example_fs_out))
     = [(".md", 1); (".txt", 1)].
Proof.
  destruct summary_order_follows_the_table as (_ & Hjszip & Hfflate). split.
  - destruct (returned (run (JSZip.extractZip example_cwd example_clock
                               (fun _ => Ok seven_members) "in.zip" "out")
                            example_fs)) as [s|] eqn:Hret;
      [|vm_compute in Hret; discriminate].
    destruct (Hjszip example_cwd example_clock (fun _ => Ok seven_members)
                "in.zip" "out" example_fs (text "PK") seven_members s
                eq_refl eq_refl Hret) as [Hl Ht].
    rewrite Hl, Ht. reflexivity.
  - destruct (returned (run (Fflate.extractZipFile example_cwd example_clock
                               (fun _ => Ok two_extensions) "in.zip" "out")
                            example_fs_out)) as [s|] eqn:Hret;
      [|vm_compute in Hret; discriminate].
    destruct (Hfflate example_cwd example_clock (fun _ => Ok two_extensions)
                "in.zip" "out" example_fs_out s Hret)
      as (Hl & listed & Hdir & Ht).
    rewrite Hl, Ht. vm_compute in Hdir. injection Hdir as <-. reflexivity.
Defined.

(** C9, as the samples have it.  In the minizip and JSZip samples the
    statistics are built up while the entries are extracted and count exactly
    the entries stored in this session.  In the fflate sample they come from a walk of
    the output directory after the extraction and count every file that is
    in it or below it at that time; no file is removed by the extraction, so
    a file that was below the output directory before the session is
    counted in the bucket of its name. *)
Theorem extension_statistics_source :
  (forall cwd clock instantiate openArchive close inputFile outputDir fs data entries s,
     instantiate = Ok tt ->
     Fs.readFileSync cwd fs inputFile = Ok data ->
     openArchive data = Ok entries ->
     returned (run (Minizip.extractZip cwd clock instantiate openArchive close inputFile outputDir) fs)
     = Some s ->
     forall k,
       Table.get_or_0 k (Minizip.s_fileTypes s)
       = count_bucket k (extracted cwd outputDir (map minizip_item entries) fs))
  /\ (forall cwd clock loadAsync inputFile outputDir fs data files s,
        Fs.readFileSync cwd fs inputFile = Ok data ->
        loadAsync data = Ok files ->
        returned (run (JSZip.extractZip cwd clock loadAsync inputFile outputDir) fs)
        = Some s ->
        forall k,
          Table.get_or_0 k (JSZip.s_fileTypes s)
          = count_bucket k (extracted cwd outputDir (map jszip_item files) fs))
  /\ (forall cwd clock unzipSync inputFile outputDir fs s,
        let r := run (Fflate.extractZipFile cwd clock unzipSync inputFile outputDir) fs in
        returned r = Some s ->
        exists entries,
          Fs.readdir cwd (final_fs r) outputDir = Ok entries
          /\ (forall k,
                Table.get_or_0 k (Fflate.fileTypes s)
                = count_bucket k (file_names (Fs.Dir entries)))
          /\ (forall p d,
                p <> [] ->
                Fs.read_file fs (Fs.resolve cwd outputDir ++ p) = Some d ->
                1 <= Table.get_or_0 (bucket (last p "")) (Fflate.fileTypes s))).
Proof.
  split; [|split].
  - intros cwd clock instantiate openArchive close inputFile outputDir fs data entries s
           Hready
           Hread Hopen Hret k.
    assert (H : wp (Minizip.extractZip cwd clock instantiate openArchive close inputFile outputDir)
                  (Post (fun s' _ =>
                           forall k,
                             Table.get_or_0 k (Minizip.s_fileTypes s')
                             = count_bucket k
                                 (extracted cwd outputDir (map minizip_item entries) fs))
                        (fun _ _ => True) (fun _ _ => True)) (start fs)).
    { unfold Minizip.extractZip.
      repeat wp_step; auto; use_equations.
      eapply wp_weaken;
        [ apply minizip_loop_counts; constructor
        | | wp_simpl; intros; contradiction | wp_simpl; intros; contradiction ].
      wp_simpl. simpl root. cbn [Minizip.fileTypes]. intros st w' [Hn Hw].
      repeat wp_step; auto. apply wp_print_each; wp_simpl. repeat wp_step.
      cbn [Minizip.s_fileTypes]. intro k'.
      rewrite sort_get_or_0 by exact Hn. rewrite Hw. reflexivity. }
    unfold wp, holds in H. unfold run in Hret.
    destruct (Minizip.extractZip _ _ _ _ _ _ _ _) as [[s'|e|n] w]; simpl in *;
      try discriminate.
    injection Hret as <-. apply H.
  - intros cwd clock loadAsync inputFile outputDir fs data files s
           Hread Hload Hret k.
    assert (H : wp (JSZip.extractZip cwd clock loadAsync inputFile outputDir)
                  (Post (fun s' _ =>
                           forall k,
                             Table.get_or_0 k (JSZip.s_fileTypes s')
                             = count_bucket k
                                 (extracted cwd outputDir (map jszip_item files) fs))
                        (fun _ _ => True) (fun _ _ => True)) (start fs)).
    { unfold JSZip.extractZip.
      repeat wp_step; auto; use_equations.
      eapply wp_weaken;
        [ apply jszip_loop_counts; constructor
        | | wp_simpl; intros; contradiction | wp_simpl; intros; contradiction ].
      wp_simpl. simpl root. cbn [JSZip.fileTypes]. intros st w' [Hn Hw].
      repeat wp_step. apply wp_print_each; wp_simpl. repeat wp_step.
      cbn [JSZip.s_fileTypes]. intro k'.
      rewrite sort_get_or_0 by exact Hn. rewrite Hw. reflexivity. }
    unfold wp, holds in H. unfold run in Hret.
    destruct (JSZip.extractZip _ _ _ _ _ _) as [[s'|e|n] w]; simpl in *;
      try discriminate.
    injection Hret as <-. apply H.
  - intros cwd clock unzipSync inputFile outputDir fs s r Hret.
    assert (H : wp (Fflate.extractZipFile cwd clock unzipSync inputFile outputDir)
                  (Post (fun s' w' =>
                           exists entries,
                             Fs.readdir cwd (root w') outputDir = Ok entries
                             /\ Fflate.fileTypes s'
                                = Table.sort (Fflate.stats_of_dir (Fs.Dir entries))
                             /\ files_kept fs (root w'))
                        (fun _ _ => True) (fun _ _ => True)) (start fs)).
    { unfold Fflate.extractZipFile.
      repeat wp_step; auto; simpl root in *;
        (eapply wp_weaken;
           [ apply (fflate_loop_keeps_files cwd outputDir fs);
             first [ apply files_kept_refl
                   | eapply files_kept_mkdir; [apply files_kept_refl|eassumption] ]
           | | wp_simpl; intros; repeat wp_step; auto | auto ]);
        wp_simpl; intros c w' Hkept; unfold Fflate.getFileTypeStats;
        repeat wp_step; auto;
        apply wp_print_each; wp_simpl; repeat wp_step;
        simpl root in *; cbn [Fflate.fileTypes]; eauto. }
    unfold wp, holds in H. subst r. unfold run in *.
    destruct (Fflate.extractZipFile _ _ _ _ _ _) as [[s'|e|n] w]; simpl in *;
      try discriminate.
    injection Hret as <-. destruct H as (entries & Hdir & Htypes & Hkept).
    exists entries. split; [exact Hdir|].
    destruct (stats_of_dir_spec (Fs.Dir entries)) as [Hn Hw].
    assert (Hcount : forall k,
      Table.get_or_0 k (Fflate.fileTypes s')
      = count_bucket k (file_names (Fs.Dir entries))).
    { intro k. rewrite Htypes, sort_get_or_0 by exact Hn. apply Hw. }
    split; [exact Hcount|].
    intros p d Hp Hfile. rewrite Hcount.
    destruct (Hkept _ _ Hfile) as [d' Hd'].
    rewrite (readdir_read_file _ _ _ _ p Hdir) in Hd'.
    apply count_bucket_in. eapply read_file_counted; eassumption.
Qed.

(** In the minizip sample the two [.txt] entries that are stored are counted,
    the entry that fails is not; in the fflate sample the file [old.log],
    which the session did not write, is counted. *)
Lemma extension_statistics_witness :
  (exists s,
     returned (run (Minizip.extractZip example_cwd example_clock (Ok tt)
                      (fun _ => Ok archive_with_bad_entry) (Ok tt) "in.zip" "out")
                   example_fs_out) = Some s
     /\ Table.get_or_0 ".txt" (Minizip.s_fileTypes s) = 2
     /\ Table.get_or_0 ".bin" (Minizip.s_fileTypes s) = 0)
  /\ (exists s,
        returned (run (Fflate.extractZipFile example_cwd example_clock
                         (fun _ => Ok one_file) "in.zip" "out")
                      fs_with_old_file) = Some s
        /\ 1 <= Table.get_or_0 ".log" (Fflate.fileTypes s)).
Proof.
  destruct extension_statistics_source as (Hminizip & _ & Hfflate). split.
  - destruct (returned (run (Minizip.extractZip example_cwd example_clock (Ok tt)
                               (fun _ => Ok archive_with_bad_entry) (Ok tt) "in.zip" "out")
                            example_fs_out)) as [s|] eqn:Hret;
      [|vm_compute in Hret; discriminate].
    exists s. split; [reflexivity|].
    pose proof (Hminizip example_cwd example_clock (Ok tt)
                  (fun _ => Ok archive_with_bad_entry) (Ok tt) "in.zip" "out"
                  example_fs_out (text "PK") archive_with_bad_entry s
                  eq_refl eq_refl eq_refl Hret) as Hcount.
    split; rewrite Hcount; reflexivity.
  - destruct (returned (run (Fflate.extractZipFile example_cwd example_clock
                               (fun _ => Ok one_file) "in.zip" "out")
                            fs_with_old_file)) as [s|] eqn:Hret;
      [|vm_compute in Hret; discriminate].
    exists s. split; [reflexivity|].
    destruct (Hfflate example_cwd example_clock (fun _ => Ok one_file)
                "in.zip" "out" fs_with_old_file s Hret)
      as (entries & _ & _ & Hold).
    apply (Hold ["old.log"] (text "yesterday")); [discriminate|reflexivity].
Defined.

(** C9, counterexample: the output directory holds [old.log] before the
    session, the archive holds [a.txt] only; the fflate sample reports one
    [.txt] file and one [.log] file (the walk lists [a.txt] before
    [old.log]). *)
Lemma statistics_counterexample :
  let r := run (Fflate.extractZipFile example_cwd example_clock
                  (fun _ => Ok one_file) "in.zip" "out") fs_with_old_file in
  exit_code r = 0
  /\ count_bucket ".log" (map fst one_file) = 0
  /\ file_type_lines (output r) = [(".txt", 1); (".log", 1)].
Proof. vm_compute. repeat split; reflexivity. Qed.

(** ** Splitting and joining paths *)

Lemma split_nonempty : forall c s, Str.split c s <> [].
Proof.
  intros c s; destruct s as [|x s]; simpl; [discriminate|].
  destruct (Ascii.eqb x c); [discriminate|].
  destruct (Str.split c s); discriminate.
Qed.

Lemma split_app_sep : forall c a b,
  Str.split c (a ++ String c b)%string = Str.split c a ++ Str.split c b.
Proof.
  intros c a b; induction a as [|x a IH]; simpl.
  - rewrite Ascii.eqb_refl. reflexivity.
  - rewrite IH. destruct (Ascii.eqb x c); [reflexivity|].
    destruct (Str.split c a) eqn:E; [|reflexivity].
    exfalso. exact (split_nonempty c a E).
Qed.

(** The pieces of a split do not contain the separator. *)
Lemma split_pieces : forall c s,
  Forall (fun piece => Str.split c piece = [piece]) (Str.split c s).
Proof.
  intros c s; induction s as [|x s IH]; simpl.
  - repeat constructor.
  - destruct (Ascii.eqb x c) eqn:E; [constructor; [reflexivity|exact IH]|].
    destruct (Str.split c s) as [|y ys]; [repeat constructor; simpl; rewrite E; reflexivity|].
    inversion IH as [|? ? Hy Hys]; subst. constructor; [|exact Hys].
    simpl. rewrite E, Hy. reflexivity.
Qed.

Lemma split_concat : forall c l,
  l <> [] -> Forall (fun piece => Str.split c piece = [piece]) l ->
  Str.split c (String.concat (String c "") l) = l.
Proof.
  intros c l; induction l as [|x l IH]; intros Hne H; [congruence|].
  inversion H as [|? ? Hx Hl]; subst.
  destruct l as [|y l]; [exact Hx|].
  change (String.concat (String c "") (x :: y :: l))
    with (x ++ String c (String.concat (String c "") (y :: l)))%string.
  rewrite split_app_sep, Hx, IH; [reflexivity|discriminate|exact Hl].
Qed.

Lemma split_app_last : forall c a,
  Str.split c (a ++ String c "")%string = Str.split c a ++ [""].
Proof. intros c a. rewrite split_app_sep. reflexivity. Qed.

Lemma starts_with_app : forall c a b,
  a <> "" -> Str.starts_with c (a ++ b)%string = Str.starts_with c a.
Proof. intros c [|x a] b H; [congruence|reflexivity]. Qed.

Lemma piece_not_sep : forall c x s,
  Str.split c (String x s) = [String x s] -> Ascii.eqb x c = false.
Proof.
  intros c x s H. simpl in H. destruct (Ascii.eqb x c); [|reflexivity].
  injection H as H _. discriminate.
Qed.

(** ** The segment stack of [normalizeString] *)

Lemma push_name : forall a res seg,
  is_name seg = true -> Path.push_segment a res seg = seg :: res.
Proof.
  intros a res seg H. unfold is_name in H. unfold Path.push_segment, Path.dotdot.
  destruct (String.eqb seg ""), (String.eqb seg "."), (String.eqb seg "..");
    try discriminate. reflexivity.
Qed.

Lemma push_skip : forall a res seg,
  String.eqb seg "" || String.eqb seg "." = true ->
  Path.push_segment a res seg = res.
Proof. intros a res seg H. unfold Path.push_segment. rewrite H. reflexivity. Qed.

Lemma push_stack_ok : forall a res seg,
  stack_ok res -> stack_ok (Path.push_segment a res seg).
Proof.
  intros a res seg H. unfold Path.push_segment, Path.dotdot.
  destruct (String.eqb seg "" || String.eqb seg ".") eqn:E; [exact H|].
  destruct (String.eqb seg "..") eqn:E2.
  - destruct res as [|last res]; [destruct a; repeat constructor|].
    inversion H; subst.
    destruct (String.eqb last ".."); [destruct a|]; auto.
    constructor; [reflexivity|exact H].
  - constructor; assumption.
Qed.

Lemma normalize_segments_ok : forall a segs res,
  stack_ok res -> stack_ok (Path.normalize_segments a res segs).
Proof.
  unfold Path.normalize_segments.
  induction segs as [|seg segs IH]; intros res H; simpl; [exact H|].
  apply IH, push_stack_ok, H.
Qed.

Lemma normalize_segments_app : forall a res s1 s2,
  Path.normalize_segments a res (s1 ++ s2)
  = Path.normalize_segments a (Path.normalize_segments a res s1) s2.
Proof. intros. unfold Path.normalize_segments. apply fold_left_app. Qed.

Lemma normalize_segments_cons : forall a res seg segs,
  Path.normalize_segments a res (seg :: segs)
  = Path.normalize_segments a (Path.push_segment a res seg) segs.
Proof. reflexivity. Qed.

(** Pushing the segments of a normalized relative path on an absolute stack
    gives what the segments of the path itself give. *)
Lemma renormalize_relative : forall segs base,
  Path.normalize_segments false base
    (List.rev (Path.normalize_segments true [] segs))
  = Path.normalize_segments false base segs.
Proof.
  intros segs base; induction segs as [|seg segs IH] using rev_ind;
    [reflexivity|].
  rewrite !normalize_segments_app. cbn [Path.normalize_segments fold_left].
  rewrite <- IH.
  pose proof (normalize_segments_ok true segs [] (Forall_nil _)) as Hok.
  set (R := Path.normalize_segments true [] segs) in *.
  destruct (String.eqb seg "" || String.eqb seg ".") eqn:E;
    [rewrite !push_skip by exact E; reflexivity|].
  destruct (String.eqb seg "..") eqn:E2.
  - apply String.eqb_eq in E2. subst seg.
    destruct R as [|last R']; [reflexivity|].
    inversion Hok as [|? ? Hlast _]; subst.
    destruct (String.eqb last "..") eqn:E3.
    + replace (Path.push_segment true (last :: R') "..") with (".." :: last :: R')
        by (unfold Path.push_segment, Path.dotdot; simpl; rewrite E3; reflexivity).
      cbn [List.rev]. rewrite !normalize_segments_app. reflexivity.
    + replace (Path.push_segment true (last :: R') "..") with R'
        by (unfold Path.push_segment, Path.dotdot; simpl; rewrite E3; reflexivity).
      cbn [List.rev]. rewrite normalize_segments_app.
      cbn [Path.normalize_segments fold_left].
      rewrite (push_name false _ last)
        by (unfold is_name; rewrite Hlast, E3; reflexivity).
      unfold Path.push_segment, Path.dotdot. simpl. rewrite E3. reflexivity.
  - assert (Hname : is_name seg = true)
      by (unfold is_name; rewrite E, E2; reflexivity).
    rewrite !push_name by exact Hname.
    cbn [List.rev]. rewrite normalize_segments_app.
    cbn [Path.normalize_segments fold_left].
    rewrite push_name by exact Hname. reflexivity.
Qed.

Lemma push_names : forall a segs res,
  forallb is_name segs = true ->
  Path.normalize_segments a res segs = List.rev segs ++ res.
Proof.
  induction segs as [|seg segs IH]; intros res H; [reflexivity|].
  simpl in H. apply andb_prop in H. destruct H as [Hseg Hsegs].
  rewrite normalize_segments_cons, push_name, IH by assumption.
  simpl. rewrite <- app_assoc. reflexivity.
Qed.

Lemma absolute_stack_names : forall segs res,
  forallb is_name res = true ->
  forallb is_name (Path.normalize_segments false res segs) = true.
Proof.
  induction segs as [|seg segs IH]; intros res H; [exact H|].
  rewrite normalize_segments_cons. apply IH.
  unfold Path.push_segment, Path.dotdot.
  destruct (String.eqb seg "" || String.eqb seg ".") eqn:E; [exact H|].
  destruct (String.eqb seg "..") eqn:E2.
  - destruct res as [|last res]; [reflexivity|].
    simpl in H. apply andb_prop in H. destruct H as [Hlast Hres].
    destruct (String.eqb last ".."); [simpl; rewrite Hlast; exact Hres | exact Hres].
  - simpl. rewrite H. unfold is_name. rewrite E, E2. reflexivity.
Qed.

Lemma forallb_reverse : forall A (f : A -> bool) l,
  forallb f (List.rev l) = forallb f l.
Proof.
  intros A f l; induction l as [|x l IH]; [reflexivity|].
  simpl. rewrite forallb_app, IH. simpl. rewrite andb_true_r. apply andb_comm.
Qed.

Lemma renormalize_absolute : forall segs,
  Path.normalize_segments false []
    (List.rev (Path.normalize_segments false [] segs))
  = Path.normalize_segments false [] segs.
Proof.
  intro segs.
  pose proof (absolute_stack_names segs [] eq_refl) as H.
  rewrite push_names by (rewrite forallb_reverse; exact H).
  rewrite rev_involutive, app_nil_r. reflexivity.
Qed.

(** The segments of the stack come from the path, or are [".."]. *)
Lemma stack_pieces : forall (P : string -> Prop) a segs res,
  P ".." -> Forall P res -> Forall P segs ->
  Forall P (Path.normalize_segments a res segs).
Proof.
  intros P a segs; induction segs as [|seg segs IH]; intros res Hdd Hres Hsegs;
    [exact Hres|].
  inversion Hsegs; subst. rewrite normalize_segments_cons. apply IH; auto.
  unfold Path.push_segment, Path.dotdot.
  destruct (String.eqb seg "" || String.eqb seg "."); [exact Hres|].
  destruct (String.eqb seg "..").
  - destruct res as [|last res]; [destruct a; repeat constructor; exact Hdd|].
    inversion Hres; subst.
    destruct (String.eqb last ".."); [destruct a|]; auto.
  - constructor; assumption.
Qed.

Lemma skip_empty_segments : forall a res pre segs post,
  (pre = [] \/ pre = [""]) -> (post = [] \/ post = [""]) ->
  Path.normalize_segments a res (pre ++ segs ++ post)
  = Path.normalize_segments a res segs.
Proof.
  intros a res pre segs post [-> | ->] [-> | ->];
    rewrite ?app_nil_r; simpl app; rewrite ?normalize_segments_cons,
      ?normalize_segments_app; try reflexivity.
Qed.

Lemma concat_nonempty : forall sep x l,
  x <> "" -> String.concat sep (x :: l) <> "".
Proof.
  intros sep [|c x] l H; [congruence|].
  destruct l; simpl; discriminate.
Qed.

Lemma concat_starts_with : forall c sep x l,
  x <> "" ->
  Str.starts_with c (String.concat sep (x :: l)) = Str.starts_with c x.
Proof.
  intros c sep [|y x] l H; [congruence|]. destruct l; reflexivity.
Qed.

(** Resolving a normalized path gives what resolving the path gives. *)
Lemma resolve_normalize : forall cwd p,
  p <> "" -> Fs.resolve cwd (Path.normalize p) = Fs.resolve cwd p.
Proof.
  intros cwd p Hp. unfold Path.normalize, Path.normalizeString.
  rewrite (is_empty_false p Hp).
  set (abs := Str.starts_with Str.slash p).
  set (stack := Path.normalize_segments (negb abs) [] (Str.split Str.slash p)).
  assert (Hok : stack_ok stack) by (apply normalize_segments_ok; constructor).
  assert (Hpieces : Forall (fun piece => Str.split Str.slash piece = [piece])
                           (List.rev stack)).
  { apply Forall_rev, stack_pieces; [reflexivity|constructor|apply split_pieces]. }
  assert (Hsame : Path.normalize_segments false
                    (if abs then [] else List.rev cwd) (List.rev stack)
                  = Path.normalize_segments false
                      (if abs then [] else List.rev cwd) (Str.split Str.slash p)).
  { subst stack. destruct abs; simpl negb.
    - apply renormalize_absolute.
    - apply renormalize_relative. }
  unfold Fs.resolve at 2. fold abs. rewrite <- Hsame.
  destruct (List.rev stack) as [|x l] eqn:Hstack.
  - simpl String.concat. simpl Str.is_empty. cbv iota.
    destruct abs; [reflexivity|].
    destruct (Str.ends_with Str.slash p); unfold Fs.resolve; simpl;
      rewrite ?push_skip by reflexivity; reflexivity.
  - assert (Hx : x <> "").
    { assert (Hin : In x stack) by (apply in_rev; rewrite Hstack; left; reflexivity).
      unfold stack_ok in Hok. rewrite Forall_forall in Hok.
      specialize (Hok x Hin). intros ->. discriminate. }
    rewrite (is_empty_false _ (concat_nonempty "/" x l Hx)).
    assert (Hx0 : Str.starts_with Str.slash x = false).
    { inversion Hpieces as [|? ? Hpx _]; subst.
      destruct x as [|c x]; [congruence|]. simpl.
      exact (piece_not_sep _ _ _ Hpx). }
    set (str := String.concat "/" (x :: l)) in *.
    assert (Hsplit : Str.split Str.slash str = x :: l)
      by (apply (split_concat Str.slash); [discriminate | exact Hpieces]).
    assert (Hstr : str <> "") by (apply concat_nonempty; exact Hx).
    assert (Hstart : Str.starts_with Str.slash str = false)
      by (unfold str; rewrite concat_starts_with by exact Hx; exact Hx0).
    unfold Fs.resolve. f_equal. unfold Str.slash in *.
    destruct abs, (Str.ends_with "/"%char p).
    + change (Str.starts_with "/"%char ("/" ++ (str ++ "/"))%string) with true.
      cbv iota.
      change (Str.split "/"%char ("/" ++ (str ++ "/"))%string)
        with ("" :: Str.split "/"%char (str ++ "/")%string).
      rewrite (split_app_last "/"%char str), Hsplit.
      apply (skip_empty_segments false [] [""] (x :: l) [""]); auto.
    + change (Str.starts_with "/"%char ("/" ++ str)%string) with true.
      cbv iota.
      change (Str.split "/"%char ("/" ++ str)%string)
        with ("" :: Str.split "/"%char str).
      rewrite Hsplit, normalize_segments_cons, push_skip by reflexivity.
      reflexivity.
    + rewrite starts_with_app, Hstart by exact Hstr.
      rewrite (split_app_last "/"%char str), Hsplit.
      apply (skip_empty_segments false (List.rev cwd) [] (x :: l) [""]); auto.
    + rewrite Hstart, Hsplit. reflexivity.
Qed.

Lemma join_resolve : forall cwd outputDir name,
  outputDir <> "" ->
  Fs.resolve cwd (Path.join outputDir name)
  = List.rev (Path.normalize_segments false (List.rev (Fs.resolve cwd outputDir))
                (Str.split Str.slash name)).
Proof.
  intros cwd outputDir name Hout. unfold Path.join.
  rewrite (is_empty_false outputDir Hout).
  destruct name as [|c name]; cbv iota beta; simpl Str.is_empty; cbv iota.
  - rewrite resolve_normalize by exact Hout. simpl Str.split.
    rewrite normalize_segments_cons, push_skip by reflexivity.
    simpl. rewrite rev_involutive. reflexivity.
  - rewrite resolve_normalize by (destruct outputDir; [congruence|discriminate]).
    unfold Fs.resolve. rewrite starts_with_app by exact Hout.
    change (outputDir ++ "/" ++ String c name)%string
      with (outputDir ++ String Str.slash (String c name))%string.
    rewrite split_app_sep, normalize_segments_app, rev_involutive. reflexivity.
Qed.

Lemma push_without_dotdot : forall segs res,
  forallb (fun seg => negb (String.eqb seg "..")) segs = true ->
  exists added, Path.normalize_segments false res segs = added ++ res.
Proof.
  induction segs as [|seg segs IH]; intros res H; [exists []; reflexivity|].
  simpl in H. apply andb_prop in H. destruct H as [Hseg Hsegs].
  rewrite normalize_segments_cons.
  destruct (IH (Path.push_segment false res seg) Hsegs) as [added Hadded].
  rewrite Hadded. unfold Path.push_segment, Path.dotdot.
  destruct (String.eqb seg "" || String.eqb seg "."); [exists added; reflexivity|].
  destruct (String.eqb seg ".."); [discriminate|].
  exists (added ++ [seg]). rewrite <- app_assoc. reflexivity.
Qed.

Lemma under_app : forall r x, Fs.under r (r ++ x) = true.
Proof.
  induction r as [|s r IH]; intro x; [reflexivity|].
  simpl. rewrite String.eqb_refl, IH. reflexivity.
Qed.

(** Without a [".."] segment in the name, the joined path stays in the
    output directory, also when the name starts with a slash. *)
Lemma join_under_root : forall cwd outputDir name,
  outputDir <> "" -> no_dotdot name = true ->
  Fs.under (Fs.resolve cwd outputDir) (Fs.resolve cwd (Path.join outputDir name))
  = true.
Proof.
  intros cwd outputDir name Hout Hname. rewrite join_resolve by exact Hout.
  destruct (push_without_dotdot _ (List.rev (Fs.resolve cwd outputDir)) Hname)
    as [added ->].
  rewrite rev_app_distr, rev_involutive. apply under_app.
Qed.

(** ** [fflate.ts]: where the entries are written *)

Lemma same_outside_mkdir : forall cwd rootp fs r p r',
  same_outside rootp fs r -> Fs.mkdirSync cwd r p = Ok r' ->
  same_outside rootp fs r'.
Proof.
  intros cwd rootp fs r p r' Hs Hm q Hq.
  rewrite (mkdirSync_keeps_files _ _ _ _ q Hm). apply Hs, Hq.
Qed.

Lemma same_outside_write : forall cwd rootp fs r p data r',
  same_outside rootp fs r ->
  Fs.under rootp (Fs.resolve cwd p) = true ->
  Fs.writeFileSync cwd r p data = Ok r' ->
  same_outside rootp fs r'.
Proof.
  intros cwd rootp fs r p data r' Hs Hp Hw q Hq.
  destruct (writeFileSync_spec _ _ _ _ _ Hw) as (_ & _ & Hother).
  rewrite Hother; [apply Hs, Hq|]. intros ->. congruence.
Qed.

Lemma exists_nonempty : forall cwd r p, Fs.existsSync cwd r p = true -> p <> "".
Proof. intros cwd r p H ->. discriminate. Qed.

Lemma mkdir_nonempty : forall cwd r p r', Fs.mkdirSync cwd r p = Ok r' -> p <> "".
Proof. intros cwd r p r' H ->. discriminate. Qed.

Lemma fflate_loop_same_outside : forall cwd outputDir fs files c w,
  outputDir <> "" ->
  Forall (fun e => no_dotdot (fst e) = true) files ->
  same_outside (Fs.resolve cwd outputDir) fs (root w) ->
  wp (for_each (Fflate.extract_entry cwd outputDir) files c)
     (Post (fun _ w' => same_outside (Fs.resolve cwd outputDir) fs (root w'))
           (fun _ w' => same_outside (Fs.resolve cwd outputDir) fs (root w'))
           (fun _ _ => False)) w.
Proof.
  intros cwd outputDir fs files c w Hout Hfiles; revert c w.
  induction Hfiles as [|[name contents] files Hname _ IH]; intros c w Hw.
  - apply wp_ret; wp_simpl. exact Hw.
  - simpl for_each. apply wp_bind; wp_simpl. unfold Fflate.extract_entry.
    simpl in Hname.
    repeat wp_step; simpl root in *;
      eauto using same_outside_mkdir;
      apply IH; simpl root;
      (eapply same_outside_write;
         [ | apply join_under_root; [exact Hout | exact Hname] | eassumption ]);
      eauto using same_outside_mkdir.
Qed.

Lemma fflate_same_outside_wp :
  forall cwd clock unzipSync inputFile outputDir fs,
    (forall zipData files,
       unzipSync zipData = Ok files ->
       Forall (fun e => no_dotdot (fst e) = true) files) ->
    wp (Fflate.extractZipFile cwd clock unzipSync inputFile outputDir)
       (Post (fun _ w' => same_outside (Fs.resolve cwd outputDir) fs (root w'))
             (fun _ _ => False)
             (fun _ w' => same_outside (Fs.resolve cwd outputDir) fs (root w')))
       (start fs).
Proof.
  intros cwd clock unzipSync inputFile outputDir fs Hsafe.
  assert (H0 : same_outside (Fs.resolve cwd outputDir) fs fs) by (intros q _; reflexivity).
  unfold Fflate.extractZipFile.
  repeat wp_step; simpl root in *; eauto using same_outside_mkdir;
    (eapply wp_weaken;
       [ apply (fflate_loop_same_outside cwd outputDir fs);
         [ eauto using exists_nonempty, mkdir_nonempty
         | eapply Hsafe; eassumption
         | simpl root; eauto using same_outside_mkdir ]
       | wp_simpl; intros c w' Hw'; unfold Fflate.getFileTypeStats;
         repeat wp_step; simpl root in *; auto;
         apply wp_print_each; wp_simpl; repeat wp_step; simpl root; exact Hw'
       | wp_simpl; intros e w' Hw'; repeat wp_step; simpl root; exact Hw'
       | wp_simpl; intros _ _ [] ]).
Qed.

Lemma wp_returned : forall A (m : M A) Q w a w',
  wp m Q w -> m w = (Return a, w') -> on_return Q a w'.
Proof. unfold wp, holds; intros A m Q w a w' H E. rewrite E in H. exact H. Qed.

(** C1, as the samples have it: no entry is rejected for its path.  Each
    entry is written at [path.join(outputDir, name)], and at no other place.
    The join puts a name that starts with a slash below the output
    directory like any other name; a name stays in the output directory as
    long as it has no [".."] segment, and an archive without such segments
    leaves every file outside the output directory as it was, whether the
    extraction completes or fails. *)
Theorem entries_written_at_joined_path :
  (forall cwd outputDir c name contents w c' w',
     Fflate.extract_entry cwd outputDir c (name, contents) w = (Return c', w') ->
     Fs.read_file (root w') (Fs.resolve cwd (Path.join outputDir name))
     = Some contents
     /\ forall q, q <> Fs.resolve cwd (Path.join outputDir name) ->
                  Fs.read_file (root w') q = Fs.read_file (root w) q)
  /\ (forall cwd outputDir name,
        outputDir <> "" -> no_dotdot name = true ->
        Fs.under (Fs.resolve cwd outputDir)
                 (Fs.resolve cwd (Path.join outputDir name)) = true)
  /\ (forall cwd clock unzipSync inputFile outputDir fs,
        (forall zipData files,
           unzipSync zipData = Ok files ->
           Forall (fun e => no_dotdot (fst e) = true) files) ->
        forall q,
          Fs.under (Fs.resolve cwd outputDir) q = false ->
          Fs.read_file
            (final_fs (run (Fflate.extractZipFile cwd clock unzipSync
                              inputFile outputDir) fs)) q
          = Fs.read_file fs q).
Proof.
  split; [|split].
  - intros cwd outputDir c name contents w c' w' H.
    refine (wp_returned _ _
              (Post (fun _ w' =>
                       Fs.read_file (root w') (Fs.resolve cwd (Path.join outputDir name))
                       = Some contents
                       /\ forall q, q <> Fs.resolve cwd (Path.join outputDir name) ->
                                    Fs.read_file (root w') q = Fs.read_file (root w) q)
                    (fun _ _ => True) (fun _ _ => True)) w c' w' _ H).
    unfold Fflate.extract_entry.
    repeat wp_step; simpl root in *; auto;
      match goal with
      | Hw : Fs.writeFileSync _ _ _ _ = Ok _ |- _ =>
          destruct (writeFileSync_spec _ _ _ _ _ Hw) as (_ & Hback & Hother)
      end;
      (split; [exact Hback|]); intros q Hq; rewrite (Hother q Hq);
      try reflexivity; eapply mkdirSync_keeps_files; eassumption.
  - exact join_under_root.
  - intros cwd clock unzipSync inputFile outputDir fs Hsafe q Hq.
    pose proof (fflate_same_outside_wp cwd clock unzipSync inputFile outputDir fs Hsafe)
      as H.
    unfold wp, holds in H. unfold run.
    destruct (Fflate.extractZipFile _ _ _ _ _ _) as [[s|e|n] w]; simpl in *;
      try contradiction; apply H, Hq.
Qed.

(** A rooted name lands below the output directory, and an archive without
    [".."] leaves [/etc/passwd] alone. *)
Lemma entries_written_witness :
  Fs.under (Fs.resolve example_cwd "out")
           (Fs.resolve example_cwd (Path.join "out" "/etc/shadow")) = true
  /\ Fs.read_file
       (final_fs (run (Fflate.extractZipFile example_cwd example_clock
                         (fun _ => Ok rooted_archive) "in.zip" "out") example_fs))
       ["etc"; "passwd"]
     = Some (text "root:x:0:0").
Proof.
  destruct entries_written_at_joined_path as (_ & Hunder & Hsame). split.
  - apply Hunder; [discriminate|reflexivity].
  - rewrite (Hsame example_cwd example_clock (fun _ => Ok rooted_archive)
               "in.zip" "out" example_fs).
    + reflexivity.
    + intros zipData files H. injection H as <-.
      repeat constructor.
    + reflexivity.
Defined.

(** C1, counterexample: the entry ["../../etc/passwd"], extracted into
    [out], is joined to ["../etc/passwd"]; the extraction completes with
    code 0 and without any error, and the file [/etc/passwd], outside the
    output directory [/w/out], has the data of the entry.  An entry with the
    rooted name ["/etc/shadow"] is not rejected either: it is written to
    [/w/out/etc/shadow]. *)
Lemma path_traversal_counterexample :
  let r := run (Fflate.extractZipFile example_cwd example_clock
                  (fun _ => Ok traversal_archive) "in.zip" "out") example_fs in
  let r' := run (Fflate.extractZipFile example_cwd example_clock
                   (fun _ => Ok rooted_archive) "in.zip" "out") example_fs in
  Path.join "out" "../../etc/passwd" = "../etc/passwd"
  /\ exit_code r = 0
  /\ fatal_errors (output r) = []
  /\ Fs.under (Fs.resolve example_cwd "out") ["etc"; "passwd"] = false
  /\ Fs.read_file example_fs ["etc"; "passwd"] = Some (text "root:x:0:0")
  /\ Fs.read_file (final_fs r) ["etc"; "passwd"] = Some (text "evil::0:0")
  /\ exit_code r' = 0
  /\ fatal_errors (output r') = []
  /\ Fs.read_file (final_fs r') ["w"; "out"; "etc"; "shadow"] = Some (text "secret").
Proof. vm_compute. repeat split; reflexivity. Qed.

(** ** [formatSize] on byte counts *)

Lemma ge_1024 : forall x,
  JsNum.ge (Fin x) (of_Z 1024) = Qle_bool (inject_Z 1024) x.
Proof. reflexivity. Qed.

Lemma div_1024 : forall x,
  JsNum.div (Fin x) (of_Z 1024) = Fin (Qred (x / inject_Z 1024)).
Proof. reflexivity. Qed.

(** The loop of [formatSize] from the unit [k0] on, with [left] larger units
    available. *)
Lemma formatSize_loop_scales : forall left x k0,
  exists k q,
    formatSize_loop left (Fin x) k0 = (Fin q, k)
    /\ k0 <= k <= k0 + left
    /\ (q * inject_Z (1024 ^ Z.of_nat (k - k0)) == x)%Q
    /\ (k < k0 + left -> (q < inject_Z 1024)%Q)
    /\ (k0 < k -> (1 <= q)%Q).
Proof.
  induction left as [|left IH]; intros x k0.
  - exists k0, x. simpl. rewrite Nat.sub_diag. simpl.
    split; [reflexivity|]. split; [lia|]. split; [ring|]. split; lia.
  - cbn [formatSize_loop]. rewrite ge_1024.
    destruct (Qle_bool (inject_Z 1024) x) eqn:E.
    + rewrite div_1024.
      destruct (IH (Qred (x / inject_Z 1024)) (S k0))
        as (k & q & Hloop & Hk & Hq & Hsmall & Hlarge).
      exists k, q. rewrite Hloop.
      split; [reflexivity|]. split; [lia|]. split; [|split].
      * replace (k - k0) with (S (k - S k0)) by lia.
        rewrite Nat2Z.inj_succ, Z.pow_succ_r by lia.
        rewrite inject_Z_mult. rewrite Qred_correct in Hq.
        rewrite (Qmult_comm (inject_Z 1024)), Qmult_assoc, Hq.
        field.
      * intro H. apply Hsmall. lia.
      * intros _. destruct (Nat.eq_dec k (S k0)) as [->|Hne].
        -- rewrite Nat.sub_diag in Hq.
           change (inject_Z (1024 ^ Z.of_nat 0)) with 1%Q in Hq.
           rewrite Qmult_1_r, Qred_correct in Hq. rewrite Hq.
           apply Qle_bool_iff in E.
           apply Qle_shift_div_l; [reflexivity|]. rewrite Qmult_1_l. exact E.
        -- apply Hlarge. lia.
    + exists k0, x. rewrite Nat.sub_diag. simpl.
      split; [reflexivity|]. split; [lia|]. split; [ring|]. split; [|lia].
      intros _. apply Qnot_le_lt. intro H. apply Qle_bool_iff in H. congruence.
Qed.

Lemma scaled_not_negative : forall (q : Q) (k n : nat),
  (q * inject_Z (1024 ^ Z.of_nat k) == inject_Z (Z.of_nat n))%Q -> (0 <= q)%Q.
Proof.
  intros q k n H.
  assert (Hc : (0 < inject_Z (1024 ^ Z.of_nat k))%Q).
  { rewrite <- (Zlt_Qlt 0). apply Z.pow_pos_nonneg; lia. }
  rewrite <- (Qdiv_mult_l q (inject_Z (1024 ^ Z.of_nat k)))
    by (intro E; rewrite E in Hc; discriminate).
  rewrite H. apply Qle_shift_div_l; [exact Hc|].
  rewrite Qmult_0_l. rewrite <- (Zle_Qle 0). lia.
Qed.

(** X1: [formatSize] on a byte count: the value is the count divided by 1024
    as often as the unit says, below 1024 unless the unit is the largest
    one, GB, and at least 1 unless the unit is B.  [toFixed(1)] prints it
    rounded to tenths: the printed number is at most 1024.0 unless the unit
    is GB, and at least 1.0 unless the unit is B.  The bound 1024.0 is met:
    1048575 bytes are printed as 1024.0 KB. *)
Theorem formatSize_bytes_scaled :
  (forall n : nat,
     exists k q t,
       formatSize (of_nat n) = {| amount := Fin q; unit_name := nth k units "" |}
       /\ k <= 3
       /\ (q * inject_Z (1024 ^ Z.of_nat k) == inject_Z (Z.of_nat n))%Q
       /\ (k < 3 -> (q < inject_Z 1024)%Q)
       /\ (0 < k -> (1 <= q)%Q)
       /\ toFixed1 (Fin q) = Some t
       /\ (inject_Z t - (1 # 2) <= q * 10 < inject_Z t + (1 # 2))%Q
       /\ (k < 3 -> (t <= 10240)%Z)
       /\ (0 < k -> (10 <= t)%Z))
  /\ exists q,
       formatSize (of_nat 1048575) = {| amount := Fin q; unit_name := "KB" |}
       /\ toFixed1 (Fin q) = Some 10240%Z.
Proof.
  split.
  - intro n. unfold formatSize, of_nat, of_Z.
    destruct (formatSize_loop_scales (List.length units - 1) (inject_Z (Z.of_nat n)) 0)
      as (k & q & Hloop & Hk & Hq & Hsmall & Hlarge).
    rewrite Nat.sub_0_r in Hq. simpl in Hk.
    pose proof (scaled_not_negative q k n Hq) as Hpos.
    exists k, q, (Qfloor (q * 10 + (1 # 2))). rewrite Hloop.
    split; [reflexivity|]. split; [lia|]. split; [exact Hq|].
    split; [intro H; apply Hsmall; simpl; lia|]. split; [exact Hlarge|].
    split.
    { unfold toFixed1. apply Qle_bool_iff in Hpos. rewrite Hpos. reflexivity. }
    pose proof (Qfloor_le (q * 10 + (1 # 2))) as Hfl.
    pose proof (Qlt_floor (q * 10 + (1 # 2))) as Hfu.
    split.
    { split.
      - apply Qplus_le_l with (z := (1 # 2)%Q). ring_simplify.
        ring_simplify in Hfl. exact Hfl.
      - apply Qplus_lt_l with (z := (1 # 2)%Q).
        eapply Qlt_le_trans; [exact Hfu|].
        rewrite inject_Z_plus. apply Qle_lteq. right. ring. }
    split.
    + intro H. assert (Hq' : (q < inject_Z 1024)%Q) by (apply Hsmall; simpl; lia).
      assert (Hle : (q * 10 + (1 # 2) <= inject_Z 10240 + (1 # 2))%Q).
      { apply Qplus_le_l. apply Qlt_le_weak in Hq'.
        change (inject_Z 10240) with (inject_Z 1024 * 10)%Q.
        apply Qmult_le_compat_r; [exact Hq' | discriminate]. }
      apply Qfloor_resp_le in Hle. exact Hle.
    + intro H. pose proof (Hlarge H) as Hq'.
      assert (Hle : (10 + (1 # 2) <= q * 10 + (1 # 2))%Q).
      { apply Qplus_le_l. change 10%Q with (1 * 10)%Q at 1.
        apply Qmult_le_compat_r; [exact Hq' | discriminate]. }
      apply Qfloor_resp_le in Hle. exact Hle.
  - eexists. split; vm_compute; reflexivity.
Qed.

(** ** The shape of a bucket *)

Lemma string_app_assoc : forall a b c : string,
  ((a ++ b) ++ c = a ++ (b ++ c))%string.
Proof.
  induction a as [|x a IH]; intros b c; simpl; [|rewrite IH]; reflexivity.
Qed.

Lemma rev_acc_app : forall s acc, Str.rev_acc s acc = (Str.rev s ++ acc)%string.
Proof.
  unfold Str.rev. induction s as [|c s IH]; intro acc; [reflexivity|].
  simpl. rewrite IH, (IH (String c "")).
  rewrite string_app_assoc. reflexivity.
Qed.

(** The characters up to the last dot, read backwards, start with the dot. *)
Lemma rev_take_last_dot : forall r k,
  Path.last_dot r = Some k ->
  Str.starts_with Str.dot (Str.rev (Path.take (S k) r)) = true.
Proof.
  induction r as [|c r IH]; intros k H; [discriminate|].
  simpl in H. destruct (Ascii.eqb c Str.dot) eqn:E.
  - injection H as <-. simpl. destruct r; exact E.
  - destruct (Path.last_dot r) as [k'|] eqn:Hr; [|discriminate].
    injection H as <-. specialize (IH k' eq_refl).
    remember (Path.take (S k') r) as t eqn:Ht.
    replace (Path.take (S (S k')) (String c r)) with (String c t)
      by (subst t; reflexivity).
    unfold Str.rev in *. cbn [Str.rev_acc]. rewrite rev_acc_app.
    unfold Str.rev. destruct (Str.rev_acc t "") as [|c' s'];
      [discriminate | exact IH].
Qed.

Lemma extname_shape : forall p,
  Path.extname p = "" \/ Str.starts_with Str.dot (Path.extname p) = true.
Proof.
  intro p. unfold Path.extname.
  destruct (Path.last_dot _) as [k|] eqn:E; [|left; reflexivity].
  destruct (S k =? String.length _); [left; reflexivity|].
  destruct (String.eqb _ Path.dotdot); [left; reflexivity|].
  right. apply rev_take_last_dot. exact E.
Qed.

Lemma lower_char_idempotent : forall c,
  Str.lower_char (Str.lower_char c) = Str.lower_char c.
Proof.
  intros [[] [] [] [] [] [] [] []]; vm_compute; reflexivity.
Qed.

Lemma toLowerCase_idempotent : forall s,
  Str.toLowerCase (Str.toLowerCase s) = Str.toLowerCase s.
Proof.
  induction s as [|c s IH]; [reflexivity|].
  simpl. rewrite lower_char_idempotent, IH. reflexivity.
Qed.

(** X2: The key under which a file is counted is the sentinel or starts with a
    dot, and it has no capital letter: it is never the empty string and never
    a number, so the keys of a statistics object are listed in the order in
    which they were first counted. *)
Theorem bucket_is_sentinel_or_dotted : forall name,
  (bucket name = "(no extension)"
   \/ Str.starts_with Str.dot (bucket name) = true)
  /\ Str.toLowerCase (bucket name) = bucket name.
Proof.
  intro name. unfold bucket.
  destruct (Str.toLowerCase (Path.extname name)) as [|c s] eqn:E.
  - split; [left|]; reflexivity.
  - simpl Str.is_empty. cbv iota. split.
    + right. destruct (extname_shape name) as [H|H].
      * rewrite H in E. discriminate.
      * destruct (Path.extname name) as [|c' s']; [discriminate|].
        simpl in E. injection E as <- <-. simpl in *.
        apply Ascii.eqb_eq in H. subst c'. reflexivity.
    + rewrite <- E. apply toLowerCase_idempotent.
Qed.

(** ** Library calls *)

Lemma wp_call_fs_library : forall A name (f : Fs.node -> Fs.node * result A)
    (Q : post A) w,
  (forall r a, f (root w) = (r, Ok a) ->
               on_return Q a (add_call name (set_root r w))) ->
  (forall r e, f (root w) = (r, Err e) ->
               on_throw Q e (add_call name (set_root r w))) ->
  wp (call_fs_library name f) Q w.
Proof.
  unfold wp, call_fs_library, lift; intros A name f Q w Hok Herr.
  destruct (f (root w)) as [r [a|e]]; [apply Hok | apply Herr]; reflexivity.
Qed.

Lemma wp_call_fs_library_with : forall A B name (callback : B -> line)
    (f : Fs.node -> list B * Fs.node * result A) (Q : post A) w,
  (forall seen r a,
     f (root w) = (seen, r, Ok a) ->
     on_return Q a (add_call name (add_lines (map callback seen) (set_root r w)))) ->
  (forall seen r e,
     f (root w) = (seen, r, Err e) ->
     on_throw Q e (add_call name (add_lines (map callback seen) (set_root r w)))) ->
  wp (call_fs_library_with name callback f) Q w.
Proof.
  unfold wp, call_fs_library_with, lift; intros A B name callback f Q w Hok Herr.
  destruct (f (root w)) as [[seen r] [a|e]]; [apply Hok | apply Herr]; reflexivity.
Qed.

Ltac wp_go :=
  repeat first
    [ wp_step
    | apply wp_call_fs_library; intros ? ? ?; wp_simpl
    | apply wp_call_fs_library_with; intros ? ? ? ?; wp_simpl
    | apply wp_print_each; wp_simpl ].

(** ** The sum of the counts of a table *)

Lemma set_total : forall k v t,
  table_total (Table.set k v t) + Table.get_or_0 k t = table_total t + v.
Proof.
  unfold table_total, Table.get_or_0.
  intros k v t; induction t as [|[k' v'] t IH]; simpl; [lia|].
  destruct (String.eqb k k'); simpl; lia.
Qed.

Lemma add_total : forall k n t,
  table_total (Table.add k n t) = table_total t + n.
Proof.
  intros k n t. unfold Table.add.
  pose proof (set_total k (Table.get_or_0 k t + n) t). lia.
Qed.

Lemma merge_total : forall sub t,
  table_total (Table.merge t sub) = table_total t + table_total sub.
Proof.
  unfold Table.merge.
  induction sub as [|[k v] sub IH]; intro t; simpl.
  - unfold table_total at 3. simpl. lia.
  - rewrite IH, add_total. unfold table_total at 4. simpl.
    fold (table_total sub). lia.
Qed.

Lemma sort_total : forall t, table_total (Table.sort t) = table_total t.
Proof.
  intro t. unfold table_total.
  assert (H : forall a b : list nat, Permutation a b -> list_sum a = list_sum b).
  { intros a b P. induction P; simpl; lia. }
  apply H, Permutation_map, sort_perm.
Qed.

(** The walk of [getFileTypeStats] and the walk of [countFiles] see the same
    files. *)
Lemma stats_total_files : forall dir,
  table_total (Fflate.stats_of_dir dir)
  = ExtractZip.files (ExtractZip.count_of_dir dir).
Proof.
  induction dir as [d|entries IH] using node_induction; [reflexivity|].
  simpl.
  assert (Hgo : forall stats cnt,
    table_total
      ((fix go (es : list (string * Fs.node)) (stats : Table.t) : Table.t :=
          match es with
          | [] => stats
          | (name, child) :: es' =>
              go es' (match child with
                      | Fs.Dir _ => Table.merge stats (Fflate.stats_of_dir child)
                      | Fs.File _ => Table.add (bucket name) 1 stats
                      end)
          end) entries stats)
    + ExtractZip.files cnt
    = ExtractZip.files
        ((fix go (es : list (string * Fs.node)) (count : ExtractZip.tally)
            : ExtractZip.tally :=
            match es with
            | [] => count
            | (name, child) :: es' =>
                go es' (match child with
                        | Fs.Dir _ =>
                            let subCount := ExtractZip.count_of_dir child in
                            {| ExtractZip.files :=
                                 ExtractZip.files count + ExtractZip.files subCount;
                               ExtractZip.directories :=
                                 ExtractZip.directories count + 1
                                 + ExtractZip.directories subCount |}
                        | Fs.File _ =>
                            {| ExtractZip.files := ExtractZip.files count + 1;
                               ExtractZip.directories := ExtractZip.directories count |}
                        end)
            end) entries cnt)
      + table_total stats).
  { induction IH as [|[name child] es Hchild _ IHes]; intros stats cnt;
      [lia|].
    cbn [snd] in Hchild.
    destruct child as [d|sub]; cbv beta match fix zeta.
    - pose proof (IHes (Table.add (bucket name) 1 stats)
                    {| ExtractZip.files := ExtractZip.files cnt + 1;
                       ExtractZip.directories := ExtractZip.directories cnt |}) as H.
      rewrite add_total in H. cbn [ExtractZip.files] in H. lia.
    - pose proof (IHes (Table.merge stats (Fflate.stats_of_dir (Fs.Dir sub)))
                    {| ExtractZip.files :=
                         ExtractZip.files cnt
                         + ExtractZip.files (ExtractZip.count_of_dir (Fs.Dir sub));
                       ExtractZip.directories :=
                         ExtractZip.directories cnt + 1
                         + ExtractZip.directories
                             (ExtractZip.count_of_dir (Fs.Dir sub)) |}) as H.
      rewrite merge_total, Hchild in H. cbn [ExtractZip.files] in H. lia. }
  specialize (Hgo [] {| ExtractZip.files := 0; ExtractZip.directories := 0 |}).
  unfold table_total at 2 in Hgo. simpl in Hgo. lia.
Qed.

(** X3: In a completed run of the extract-zip sample the counts of the file type
    lines add up to the number of files of the contents line: the two walks
    of the output directory agree. *)
Theorem extract_zip_types_add_up_to_files :
  forall cwd clock extract inputFile outputDir fs s,
    returned (run (ExtractZip.extractZipFile cwd clock extract inputFile outputDir) fs)
    = Some s ->
    table_total (ExtractZip.fileTypes s) = ExtractZip.files (ExtractZip.counts s).
Proof.
  intros cwd clock extract inputFile outputDir fs s Hret.
  assert (H : wp (ExtractZip.extractZipFile cwd clock extract inputFile outputDir)
                (Post (fun s' _ =>
                         table_total (ExtractZip.fileTypes s')
                         = ExtractZip.files (ExtractZip.counts s'))
                      (fun _ _ => True) (fun _ _ => True)) (start fs)).
  { unfold ExtractZip.extractZipFile, ExtractZip.getDirectorySize,
      ExtractZip.countFiles, ExtractZip.getFileTypeStats.
    wp_go; auto;
    cbn [ExtractZip.fileTypes ExtractZip.counts]; rewrite sort_total;
    simpl root in *;
    match goal with
    | H1 : ?x = Ok ?a, H2 : ?x = Ok ?b |- context [ExtractZip.files _] =>
        assert (Heq : Ok a = Ok b) by congruence; injection Heq as <-;
        exact (stats_total_files (Fs.Dir a))
    end. }
  unfold wp, holds in H. unfold run in Hret.
  destruct (ExtractZip.extractZipFile _ _ _ _ _ _) as [[s'|e|n] w]; simpl in *;
    try discriminate.
  injection Hret as <-. exact H.
Qed.

Lemma extract_zip_types_witness :
  exists s,
    returned (run (ExtractZip.extractZipFile example_cwd example_clock
                     (fun _ _ => one_file_library "a.txt" tt) "in.zip" "out")
                  fs_with_old_file) = Some s
    /\ ExtractZip.files (ExtractZip.counts s) = 2
    /\ table_total (ExtractZip.fileTypes s) = 2.
Proof.
  destruct (returned (run (ExtractZip.extractZipFile example_cwd example_clock
                             (fun _ _ => one_file_library "a.txt" tt) "in.zip" "out")
                          fs_with_old_file)) as [s|] eqn:Hret;
    [|vm_compute in Hret; discriminate].
  exists s. split; [reflexivity|].
  pose proof (extract_zip_types_add_up_to_files _ _ _ _ _ _ s Hret) as H.
  assert (Hfiles : ExtractZip.files (ExtractZip.counts s) = 2)
    by (vm_compute in Hret; injection Hret as <-; reflexivity).
  split; [exact Hfiles | rewrite H; exact Hfiles].
Defined.

(** ** Tables keep one positive count for each key *)

Lemma set_positive : forall k v t,
  1 <= v -> Forall (fun kv => 1 <= snd kv) t ->
  Forall (fun kv => 1 <= snd kv) (Table.set k v t).
Proof.
  intros k v t Hv H; induction H as [|[k' v'] t Hkv Ht IH]; simpl.
  - repeat constructor. exact Hv.
  - destruct (String.eqb k k'); constructor; assumption.
Qed.

Lemma add_positive : forall k n t,
  1 <= n -> Forall (fun kv => 1 <= snd kv) t ->
  Forall (fun kv => 1 <= snd kv) (Table.add k n t).
Proof. intros k n t Hn H. apply set_positive; [lia | exact H]. Qed.

Lemma merge_positive : forall sub t,
  Forall (fun kv => 1 <= snd kv) sub -> Forall (fun kv => 1 <= snd kv) t ->
  Forall (fun kv => 1 <= snd kv) (Table.merge t sub).
Proof.
  unfold Table.merge. induction sub as [|[k v] sub IH]; intros t Hsub Ht; simpl.
  - exact Ht.
  - inversion Hsub; subst. apply IH; [assumption|].
    apply add_positive; assumption.
Qed.

Lemma stats_of_dir_positive : forall dir,
  Forall (fun kv => 1 <= snd kv) (Fflate.stats_of_dir dir).
Proof.
  induction dir as [d|entries IH] using node_induction; [constructor|].
  simpl.
  assert (Hgo : forall stats,
    Forall (fun kv => 1 <= snd kv) stats ->
    Forall (fun kv => 1 <= snd kv)
      ((fix go (es : list (string * Fs.node)) (stats : Table.t) : Table.t :=
          match es with
          | [] => stats
          | (name, child) :: es' =>
              go es' (match child with
                      | Fs.Dir _ => Table.merge stats (Fflate.stats_of_dir child)
                      | Fs.File _ => Table.add (bucket name) 1 stats
                      end)
          end) entries stats)).
  { induction IH as [|[name child] es Hchild _ IHes]; intros stats Hstats;
      [exact Hstats|].
    cbn [snd] in Hchild. destruct child as [d|sub]; apply IHes.
    - apply add_positive; [lia | exact Hstats].
    - apply merge_positive; assumption. }
  apply Hgo. constructor.
Qed.

(** X4: The table that [getFileTypeStats] returns lists every extension once,
    with a count of at least one: no line of the summary reports 0 files and
    no extension has two lines, also after sorting.  The function changes
    nothing and fails only when the directory cannot be read; it is the same
    function in the fflate and in the extract-zip sample. *)
Theorem file_type_stats_once_and_positive : forall cwd dirPath w,
  ExtractZip.getFileTypeStats cwd dirPath w = Fflate.getFileTypeStats cwd dirPath w
  /\ match Fflate.getFileTypeStats cwd dirPath w with
     | (Return stats, w') =>
         w' = w
         /\ NoDup (map fst stats)
         /\ Forall (fun kv => 1 <= snd kv) stats
         /\ NoDup (map fst (Table.sort stats))
         /\ Forall (fun kv => 1 <= snd kv) (Table.sort stats)
     | (Throw e, w') => w' = w /\ Fs.readdir cwd (root w) dirPath = Err e
     | (Exit _, _) => False
     end.
Proof.
  intros cwd dirPath w. split; [reflexivity|].
  change (wp (Fflate.getFileTypeStats cwd dirPath)
            (Post (fun stats w' =>
                     w' = w
                     /\ NoDup (map fst stats)
                     /\ Forall (fun kv => 1 <= snd kv) stats
                     /\ NoDup (map fst (Table.sort stats))
                     /\ Forall (fun kv => 1 <= snd kv) (Table.sort stats))
                  (fun e w' => w' = w /\ Fs.readdir cwd (root w) dirPath = Err e)
                  (fun _ _ => False)) w).
  unfold Fflate.getFileTypeStats.
  wp_go; [|auto].
  pose proof (stats_of_dir_spec (Fs.Dir a)) as [Hn _].
  pose proof (stats_of_dir_positive (Fs.Dir a)) as Hp.
  split; [reflexivity|]. split; [exact Hn|]. split; [exact Hp|]. split.
  - eapply Permutation_NoDup; [|exact Hn].
    apply Permutation_map, Permutation_sym, sort_perm.
  - eapply Permutation_Forall; [|exact Hp].
    apply Permutation_sym, sort_perm.
Qed.

(** ** The decompress sample *)

Lemma group_spec : forall files t,
  NoDup (map fst t) ->
  let t' := fold_left (fun acc file => Table.add (bucket (Decompress.path file)) 1 acc)
              files t in
  NoDup (map fst t')
  /\ table_total t' = table_total t + List.length files
  /\ forall k, weight k t'
               = weight k t + count_bucket k (map Decompress.path files).
Proof.
  induction files as [|f files IH]; intros t Ht; simpl.
  - split; [exact Ht|]. split; [lia|]. intro k. unfold count_bucket. simpl. lia.
  - destruct (IH _ (add_keeps_nodup (bucket (Decompress.path f)) 1 t Ht))
      as (Hn & Htot & Hw).
    split; [exact Hn|]. split; [rewrite Htot, add_total; lia|].
    intro k. rewrite Hw, add_weight, count_bucket_cons by exact Ht.
    destruct (String.eqb k (bucket (Decompress.path f))) eqn:E; [|lia].
    apply String.eqb_eq in E. subst k. lia.
Qed.

(** X5: In a completed run of the decompress sample every file of the array that
    the library resolved to, a directory as well, is counted once under its
    bucket: the counts of the file type lines add up to the total that is
    printed, and each extension has one line. *)
Theorem decompress_counts_every_file :
  forall decompress inputFile outputDir fs s,
    returned (run (Decompress.extractArchive decompress inputFile outputDir) fs)
    = Some s ->
    exists seen fs' files,
      decompress inputFile outputDir fs = (seen, fs', Ok files)
      /\ Decompress.total s = List.length files
      /\ table_total (Decompress.fileTypes s) = Decompress.total s
      /\ NoDup (map fst (Decompress.fileTypes s))
      /\ forall k, Table.get_or_0 k (Decompress.fileTypes s)
                   = count_bucket k (map Decompress.path files).
Proof.
  intros decompress inputFile outputDir fs s Hret.
  assert (H : wp (Decompress.extractArchive decompress inputFile outputDir)
                (Post (fun s' _ =>
                         exists seen fs' files,
                           decompress inputFile outputDir fs = (seen, fs', Ok files)
                           /\ Decompress.total s' = List.length files
                           /\ table_total (Decompress.fileTypes s') = Decompress.total s'
                           /\ NoDup (map fst (Decompress.fileTypes s'))
                           /\ forall k, Table.get_or_0 k (Decompress.fileTypes s')
                                        = count_bucket k (map Decompress.path files))
                      (fun _ _ => True) (fun _ _ => True)) (start fs)).
  { unfold Decompress.extractArchive. wp_go; auto.
    simpl root in *. exists seen, r, a. split; [assumption|].
    cbn [Decompress.total Decompress.fileTypes].
    destruct (group_spec a [] (NoDup_nil _)) as (Hn & Htot & Hw).
    fold (Decompress.group a) in Hn, Htot, Hw.
    split; [reflexivity|]. split; [rewrite sort_total; exact Htot|].
    split.
    - eapply Permutation_NoDup; [|exact Hn].
      apply Permutation_map, Permutation_sym, sort_perm.
    - intro k. rewrite sort_get_or_0 by exact Hn. rewrite Hw. reflexivity. }
  unfold wp, holds in H. unfold run in Hret.
  destruct (Decompress.extractArchive _ _ _ _) as [[s'|e|n] w]; simpl in *;
    try discriminate.
  injection Hret as <-. exact H.
Qed.

Lemma decompress_counts_witness :
  exists s,
    returned (run (Decompress.extractArchive
                     (fun _ _ =>
                        one_file_library "A.TXT"
                          [ {| Decompress.path := "docs/"; Decompress.data := [] |};
                            {| Decompress.path := "docs/A.TXT";
                               Decompress.data := text "hello" |} ])
                     "in.zip" "out") example_fs_out) = Some s
    /\ Decompress.total s = 2
    /\ table_total (Decompress.fileTypes s) = 2.
Proof.
  destruct (returned (run (Decompress.extractArchive
                     (fun _ _ =>
                        one_file_library "A.TXT"
                          [ {| Decompress.path := "docs/"; Decompress.data := [] |};
                            {| Decompress.path := "docs/A.TXT";
                               Decompress.data := text "hello" |} ])
                     "in.zip" "out") example_fs_out)) as [s|] eqn:Hret;
    [|vm_compute in Hret; discriminate].
  exists s. split; [reflexivity|].
  destruct (decompress_counts_every_file _ _ _ _ s Hret)
    as (seen & fs' & files & _ & _ & Htot & _).
  assert (Htotal : Decompress.total s = 2)
    by (vm_compute in Hret; injection Hret as <-; reflexivity).
  split; [exact Htotal | rewrite Htot; exact Htotal].
Defined.

(** ** The zip.js sample: all entries, or the first failure *)

Ltac not_closed :=
  let Hin := fresh "Hin" in
  intro Hin; repeat (apply in_app_or in Hin; destruct Hin as [Hin|Hin]);
  first [ exact Hin
        | repeat (destruct Hin as [Hin|Hin]; [discriminate|]); destruct Hin ].

Lemma zipjs_loop : forall cwd outputDir entries w,
  wp (for_each (ZipJs.extract_entry cwd outputDir) entries tt)
     (Post (fun _ w' =>
              store_items_until_failure cwd outputDir (map zipjs_item entries) (root w)
              = (root w', None)
              /\ fatal_errors (console w') = fatal_errors (console w)
              /\ (In "close" (calls w') -> In "close" (calls w)))
           (fun e w' =>
              store_items_until_failure cwd outputDir (map zipjs_item entries) (root w)
              = (root w', Some e)
              /\ fatal_errors (console w') = fatal_errors (console w)
              /\ (In "close" (calls w') -> In "close" (calls w)))
           (fun _ _ => False)) w.
Proof.
  intros cwd outputDir entries; induction entries as [|e entries IH]; intro w.
  - apply wp_ret; wp_simpl. simpl. auto.
  - simpl for_each. apply wp_bind; wp_simpl.
    unfold ZipJs.extract_entry. simpl map. unfold zipjs_item at 1 3 5.
    destruct (ZipJs.getData e) as [data|];
      [destruct (ZipJs.directory e)|destruct (ZipJs.directory e)];
      cbn [store_items_until_failure]; unfold store.
    2: { repeat wp_step; simpl root in *; simpl calls in *;
         repeat match goal with
                | H : ?x = _ |- context [?x] => rewrite H
                end;
         first
           [ solve [ repeat split; auto; not_closed ]
           | (eapply wp_weaken; [apply IH | | | auto]); wp_simpl;
             simpl root; simpl console; simpl calls; intros ? w' (Hs & Hc & Hk);
             rewrite Hs, Hc, ?fatal_errors_app; simpl; rewrite ?app_nil_r;
             (split; [reflexivity|]); (split; [reflexivity|]);
             intro Hin; apply Hk in Hin; revert Hin; not_closed ]. }
    all: wp_step; (eapply wp_weaken; [apply IH | | | auto]); wp_simpl; auto.
Qed.

(** X6: The zip.js sample stores the entries that are not directories in turn.
    When all are stored it closes the reader and ends with code 0 (with code
    1 when closing fails); the first entry that fails ends the run with code
    1: its reason is printed, the entries after it are not stored, and the
    reader is not closed. *)
Theorem zipjs_all_entries_or_first_failure :
  forall cwd getEntries close inputFile outputDir fs zipData entries,
    Fs.readFileSync cwd fs inputFile = Ok zipData ->
    getEntries zipData = Ok entries ->
    let r := run (ZipJs.extractZip cwd getEntries close inputFile outputDir) fs in
    match store_items_until_failure cwd outputDir (map zipjs_item entries) fs with
    | (fs', None) =>
        final_fs r = fs'
        /\ In "close" (library_calls r)
        /\ match close with
           | Ok _ => exit_code r = 0 /\ fatal_errors (output r) = []
           | Err e => exit_code r = 1 /\ fatal_errors (output r) = [e]
           end
    | (fs', Some e) =>
        final_fs r = fs' /\ exit_code r = 1 /\ fatal_errors (output r) = [e]
        /\ ~ In "close" (library_calls r)
    end.
Proof.
  intros cwd getEntries close inputFile outputDir fs zipData entries Hread Hentries r.
  set (Q := fun (code : nat) (w' : world) =>
    match store_items_until_failure cwd outputDir (map zipjs_item entries) fs with
    | (fs', None) =>
        root w' = fs'
        /\ In "close" (calls w')
        /\ match close with
           | Ok _ => code = 0 /\ fatal_errors (console w') = []
           | Err e => code = 1 /\ fatal_errors (console w') = [e]
           end
    | (fs', Some e) =>
        root w' = fs' /\ code = 1 /\ fatal_errors (console w') = [e]
        /\ ~ In "close" (calls w')
    end).
  assert (H : wp (ZipJs.extractZip cwd getEntries close inputFile outputDir)
                (Post (fun _ => Q 0) (fun _ _ => False) Q) (start fs)).
  { unfold ZipJs.extractZip.
    repeat wp_step; use_equations.
    eapply wp_weaken; [apply zipjs_loop | | | wp_simpl; intros; contradiction];
      wp_simpl; simpl root; simpl console; simpl calls; intros ? w' (Hs & Hc & Hk);
      repeat wp_step; subst Q; cbv beta; rewrite Hs; simpl;
      rewrite ?fatal_errors_app, ?Hc; simpl.
    - subst close. repeat split; auto. apply in_or_app. right. left. reflexivity.
    - subst close. repeat split; auto. apply in_or_app. right. left. reflexivity.
    - repeat split; auto. intro Hin. apply Hk in Hin.
      destruct Hin as [Hin|[]]. discriminate. }
  unfold wp, holds in H. subst r Q. unfold run.
  destruct (ZipJs.extractZip _ _ _ _ _ _) as [[[]|e|n] w]; simpl in *;
    try contradiction;
    destruct (store_items_until_failure _ _ _ _) as [fs' [e'|]];
    try destruct close; intuition.
Qed.

(** An archive with a directory, a file, an entry that cannot be read and a
    file after it: the run ends with code 1, the first file is stored and
    the last one is not. *)
Lemma zipjs_first_failure_witness :
  let r := run (ZipJs.extractZip example_cwd
                  (fun _ => Ok [ {| ZipJs.filename := "docs/"; ZipJs.directory := true;
                                    ZipJs.getData := None |};
                                 {| ZipJs.filename := "docs/a.txt"; ZipJs.directory := false;
                                    ZipJs.getData := Some (Ok (text "hello")) |};
                                 {| ZipJs.filename := "b.bin"; ZipJs.directory := false;
                                    ZipJs.getData := Some (Err (LibError "bad data")) |};
                                 {| ZipJs.filename := "c.txt"; ZipJs.directory := false;
                                    ZipJs.getData := Some (Ok (text "world")) |} ])
                  (Ok tt) "in.zip" "out") example_fs_out in
  exit_code r = 1
  /\ fatal_errors (output r) = [LibError "bad data"]
  /\ ~ In "close" (library_calls r)
  /\ Fs.read_file (final_fs r) ["w"; "out"; "docs"; "a.txt"] = Some (text "hello")
  /\ Fs.read_file (final_fs r) ["w"; "out"; "c.txt"] = None.
Proof.
  pose proof (zipjs_all_entries_or_first_failure example_cwd
                (fun _ => Ok [ {| ZipJs.filename := "docs/"; ZipJs.directory := true;
                                  ZipJs.getData := None |};
                               {| ZipJs.filename := "docs/a.txt"; ZipJs.directory := false;
                                  ZipJs.getData := Some (Ok (text "hello")) |};
                               {| ZipJs.filename := "b.bin"; ZipJs.directory := false;
                                  ZipJs.getData := Some (Err (LibError "bad data")) |};
                               {| ZipJs.filename := "c.txt"; ZipJs.directory := false;
                                  ZipJs.getData := Some (Ok (text "world")) |} ])
                (Ok tt) "in.zip" "out" example_fs_out (text "PK") _ eq_refl eq_refl) as H.
  cbv zeta in H. vm_compute in H. vm_compute.
  destruct H as (Hfs & Hcode & Herr & Hclose).
  split; [exact Hcode|]. split; [exact Herr|]. split; [exact Hclose|].
  split; reflexivity.
Defined.

(** ** [adm-zip.ts] and [unzipperjs.ts]: the second method *)

Lemma repeat_snoc : forall (x : string) k, repeat x k ++ [x] = repeat x (S k).
Proof.
  intros x k; induction k as [|k IH]; [reflexivity|].
  simpl. rewrite IH. reflexivity.
Qed.

Lemma admzip_loop : forall cwd archive extractEntryTo outputDir zip entries w,
  wp (for_each (AdmZip.extract_entry cwd archive extractEntryTo outputDir zip)
        entries tt)
     (Post (fun _ w' =>
              exists k,
                extract_until_failure cwd outputDir
                  (admzip_items extractEntryTo zip entries) (root w)
                = (root w', k, None)
                /\ calls w' = calls w ++ repeat "extractEntryTo" k
                /\ fatal_errors (console w') = fatal_errors (console w))
           (fun e w' =>
              exists k,
                extract_until_failure cwd outputDir
                  (admzip_items extractEntryTo zip entries) (root w)
                = (root w', k, Some e)
                /\ calls w' = calls w ++ repeat "extractEntryTo" k
                /\ fatal_errors (console w') = fatal_errors (console w))
           (fun _ _ => False)) w.
Proof.
  intros cwd archive extractEntryTo outputDir zip entries;
    induction entries as [|e entries IH]; intro w.
  - apply wp_ret; wp_simpl. exists 0. simpl. rewrite app_nil_r. auto.
  - simpl for_each. apply wp_bind; wp_simpl.
    unfold AdmZip.extract_entry, admzip_items, admzip_files. simpl filter.
    fold (admzip_files entries).
    destruct (AdmZip.isDirectory e); simpl negb; cbv iota.
    + wp_step. eapply wp_weaken; [apply IH | | | auto]; wp_simpl; auto.
    + simpl map. fold (admzip_items extractEntryTo zip entries).
      cbn [extract_until_failure].
      wp_go; simpl calls; simpl console; simpl root in *;
        repeat match goal with
               | H : ?x = _ |- context [?x] => rewrite H
               end;
        unfold failure_of;
        first
          [ (eapply wp_weaken; [apply IH | | | auto]); wp_simpl;
            simpl calls; simpl console; simpl root;
            intros ? w' (k & Hs & Hc & Hl); exists (S k);
            rewrite Hs, Hc, Hl, ?fatal_errors_app; simpl;
            rewrite <- app_assoc, ?app_nil_r; auto
          | solve [exists 0; simpl; rewrite app_nil_r; auto]
          | solve [exists 1; simpl; auto] ].
Qed.

Lemma unzipper_loop : forall cwd outputDir files w,
  wp (for_each (Unzipper.extract_file cwd outputDir) files tt)
     (Post (fun _ w' =>
              exists k,
                extract_until_failure cwd outputDir (unzipper_items files) (root w)
                = (root w', k, None)
                /\ calls w' = calls w ++ repeat "pipeline" k
                /\ fatal_errors (console w') = fatal_errors (console w))
           (fun e w' =>
              exists k,
                extract_until_failure cwd outputDir (unzipper_items files) (root w)
                = (root w', k, Some e)
                /\ calls w' = calls w ++ repeat "pipeline" k
                /\ fatal_errors (console w') = fatal_errors (console w))
           (fun _ _ => False)) w.
Proof.
  intros cwd outputDir files; induction files as [|f files IH]; intro w.
  - apply wp_ret; wp_simpl. exists 0. simpl. rewrite app_nil_r. auto.
  - simpl for_each. apply wp_bind; wp_simpl.
    unfold Unzipper.extract_file, unzipper_items. simpl map.
    fold (unzipper_items files). cbn [extract_until_failure].
    wp_go; simpl calls; simpl console; simpl root in *;
      repeat match goal with
             | H : ?x = _ |- context [?x] => rewrite H
             end;
      unfold failure_of;
      first
        [ (eapply wp_weaken; [apply IH | | | auto]); wp_simpl;
          simpl calls; simpl console; simpl root;
          intros ? w' (k & Hs & Hc & Hl); exists (S k);
          rewrite Hs, Hc, Hl, ?fatal_errors_app; simpl;
          rewrite <- app_assoc, ?app_nil_r; auto
        | solve [exists 0; simpl; rewrite app_nil_r; auto]
        | solve [exists 1; simpl; auto] ].
Qed.

Lemma extract_until_failure_all : forall cwd outputDir items fs fs' k,
  extract_until_failure cwd outputDir items fs = (fs', k, None) ->
  k = List.length items.
Proof.
  intros cwd outputDir items; induction items as [|[name extract] items IH];
    intros fs fs' k H; simpl in H.
  - injection H as _ <-. reflexivity.
  - destruct (if Fs.existsSync cwd fs _ then _ else _) as [fs1|e]; [|discriminate].
    destruct (extract _ _ fs1) as [fs2 [e|]]; [discriminate|].
    destruct (extract_until_failure cwd outputDir items fs2)
      as [[fs3 k'] failure] eqn:E.
    injection H as _ <- ->. simpl. f_equal. eapply IH. exact E.
Qed.

(** X7: [adm-zip.ts] extracts the archive in one call first.  When that call
    succeeds nothing else is extracted and the run ends with code 0.  When it
    fails its reason is not printed, and the entries that are not directories
    are extracted one by one, in the file system that the failed call left,
    each after its parent directory was created when missing: the run ends
    with code 0 when each of them was extracted, and at the first one that
    fails it ends with code 1 and the reason of that entry, with no call for
    the entries after it. *)
Theorem admzip_individual_only_after_bulk_failure :
  forall cwd archive open getEntries extractAllTo extractEntryTo
         inputFile outputDir fs zip,
    open inputFile fs = Ok zip ->
    let r := run (AdmZip.extractZip cwd archive open getEntries extractAllTo
                    extractEntryTo inputFile outputDir) fs in
    match extractAllTo zip outputDir fs with
    | (fs', Ok _) =>
        exit_code r = 0 /\ final_fs r = fs'
        /\ library_calls r = ["AdmZip"; "extractAllTo"]
        /\ fatal_errors (output r) = []
    | (fs', Err _) =>
        match extract_until_failure cwd outputDir
                (admzip_items extractEntryTo zip (getEntries zip)) fs' with
        | (fs'', k, failure) =>
            final_fs r = fs''
            /\ library_calls r
               = ["AdmZip"; "extractAllTo"] ++ repeat "extractEntryTo" k
            /\ match failure with
               | None =>
                   exit_code r = 0 /\ fatal_errors (output r) = []
                   /\ k = List.length (admzip_files (getEntries zip))
               | Some e => exit_code r = 1 /\ fatal_errors (output r) = [e]
               end
        end
    end.
Proof.
  intros cwd archive open getEntries extractAllTo extractEntryTo
         inputFile outputDir fs zip Hopen r.
  set (Q := fun (code : nat) (w' : world) =>
    match extractAllTo zip outputDir fs with
    | (fs', Ok _) =>
        code = 0 /\ root w' = fs'
        /\ calls w' = ["AdmZip"; "extractAllTo"]
        /\ fatal_errors (console w') = []
    | (fs', Err _) =>
        match extract_until_failure cwd outputDir
                (admzip_items extractEntryTo zip (getEntries zip)) fs' with
        | (fs'', k, failure) =>
            root w' = fs''
            /\ calls w' = ["AdmZip"; "extractAllTo"] ++ repeat "extractEntryTo" k
            /\ match failure with
               | None =>
                   code = 0 /\ fatal_errors (console w') = []
                   /\ k = List.length (admzip_files (getEntries zip))
               | Some e => code = 1 /\ fatal_errors (console w') = [e]
               end
        end
    end).
  assert (H : wp (AdmZip.extractZip cwd archive open getEntries extractAllTo
                    extractEntryTo inputFile outputDir)
                (Post (fun _ => Q 0) (fun _ _ => False) Q) (start fs)).
  { unfold AdmZip.extractZip.
    apply wp_try_catch; wp_simpl. apply wp_bind; wp_simpl.
    apply wp_print; wp_simpl. apply wp_bind; wp_simpl.
    apply wp_call_fs_library; intros r0 a Hcall; wp_simpl; simpl root in *;
      injection Hcall as <- Hcall; rewrite Hopen in Hcall; [|discriminate].
    injection Hcall as <-.
    apply wp_bind; wp_simpl. apply wp_print; wp_simpl.
    apply wp_bind; wp_simpl. apply wp_try_catch; wp_simpl.
    apply wp_bind; wp_simpl.
    apply wp_call_fs_library; intros r1 a Hbulk; wp_simpl; simpl root in *.
    - repeat wp_step. subst Q. cbv beta. rewrite Hbulk. simpl. auto.
    - repeat wp_step.
      eapply wp_weaken; [apply admzip_loop | | | wp_simpl; intros; contradiction];
        wp_simpl; simpl calls; simpl console; simpl root.
      + intros _ w' (k & Hs & Hc & Hl). repeat wp_step. subst Q. cbv beta.
        rewrite Hbulk, Hs. simpl. rewrite Hc, ?fatal_errors_app, Hl. simpl.
        split; [reflexivity|]. split; [reflexivity|].
        split; [reflexivity|]. split; [reflexivity|].
        rewrite (extract_until_failure_all _ _ _ _ _ _ Hs).
        unfold admzip_items. rewrite length_map. reflexivity.
      + intros e w' (k & Hs & Hc & Hl). repeat wp_step. subst Q. cbv beta.
        rewrite Hbulk, Hs. simpl. rewrite Hc, ?fatal_errors_app, Hl. simpl.
        auto. }
  unfold wp, holds in H. subst r Q. unfold run.
  destruct (AdmZip.extractZip _ _ _ _ _ _ _ _) as [[[]|e|n] w]; simpl in *;
    try contradiction; exact H.
Qed.

(** The archive of the example holds a directory and a file in it: after the
    failed bulk extraction the file is extracted by one call. *)
Lemma admzip_individual_witness :
  let r := run (AdmZip.extractZip example_cwd (list (string * bytes))
                  (fun _ _ => Ok archive_with_directory) example_entries
                  example_extractAllTo example_extractEntryTo "in.zip" "out")
               example_fs_out in
  exit_code r = 0
  /\ library_calls r = ["AdmZip"; "extractAllTo"; "extractEntryTo"]
  /\ Fs.read_file (final_fs r) ["w"; "out"; "docs"; "a.txt"] = Some (text "hello").
Proof.
  pose proof (admzip_individual_only_after_bulk_failure example_cwd
                (list (string * bytes)) (fun _ _ => Ok archive_with_directory)
                example_entries example_extractAllTo example_extractEntryTo
                "in.zip" "out" example_fs_out archive_with_directory eq_refl) as H.
  cbv zeta in H. vm_compute in H. vm_compute.
  destruct H as (Hfs & Hcalls & Hcode & _).
  split; [exact Hcode|]. split; [exact Hcalls | reflexivity].
Defined.

(** X8: [unzipperjs.ts] pipes the whole archive into the extractor first.  When
    that succeeds no file is piped on its own and the run ends with code 0.
    When it fails its reason is not printed and the files of the listing are
    piped one by one, directories included, in the file system that the
    failed call left, each after its parent directory was created when
    missing: the run ends with code 0 when each pipe succeeded, and at the
    first pipe that fails it ends with code 1 and the reason of that file,
    with no pipe for the files after it. *)
Theorem unzipper_individual_only_after_direct_failure :
  forall cwd open Extract inputFile outputDir fs files,
    open inputFile fs = Ok files ->
    let r := run (Unzipper.extractZip cwd open Extract inputFile outputDir) fs in
    match Extract inputFile outputDir fs with
    | (fs', Ok _) =>
        exit_code r = 0 /\ final_fs r = fs'
        /\ library_calls r = ["Open.file"; "Extract"]
        /\ fatal_errors (output r) = []
    | (fs', Err _) =>
        match extract_until_failure cwd outputDir (unzipper_items files) fs' with
        | (fs'', k, failure) =>
            final_fs r = fs''
            /\ library_calls r = ["Open.file"; "Extract"] ++ repeat "pipeline" k
            /\ match failure with
               | None =>
                   exit_code r = 0 /\ fatal_errors (output r) = []
                   /\ k = List.length files
               | Some e => exit_code r = 1 /\ fatal_errors (output r) = [e]
               end
        end
    end.
Proof.
  intros cwd open Extract inputFile outputDir fs files Hopen r.
  set (Q := fun (code : nat) (w' : world) =>
    match Extract inputFile outputDir fs with
    | (fs', Ok _) =>
        code = 0 /\ root w' = fs'
        /\ calls w' = ["Open.file"; "Extract"]
        /\ fatal_errors (console w') = []
    | (fs', Err _) =>
        match extract_until_failure cwd outputDir (unzipper_items files) fs' with
        | (fs'', k, failure) =>
            root w' = fs''
            /\ calls w' = ["Open.file"; "Extract"] ++ repeat "pipeline" k
            /\ match failure with
               | None =>
                   code = 0 /\ fatal_errors (console w') = []
                   /\ k = List.length files
               | Some e => code = 1 /\ fatal_errors (console w') = [e]
               end
        end
    end).
  assert (H : wp (Unzipper.extractZip cwd open Extract inputFile outputDir)
                (Post (fun _ => Q 0) (fun _ _ => False) Q) (start fs)).
  { unfold Unzipper.extractZip.
    apply wp_try_catch; wp_simpl. apply wp_bind; wp_simpl.
    apply wp_print; wp_simpl. apply wp_bind; wp_simpl.
    apply wp_call_fs_library; intros r0 a Hcall; wp_simpl; simpl root in *;
      injection Hcall as <- Hcall; rewrite Hopen in Hcall; [|discriminate].
    injection Hcall as <-.
    apply wp_bind; wp_simpl. apply wp_print; wp_simpl.
    apply wp_bind; wp_simpl. apply wp_try_catch; wp_simpl.
    apply wp_bind; wp_simpl.
    apply wp_call_fs_library; intros r1 a Hbulk; wp_simpl; simpl root in *.
    - repeat wp_step. subst Q. cbv beta. rewrite Hbulk. simpl. auto.
    - repeat wp_step.
      eapply wp_weaken; [apply unzipper_loop | | | wp_simpl; intros; contradiction];
        wp_simpl; simpl calls; simpl console; simpl root.
      + intros _ w' (k & Hs & Hc & Hl). repeat wp_step. subst Q. cbv beta.
        rewrite Hbulk, Hs. simpl. rewrite Hc, ?fatal_errors_app, Hl. simpl.
        split; [reflexivity|]. split; [reflexivity|].
        split; [reflexivity|]. split; [reflexivity|].
        rewrite (extract_until_failure_all _ _ _ _ _ _ Hs).
        unfold unzipper_items. rewrite length_map. reflexivity.
      + intros e w' (k & Hs & Hc & Hl). repeat wp_step. subst Q. cbv beta.
        rewrite Hbulk, Hs. simpl. rewrite Hc, ?fatal_errors_app, Hl. simpl.
        auto. }
  unfold wp, holds in H. subst r Q. unfold run.
  destruct (Unzipper.extractZip _ _ _ _ _ _) as [[[]|e|n] w]; simpl in *;
    try contradiction; exact H.
Qed.

(** The listing of the example holds a directory and a file in it: after the
    failed direct extraction the directory is piped first, which fails, and
    the file is not piped. *)
Lemma unzipper_individual_witness :
  let r := run (Unzipper.extractZip example_cwd
                  (fun _ _ => Ok example_unzipper_files)
                  (fun _ _ fs => (fs, Err (LibError "invalid signature")))
                  "in.zip" "out")
               example_fs_out in
  exit_code r = 1
  /\ library_calls r = ["Open.file"; "Extract"; "pipeline"]
  /\ fatal_errors (output r) = [FsError EISDIR "out/docs/"]
  /\ final_fs r = example_fs_out.
Proof.
  pose proof (unzipper_individual_only_after_direct_failure example_cwd
                (fun _ _ => Ok example_unzipper_files)
                (fun _ _ fs => (fs, Err (LibError "invalid signature")))
                "in.zip" "out" example_fs_out example_unzipper_files eq_refl) as H.
  cbv zeta in H. vm_compute in H. vm_compute.
  destruct H as (Hfs & Hcalls & Hcode & Herr).
  split; [exact Hcode|]. split; [exact Hcalls|]. split; [exact Herr | exact Hfs].
Defined.

(** ** The start of the samples *)

Lemma mkdirp_makes_directory : forall p n n',
  Fs.mkdirp n p = inr n' -> exists es, Fs.lookup n' p = Some (Fs.Dir es).
Proof.
  induction p as [|s p IH]; intros n n' H; destruct n as [d|es]; simpl in H;
    try discriminate.
  - injection H as <-. exists es. reflexivity.
  - destruct (Fs.mkdirp _ p) as [e|c'] eqn:Hc; [discriminate|].
    injection H as <-. simpl. rewrite assoc_set_entry_same.
    eapply IH. exact Hc.
Qed.

Lemma mkdirSync_exists : forall cwd r p r',
  Fs.mkdirSync cwd r p = Ok r' -> Fs.existsSync cwd r' p = true.
Proof.
  intros cwd r p r' H. unfold Fs.mkdirSync in H. unfold Fs.existsSync.
  destruct (Str.is_empty p); [discriminate|].
  destruct (Fs.mkdirp r (Fs.resolve cwd p)) as [e|n] eqn:Hm; [discriminate|].
  injection H as <-.
  destruct (mkdirp_makes_directory _ _ _ Hm) as [es ->].
  destruct (Str.ends_with Str.slash p); reflexivity.
Qed.

(** X9: The lines 23-38 with which most samples start never throw.  They let the
    script go on only when the input file exists, and then the output
    directory exists as well, created if it was missing, and every file is as
    it was.  Otherwise they end the process with code 1 and leave the file
    system as it was: the input file is missing, or the output directory
    could not be created.  No library function is called. *)
Theorem start_checks_input_and_output : forall cwd inputFile outputDir w,
  match check_arguments cwd inputFile outputDir w with
  | (Return _, w') =>
      Fs.existsSync cwd (root w) inputFile = true
      /\ Fs.existsSync cwd (root w') outputDir = true
      /\ (forall q, Fs.read_file (root w') q = Fs.read_file (root w) q)
      /\ calls w' = calls w
  | (Throw _, _) => False
  | (Exit code, w') =>
      code = 1 /\ root w' = root w /\ calls w' = calls w
      /\ (Fs.existsSync cwd (root w) inputFile = false
          \/ exists e, Fs.mkdirSync cwd (root w) outputDir = Err e)
  end.
Proof.
  intros cwd inputFile outputDir w.
  change (wp (check_arguments cwd inputFile outputDir)
            (Post (fun _ w' =>
                     Fs.existsSync cwd (root w) inputFile = true
                     /\ Fs.existsSync cwd (root w') outputDir = true
                     /\ (forall q, Fs.read_file (root w') q = Fs.read_file (root w) q)
                     /\ calls w' = calls w)
                  (fun _ _ => False)
                  (fun code w' =>
                     code = 1 /\ root w' = root w /\ calls w' = calls w
                     /\ (Fs.existsSync cwd (root w) inputFile = false
                         \/ exists e, Fs.mkdirSync cwd (root w) outputDir = Err e))) w).
  unfold check_arguments.
  repeat wp_step; simpl root in *; simpl calls; auto 6.
  - repeat split; auto. eapply mkdirSync_exists; eassumption.
    intro q. eapply mkdirSync_keeps_files; eassumption.
  - repeat split; auto. right. eauto.
Qed.

(** ** [minizlib.ts]: the progress handler *)

Lemma processed_lines_app : forall a b,
  processed_lines (a ++ b) = processed_lines a + processed_lines b.
Proof.
  induction a as [|x a IH]; intro b; [reflexivity|].
  destruct x; simpl; rewrite ?IH; reflexivity.
Qed.

Lemma minizlib_loop : forall clock startTime chunks st w,
  wp (for_each (Minizlib.on_data clock startTime) chunks st)
     (Post (fun st' w' =>
              Minizlib.totalBytes st'
              = Minizlib.totalBytes st + list_sum (map (@List.length Byte.byte) chunks)
              /\ (Z.of_nat (processed_lines (console w')
                            - processed_lines (console w)) * 100
                  <= Minizlib.lastProgress st' - Minizlib.lastProgress st)%Z
              /\ processed_lines (console w) <= processed_lines (console w')
              /\ processed_lines (console w')
                 <= processed_lines (console w) + List.length chunks
              /\ ticks w' = ticks w + List.length chunks
              /\ root w' = root w)
           (fun _ _ => False) (fun _ _ => False)) w.
Proof.
  intros clock startTime chunks; induction chunks as [|chunk chunks IH];
    intros st w.
  - apply wp_ret; wp_simpl. cbn [map list_sum List.length]. rewrite Nat.sub_diag.
    repeat split; try lia; reflexivity.
  - simpl for_each. apply wp_bind; wp_simpl. unfold Minizlib.on_data.
    apply wp_bind; wp_simpl. apply wp_Date_now; wp_simpl.
    apply wp_if; intro Hgate.
    + apply Z.leb_le in Hgate.
      apply wp_bind; wp_simpl. apply wp_print; wp_simpl. apply wp_ret; wp_simpl.
      eapply wp_weaken; [apply IH | | auto | auto]. wp_simpl.
      simpl console; simpl ticks; simpl root.
      cbn [Minizlib.totalBytes Minizlib.lastProgress].
      rewrite processed_lines_app. simpl processed_lines. simpl map.
      simpl list_sum.
      intros st' w' (Hb & Hp & Hlo & Hhi & Ht & Hr). repeat split; try lia.
      exact Hr.
    + apply Z.leb_gt in Hgate. apply wp_ret; wp_simpl.
      eapply wp_weaken; [apply IH | | auto | auto]. wp_simpl.
      simpl console; simpl ticks; simpl root.
      cbn [Minizlib.totalBytes Minizlib.lastProgress]. simpl map. simpl list_sum.
      intros st' w' (Hb & Hp & Hlo & Hhi & Ht & Hr). repeat split; try lia.
      exact Hr.
Qed.

(** X10: The handler of the minizlib sample counts every chunk: when the
    decompressor has emitted its chunks, [totalBytes] is the sum of their
    lengths, whatever the clock did and whichever progress lines were
    printed; the handler reads the clock once for each chunk and leaves the
    file system alone. *)
Theorem minizlib_total_counts_every_chunk : forall clock chunks w,
  match Minizlib.track clock chunks w with
  | (Return st, w') =>
      Minizlib.totalBytes st = list_sum (map (@List.length Byte.byte) chunks)
      /\ ticks w' = ticks w + 2 + List.length chunks
      /\ root w' = root w
  | _ => False
  end.
Proof.
  intros clock chunks w.
  change (wp (Minizlib.track clock chunks)
            (Post (fun st w' =>
                     Minizlib.totalBytes st
                     = list_sum (map (@List.length Byte.byte) chunks)
                     /\ ticks w' = ticks w + 2 + List.length chunks
                     /\ root w' = root w)
                  (fun _ _ => False) (fun _ _ => False)) w).
  unfold Minizlib.track.
  apply wp_bind; wp_simpl. apply wp_Date_now; wp_simpl.
  apply wp_bind; wp_simpl. apply wp_Date_now; wp_simpl.
  eapply wp_weaken; [apply minizlib_loop | | auto | auto]. wp_simpl.
  simpl ticks; simpl root. cbn [Minizlib.totalBytes].
  intros st' w' (Hb & _ & _ & _ & Ht & Hr). repeat split; try lia. exact Hr.
Qed.

(** X11: The handler prints a progress line at most once in 100 ms of the clock:
    between its first reading for [lastProgress] and the time of the last
    line there are at least 100 ms for each line printed, and there is at
    most one line for each chunk. *)
Theorem minizlib_progress_at_most_every_100_ms : forall clock chunks w,
  match Minizlib.track clock chunks w with
  | (Return st, w') =>
      (Z.of_nat (processed_lines (console w') - processed_lines (console w)) * 100
       <= Minizlib.lastProgress st - clock (S (ticks w)))%Z
      /\ processed_lines (console w')
         <= processed_lines (console w) + List.length chunks
  | _ => False
  end.
Proof.
  intros clock chunks w.
  change (wp (Minizlib.track clock chunks)
            (Post (fun st w' =>
                     (Z.of_nat (processed_lines (console w')
                                - processed_lines (console w)) * 100
                      <= Minizlib.lastProgress st - clock (S (ticks w)))%Z
                     /\ processed_lines (console w')
                        <= processed_lines (console w) + List.length chunks)
                  (fun _ _ => False) (fun _ _ => False)) w).
  unfold Minizlib.track.
  apply wp_bind; wp_simpl. apply wp_Date_now; wp_simpl.
  apply wp_bind; wp_simpl. apply wp_Date_now; wp_simpl.
  eapply wp_weaken; [apply minizlib_loop | | auto | auto]. wp_simpl.
  simpl ticks; simpl console. cbn [Minizlib.lastProgress].
  intros st' w' (_ & Hp & _ & Hhi & _). split; [exact Hp | exact Hhi].
Qed.

(** ** The node:zlib sample: an output path that cannot be written *)

Lemma write_on_directory : forall p n es d,
  Fs.lookup n p = Some (Fs.Dir es) -> Fs.write n p d = inl EISDIR.
Proof.
  induction p as [|s p IH]; intros n es d H; simpl in *.
  - injection H as ->. reflexivity.
  - destruct n as [d0|es0]; [discriminate|].
    destruct (Fs.assoc s es0) as [c|]; [|discriminate].
    rewrite (IH c es d H). reflexivity.
Qed.

Lemma writeFileSync_on_directory : forall cwd fs p es d,
  Fs.lookup fs (Fs.resolve cwd p) = Some (Fs.Dir es) ->
  exists e, Fs.writeFileSync cwd fs p d = Err e.
Proof.
  intros cwd fs p es d H. unfold Fs.writeFileSync.
  destruct (Str.is_empty p); [eauto|].
  destruct (Str.ends_with Str.slash p); [eauto|].
  rewrite (write_on_directory _ _ es d H). eauto.
Qed.

(** X12: In the node:zlib sample the [try] block of each method also holds the
    write of the output file.  When the output path is a directory no write
    can succeed: each of the three methods is called, whatever the methods
    before it produced, each failure of the write counts as a failure of the
    method, and the run ends with code 1 after "All decompression methods
    failed."; the reason, that the output cannot be written, is not
    printed. *)
Theorem unwritable_output_reported_as_failed_decompression :
  forall cwd inflateSync inflateRawSync gunzipSync inputFile outputFile data es w,
    Fs.readFileSync cwd (root w) inputFile = Ok data ->
    Fs.lookup (root w) (Fs.resolve cwd outputFile) = Some (Fs.Dir es) ->
    let r := NodeZlib.decompress_file cwd inflateSync inflateRawSync gunzipSync
               inputFile outputFile w in
    fst r = Exit 1
    /\ root (snd r) = root w
    /\ calls (snd r) = calls w ++ ["inflateSync"; "inflateRawSync"; "gunzipSync"]
    /\ console (snd r)
       = console w
         ++ [ Note "Decompressing";
              Note "Standard deflate decompression failed, trying raw deflate...";
              Note "Raw deflate decompression failed, trying gzip...";
              Note "All decompression methods failed.";
              Note "Note: node:zlib does not support deflate64. For deflate64, you may need a specialized library." ].
Proof.
  intros cwd f1 f2 f3 inputFile outputFile data es w Hread Hdir r.
  assert (Hfail : forall f fs, root fs = root w ->
            exists e, attempt_result cwd outputFile f data (root fs) = Err e).
  { intros f fs ->. unfold attempt_result. destruct (f data) as [d|e]; [|eauto].
    destruct (writeFileSync_on_directory cwd (root w) outputFile es d Hdir)
      as [e ->]. eauto. }
  assert (H : wp (NodeZlib.decompress_file cwd f1 f2 f3 inputFile outputFile)
                (Post (fun _ _ => False) (fun _ _ => False)
                   (fun code w' =>
                      code = 1 /\ root w' = root w
                      /\ calls w' = calls w ++ ["inflateSync"; "inflateRawSync"; "gunzipSync"]
                      /\ console w'
                         = console w
                           ++ [ Note "Decompressing";
                                Note "Standard deflate decompression failed, trying raw deflate...";
                                Note "Raw deflate decompression failed, trying gzip...";
                                Note "All decompression methods failed.";
                                Note "Note: node:zlib does not support deflate64. For deflate64, you may need a specialized library." ])) w).
  { unfold NodeZlib.decompress_file.
    apply wp_try_catch; wp_simpl. apply wp_bind; wp_simpl.
    apply wp_print; wp_simpl. apply wp_bind; wp_simpl.
    apply wp_fs_get; simpl root; rewrite Hread; [|discriminate].
    intros a Ha; injection Ha as <-. wp_simpl.
    apply wp_bind; wp_simpl. apply wp_try_catch; wp_simpl.
    apply attempt_spec.
    match goal with
    | |- context [attempt_result cwd outputFile f1 data (root ?fs)] =>
        destruct (Hfail f1 fs eq_refl) as [e1 ->]
    end. wp_simpl.
    apply wp_print; wp_simpl.
    apply wp_bind; wp_simpl. apply wp_try_catch; wp_simpl.
    apply attempt_spec.
    match goal with
    | |- context [attempt_result cwd outputFile f2 data (root ?fs)] =>
        destruct (Hfail f2 fs eq_refl) as [e2 ->]
    end. wp_simpl.
    apply wp_print; wp_simpl. apply wp_try_catch; wp_simpl.
    apply attempt_spec.
    match goal with
    | |- context [attempt_result cwd outputFile f3 data (root ?fs)] =>
        destruct (Hfail f3 fs eq_refl) as [e3 ->]
    end. wp_simpl.
    repeat wp_step. simpl. rewrite <- !app_assoc. simpl. auto. }
  unfold wp, holds in H. subst r.
  destruct (NodeZlib.decompress_file _ _ _ _ _ _ w) as [[[]|e|code] w'];
    simpl in *; try contradiction.
  destruct H as (-> & H1 & H2 & H3). auto.
Qed.

(** The output path names the directory [out]: the zlib stream inflates at
    the first attempt, and the run still tries the two other methods and ends
    with code 1. *)
Lemma unwritable_output_witness :
  let r := NodeZlib.decompress_file example_cwd Stored.inflateSync
             Stored.inflateRawSync Stored.gunzipSync "in.z" "out"
             (start (fs_with_input zlib_hello)) in
  Stored.inflateSync zlib_hello = Ok (text "hello")
  /\ fst r = Exit 1
  /\ calls (snd r) = ["inflateSync"; "inflateRawSync"; "gunzipSync"].
Proof.
  pose proof (unwritable_output_reported_as_failed_decompression example_cwd
                Stored.inflateSync Stored.inflateRawSync Stored.gunzipSync
                "in.z" "out" zlib_hello [] (start (fs_with_input zlib_hello))
                eq_refl eq_refl) as H.
  cbv zeta in H. destruct H as (Hcode & _ & Hcalls & _).
  split; [vm_compute; reflexivity|]. split; [exact Hcode | exact Hcalls].
Defined.

(** ** Directory entries *)

Lemma minizip_files_stored : forall cwd outputDir entries fs,
  store_each cwd outputDir (map minizip_item (minizip_files entries)) fs
  = store_each cwd outputDir (map minizip_item entries) fs.
Proof.
  intros cwd outputDir entries; induction entries as [|e entries IH]; intro fs;
    [reflexivity|].
  unfold minizip_files. simpl filter. fold (minizip_files entries).
  destruct (Minizip.isDirectory e) eqn:E; simpl negb; cbv iota.
  - rewrite IH. simpl map. unfold minizip_item at 2. rewrite E. reflexivity.
  - simpl map. unfold minizip_item at 1 3. rewrite E. cbn [store_each].
    destruct (store _ _ _ _ fs) as [fs' failure]. rewrite IH. reflexivity.
Qed.

Lemma jszip_files_stored : forall cwd outputDir files fs,
  store_each cwd outputDir (map jszip_item (jszip_files files)) fs
  = store_each cwd outputDir (map jszip_item files) fs.
Proof.
  intros cwd outputDir files; induction files as [|z files IH]; intro fs;
    [reflexivity|].
  unfold jszip_files. simpl filter. fold (jszip_files files).
  destruct (JSZip.dir z) eqn:E; simpl negb; cbv iota.
  - rewrite IH. simpl map. unfold jszip_item at 2. rewrite E. reflexivity.
  - simpl map. unfold jszip_item at 1 3. rewrite E. cbn [store_each].
    destruct (store _ _ _ _ fs) as [fs' failure]. rewrite IH. reflexivity.
Qed.

(** The file system that a run of the minizip sample leaves. *)
Lemma minizip_final_fs :
  forall cwd clock instantiate openArchive close inputFile outputDir fs,
    final_fs (run (Minizip.extractZip cwd clock instantiate openArchive close
                     inputFile outputDir) fs)
    = match instantiate, Fs.readFileSync cwd fs inputFile with
      | Ok _, Ok data =>
          match openArchive data with
          | Ok entries => snd (store_each cwd outputDir (map minizip_item entries) fs)
          | Err _ => fs
          end
      | _, _ => fs
      end.
Proof.
  intros cwd clock instantiate openArchive close inputFile outputDir fs.
  set (X := match instantiate, Fs.readFileSync cwd fs inputFile with
            | Ok _, Ok data =>
                match openArchive data with
                | Ok entries =>
                    snd (store_each cwd outputDir (map minizip_item entries) fs)
                | Err _ => fs
                end
            | _, _ => fs
            end).
  assert (H : wp (Minizip.extractZip cwd clock instantiate openArchive close
                    inputFile outputDir)
                (Post (fun _ w' => root w' = X) (fun _ w' => root w' = X)
                      (fun _ w' => root w' = X)) (start fs)).
  { unfold Minizip.extractZip.
    repeat wp_step; simpl root in *; subst X;
      repeat match goal with
             | H : ?x = _ |- context [?x] => rewrite H
             end; auto.
    eapply wp_weaken;
      [apply minizip_loop_failures | | wp_simpl; intros; contradiction
      | wp_simpl; intros; contradiction].
    wp_simpl. simpl root. intros st w' [_ Hr].
    repeat wp_step; try (simpl; exact Hr).
    apply wp_print_each; wp_simpl. repeat wp_step.
    simpl. exact Hr. }
  unfold wp, holds in H. unfold run.
  destruct (Minizip.extractZip _ _ _ _ _ _ _ _) as [[s|e|n] w]; simpl in *; exact H.
Qed.

Lemma jszip_final_fs :
  forall cwd clock loadAsync inputFile outputDir fs,
    final_fs (run (JSZip.extractZip cwd clock loadAsync inputFile outputDir) fs)
    = match Fs.readFileSync cwd fs inputFile with
      | Ok data =>
          match loadAsync data with
          | Ok files => snd (store_each cwd outputDir (map jszip_item files) fs)
          | Err _ => fs
          end
      | Err _ => fs
      end.
Proof.
  intros cwd clock loadAsync inputFile outputDir fs.
  set (X := match Fs.readFileSync cwd fs inputFile with
            | Ok data =>
                match loadAsync data with
                | Ok files => snd (store_each cwd outputDir (map jszip_item files) fs)
                | Err _ => fs
                end
            | Err _ => fs
            end).
  assert (H : wp (JSZip.extractZip cwd clock loadAsync inputFile outputDir)
                (Post (fun _ w' => root w' = X) (fun _ w' => root w' = X)
                      (fun _ w' => root w' = X)) (start fs)).
  { unfold JSZip.extractZip.
    repeat wp_step; simpl root in *; subst X;
      repeat match goal with
             | H : ?x = _ |- context [?x] => rewrite H
             end; auto.
    eapply wp_weaken;
      [apply jszip_loop_failures | | wp_simpl; intros; contradiction
      | wp_simpl; intros; contradiction].
    wp_simpl. simpl root. intros st w' [_ Hr].
    repeat wp_step. apply wp_print_each; wp_simpl. repeat wp_step.
    simpl. exact Hr. }
  unfold wp, holds in H. unfold run.
  destruct (JSZip.extractZip _ _ _ _ _ _) as [[s|e|n] w]; simpl in *; exact H.
Qed.

(** X13: The minizip and JSZip samples pass over the directory entries of an
    archive: a run on an archive and a run on the same archive without its
    directory entries leave the same file system.  A directory of the archive
    that holds no file is not created. *)
Theorem directory_entries_leave_no_trace :
  (forall cwd clock instantiate openArchive close inputFile outputDir fs,
     final_fs (run (Minizip.extractZip cwd clock instantiate openArchive close
                      inputFile outputDir) fs)
     = final_fs (run (Minizip.extractZip cwd clock instantiate
                        (fun data => result_map minizip_files (openArchive data))
                        close inputFile outputDir) fs))
  /\ (forall cwd clock loadAsync inputFile outputDir fs,
        final_fs (run (JSZip.extractZip cwd clock loadAsync inputFile outputDir) fs)
        = final_fs (run (JSZip.extractZip cwd clock
                           (fun data => result_map jszip_files (loadAsync data))
                           inputFile outputDir) fs)).
Proof.
  split.
  - intros cwd clock instantiate openArchive close inputFile outputDir fs.
    rewrite !minizip_final_fs.
    destruct instantiate; [|reflexivity].
    destruct (Fs.readFileSync cwd fs inputFile) as [data|]; [|reflexivity].
    destruct (openArchive data) as [entries|]; simpl; [|reflexivity].
    rewrite minizip_files_stored. reflexivity.
  - intros cwd clock loadAsync inputFile outputDir fs.
    rewrite !jszip_final_fs.
    destruct (Fs.readFileSync cwd fs inputFile) as [data|]; [|reflexivity].
    destruct (loadAsync data) as [files|]; simpl; [|reflexivity].
    rewrite jszip_files_stored. reflexivity.
Qed.

(** ** The JSZip sample: every member is counted or reported *)

Lemma jszip_loop_tally :
  forall cwd clock outputDir totalFiles startTime files st w,
    wp (for_each (JSZip.extract_file cwd clock outputDir totalFiles startTime)
          files st)
       (Post (fun st' w' =>
                JSZip.extractedCount st' + List.length (entry_errors (console w'))
                = JSZip.extractedCount st + List.length (entry_errors (console w))
                  + List.length files)
             (fun _ _ => False) (fun _ _ => False)) w.
Proof.
  intros cwd clock outputDir totalFiles startTime files;
    induction files as [|z files IH]; intros st w.
  - apply wp_ret; wp_simpl. simpl. lia.
  - simpl for_each. apply wp_bind; wp_simpl. unfold JSZip.extract_file.
    apply wp_if; intro Hdir.
    + wp_step. eapply wp_weaken; [apply IH | | auto | auto].
      wp_simpl. cbn [JSZip.extractedCount]. simpl List.length. intros; lia.
    + repeat wp_step;
        (eapply wp_weaken; [apply IH | | auto | auto]); wp_simpl;
        simpl console; cbn [JSZip.extractedCount]; simpl List.length;
        rewrite ?entry_errors_app; simpl entry_errors;
        rewrite ?length_app, ?app_nil_r; simpl List.length; intros; lia.
Qed.

(** X14: In a completed run of the JSZip sample every member of the archive is
    either counted as extracted or reported with an error line: the count
    that the average speed is computed from and the number of error lines add
    up to the number of members.  Directories are counted as extracted. *)
Theorem jszip_members_counted_or_reported :
  forall cwd clock loadAsync inputFile outputDir fs s,
    let r := run (JSZip.extractZip cwd clock loadAsync inputFile outputDir) fs in
    returned r = Some s ->
    exists data files,
      Fs.readFileSync cwd fs inputFile = Ok data
      /\ loadAsync data = Ok files
      /\ JSZip.s_extractedCount s + List.length (entry_errors (output r))
         = List.length files.
Proof.
  intros cwd clock loadAsync inputFile outputDir fs s r Hret.
  assert (H : wp (JSZip.extractZip cwd clock loadAsync inputFile outputDir)
                (Post (fun s' w' =>
                         exists data files,
                           Fs.readFileSync cwd fs inputFile = Ok data
                           /\ loadAsync data = Ok files
                           /\ JSZip.s_extractedCount s'
                              + List.length (entry_errors (console w'))
                              = List.length files)
                      (fun _ _ => True) (fun _ _ => True)) (start fs)).
  { unfold JSZip.extractZip.
    repeat wp_step; auto.
    eapply wp_weaken;
      [apply jszip_loop_tally | | wp_simpl; intros; contradiction
      | wp_simpl; intros; contradiction].
    wp_simpl. simpl console. cbn [JSZip.extractedCount]. intros st w' Hc.
    repeat wp_step. apply wp_print_each; wp_simpl. repeat wp_step.
    simpl root in *. eexists _, _. split; [eassumption|]. split; [eassumption|].
    cbn [JSZip.s_extractedCount]. simpl console.
    rewrite !entry_errors_app, entry_errors_file_types. simpl entry_errors.
    rewrite !app_nil_r. simpl in Hc. lia. }
  unfold wp, holds in H. subst r. unfold run in *.
  destruct (JSZip.extractZip _ _ _ _ _ _) as [[s'|e|n] w]; simpl in *;
    try discriminate.
  injection Hret as <-. exact H.
Qed.

(** Two directories, one file and one member that cannot be read: three
    members are counted, one is reported. *)
Lemma jszip_members_witness :
  exists s,
    let r := run (JSZip.extractZip example_cwd example_clock
                    (fun _ => Ok members_with_directories) "in.zip" "out")
                 example_fs_out in
    returned r = Some s
    /\ JSZip.s_extractedCount s = 3
    /\ List.length (entry_errors (output r)) = 1.
Proof.
  destruct (returned (run (JSZip.extractZip example_cwd example_clock
                             (fun _ => Ok members_with_directories) "in.zip" "out")
                          example_fs_out)) as [s|] eqn:Hret;
    [|vm_compute in Hret; discriminate].
  exists s. cbv zeta. split; [exact Hret|].
  destruct (jszip_members_counted_or_reported example_cwd example_clock
              (fun _ => Ok members_with_directories) "in.zip" "out"
              example_fs_out s Hret) as (data & files & _ & Hfiles & Hsum).
  injection Hfiles as <-.
  assert (Herrors : List.length
            (entry_errors
               (output (run (JSZip.extractZip example_cwd example_clock
                               (fun _ => Ok members_with_directories) "in.zip" "out")
                            example_fs_out))) = 1)
    by (vm_compute; reflexivity).
  rewrite Herrors in Hsum |- *. simpl in Hsum. split; [lia | reflexivity].
Defined.

(** ** No sample removes a file *)

Lemma files_kept_trans : forall a b c,
  files_kept a b -> files_kept b c -> files_kept a c.
Proof.
  intros a b c Hab Hbc q d H.
  destruct (Hab q d H) as [d' H']. exact (Hbc q d' H').
Qed.

Section KeepsFiles.
Context {A B : Type}.
Variable written : bytes -> Prop.

Lemma files_kept_or_refl : forall fs, files_kept_or written fs fs.
Proof. intros fs q d H. eauto. Qed.

Lemma files_kept_or_trans : forall a b c,
  files_kept_or written a b -> files_kept_or written b c ->
  files_kept_or written a c.
Proof.
  intros a b c H1 H2 q d H.
  destruct (H1 _ _ H) as (d1 & Hd1 & Hor1).
  destruct (H2 _ _ Hd1) as (d2 & Hd2 & Hor2).
  exists d2. split; [exact Hd2|].
  destruct Hor2 as [->|Hw]; [exact Hor1 | right; exact Hw].
Qed.

Lemma keeps_ret : forall a : A, keeps_files_or written (ret a).
Proof. intros a w. apply files_kept_or_refl. Qed.

Lemma keeps_throw : forall e, keeps_files_or written (@throw A e).
Proof. intros e w. apply files_kept_or_refl. Qed.

Lemma keeps_exit : forall n, keeps_files_or written (@process_exit A n).
Proof. intros n w. apply files_kept_or_refl. Qed.

Lemma keeps_fs_read : forall f : Fs.node -> A, keeps_files_or written (fs_read f).
Proof. intros f w. apply files_kept_or_refl. Qed.

Lemma keeps_fs_get : forall f : Fs.node -> result A,
  keeps_files_or written (fs_get f).
Proof.
  intros f w. unfold fs_get, lift. destruct (f (root w)); apply files_kept_or_refl.
Qed.

Lemma keeps_call_library : forall name (r : result A),
  keeps_files_or written (call_library name r).
Proof.
  intros name r w. unfold call_library, lift. destruct r; apply files_kept_or_refl.
Qed.

Lemma keeps_bind : forall (m : M A) (k : A -> M B),
  keeps_files_or written m -> (forall a, keeps_files_or written (k a)) ->
  keeps_files_or written (bind m k).
Proof.
  intros m k Hm Hk w. unfold bind. specialize (Hm w).
  destruct (m w) as [[a|e|n] w']; simpl in *; try exact Hm.
  eapply files_kept_or_trans; [exact Hm | apply Hk].
Qed.

(** What follows a call of a library runs with what the call returned. *)
Lemma keeps_call_library_bind : forall name (r : result A) (k : A -> M B),
  (forall a, r = Ok a -> keeps_files_or written (k a)) ->
  keeps_files_or written (bind (call_library name r) k).
Proof.
  intros name r k Hk w. unfold bind, call_library, lift.
  destruct r as [a|e]; simpl.
  - exact (Hk a eq_refl (add_call name w)).
  - apply files_kept_or_refl.
Qed.

Lemma keeps_try_catch : forall (m : M A) (h : error -> M A),
  keeps_files_or written m -> (forall e, keeps_files_or written (h e)) ->
  keeps_files_or written (try_catch m h).
Proof.
  intros m h Hm Hh w. unfold try_catch. specialize (Hm w).
  destruct (m w) as [[a|e|n] w']; simpl in *; try exact Hm.
  eapply files_kept_or_trans; [exact Hm | apply Hh].
Qed.

(** The body of a loop runs on the items of its list. *)
Lemma keeps_for_each : forall (body : B -> A -> M B) l s,
  (forall s x, In x l -> keeps_files_or written (body s x)) ->
  keeps_files_or written (for_each body l s).
Proof.
  intros body l; induction l as [|x l IH]; intros s Hbody; simpl.
  - intro w. apply files_kept_or_refl.
  - intro w. unfold bind. pose proof (Hbody s x (or_introl eq_refl) w) as Hx.
    destruct (body s x w) as [[s'|e|n] w']; simpl in *; try exact Hx.
    eapply files_kept_or_trans; [exact Hx|].
    apply IH. intros s0 x0 Hin. apply Hbody. right. exact Hin.
Qed.

End KeepsFiles.

Lemma keeps_print : forall written l, keeps_files_or written (print l).
Proof. intros written l w. apply files_kept_or_refl. Qed.

Lemma keeps_Date_now : forall written clock, keeps_files_or written (Date_now clock).
Proof. intros written clock w. apply files_kept_or_refl. Qed.

Lemma keeps_mkdirSync : forall written cwd p,
  keeps_files_or written (fs_update (fun r => Fs.mkdirSync cwd r p)).
Proof.
  intros written cwd p w. unfold fs_update.
  destruct (Fs.mkdirSync cwd (root w) p) as [r|e] eqn:E; simpl.
  - intros q d H. exists d. split; [|left; reflexivity].
    rewrite (mkdirSync_keeps_files _ _ _ _ q E). exact H.
  - apply files_kept_or_refl.
Qed.

Lemma keeps_writeFileSync : forall (written : bytes -> Prop) cwd p data,
  written data ->
  keeps_files_or written (fs_update (fun r => Fs.writeFileSync cwd r p data)).
Proof.
  intros written cwd p data Hdata w. unfold fs_update.
  destruct (Fs.writeFileSync cwd (root w) p data) as [r|e] eqn:E; simpl.
  - destruct (writeFileSync_spec _ _ _ _ _ E) as (_ & Hnew & Hothers).
    intros q d H.
    destruct (list_eq_dec string_dec q (Fs.resolve cwd p)) as [->|Hne].
    + exists data. split; [exact Hnew | right; exact Hdata].
    + exists d. split; [rewrite (Hothers q Hne); exact H | left; reflexivity].
  - apply files_kept_or_refl.
Qed.

(** The statements of a script, one after the other. *)
Ltac keeps :=
  repeat first
    [ apply keeps_ret | apply keeps_throw | apply keeps_exit
    | apply keeps_print | apply keeps_Date_now
    | apply keeps_fs_read | apply keeps_fs_get | apply keeps_call_library
    | apply keeps_mkdirSync
    | apply keeps_writeFileSync; solve [eauto 10]
    | apply keeps_call_library_bind; intros ? ?; subst
    | apply keeps_bind; [|intro]
    | apply keeps_try_catch; [|intro]
    | apply keeps_for_each; intros ? ? ?
    | match goal with
      | |- keeps_files_or _ (if ?b then _ else _) => destruct b
      | |- keeps_files_or _ (match ?x with _ => _ end) => destruct x eqn:?
      end ].

Lemma keeps_check_arguments : forall written cwd inputFile outputDir,
  keeps_files_or written (check_arguments cwd inputFile outputDir).
Proof. intros. unfold check_arguments. keeps. Qed.

Lemma final_fs_run : forall A (m : M A) fs,
  final_fs (run m fs) = root (snd (m (start fs))).
Proof. intros A m fs. unfold run. destruct (m (start fs)); reflexivity. Qed.

(** X15: The samples that write the entries themselves remove no file, however
    the run ends: a file that is there before the run is a file after it,
    with its old data or with the data that the library gave for an entry of
    an archive. *)
Theorem extraction_never_removes_a_file :
  (forall cwd clock unzipSync inputFile outputDir fs,
     files_kept_or
       (fun d => exists zipData files name,
                   unzipSync zipData = Ok files /\ In (name, d) files)
       fs
       (final_fs (run (Fflate.extractZipFile cwd clock unzipSync inputFile outputDir) fs)))
  /\ (forall cwd clock instantiate openArchive close inputFile outputDir fs,
        files_kept_or
          (fun d => exists data entries e,
                      openArchive data = Ok entries /\ In e entries
                      /\ Minizip.extractEntry e = Ok d)
          fs
          (final_fs (run (Minizip.main cwd clock instantiate openArchive close
                            inputFile outputDir) fs)))
  /\ (forall cwd clock loadAsync inputFile outputDir fs,
        files_kept_or
          (fun d => exists data files z,
                      loadAsync data = Ok files /\ In z files
                      /\ JSZip.nodebuffer z = Ok d)
          fs
          (final_fs (run (JSZip.main cwd clock loadAsync inputFile outputDir) fs)))
  /\ (forall cwd getEntries close inputFile outputDir fs,
        files_kept_or
          (fun d => exists zipData entries e,
                      getEntries zipData = Ok entries /\ In e entries
                      /\ ZipJs.getData e = Some (Ok d))
          fs
          (final_fs (run (ZipJs.main cwd getEntries close inputFile outputDir) fs))).
Proof.
  repeat split; intros; rewrite final_fs_run;
    match goal with
    | |- files_kept_or ?P _ (root (snd (?m (start ?fs)))) =>
        change (files_kept_or P (root (start fs)) (root (snd (m (start fs)))));
        generalize (start fs); change (keeps_files_or P m)
    end.
  - unfold Fflate.extractZipFile, Fflate.ensureDir, Fflate.getFileTypeStats,
      Fflate.extract_entry, Fflate.on_error. keeps.
  - unfold Minizip.main, Minizip.extractZip, Minizip.extract_entry,
      Minizip.on_error.
    apply keeps_bind; [apply keeps_check_arguments | intro]. keeps.
  - unfold JSZip.main, JSZip.extractZip, JSZip.extract_file, JSZip.on_error.
    apply keeps_bind; [apply keeps_check_arguments | intro]. keeps.
  - unfold ZipJs.main, ZipJs.extractZip, ZipJs.extract_entry.
    apply keeps_bind; [apply keeps_check_arguments | intro]. keeps.
Qed.

(** ** The percentage of the progress lines *)

Lemma of_nat_positive : forall n,
  0 < n -> Qeq_bool (inject_Z (Z.of_nat n)) 0 = false.
Proof.
  intros n H. apply not_true_is_false. intro E. apply Qeq_bool_iff in E.
  unfold Qeq in E. simpl in E. lia.
Qed.

Lemma progress_bounds : forall k n,
  0 < n -> k <= n -> is_percent (Minizip.progress k n).
Proof.
  intros k n Hn Hk. unfold Minizip.progress, JsNum.div, of_nat, of_Z.
  rewrite (of_nat_positive n Hn). unfold JsNum.scale, JsNum.round.
  eexists. split; [reflexivity|].
  set (x := Qred (Qred (inject_Z (Z.of_nat k) / inject_Z (Z.of_nat n)) * 100)).
  assert (Hx : (x == inject_Z (Z.of_nat k) / inject_Z (Z.of_nat n) * 100)%Q).
  { subst x. rewrite !Qred_correct. reflexivity. }
  assert (Hpos : (0 < inject_Z (Z.of_nat n))%Q).
  { change 0%Q with (inject_Z 0). rewrite <- Zlt_Qlt. lia. }
  assert (Hlow : (0 <= inject_Z (Z.of_nat k) / inject_Z (Z.of_nat n))%Q).
  { apply Qle_shift_div_l; [exact Hpos|]. rewrite Qmult_0_l.
    change 0%Q with (inject_Z 0). rewrite <- Zle_Qle. lia. }
  assert (Hhigh : (inject_Z (Z.of_nat k) / inject_Z (Z.of_nat n) <= 1)%Q).
  { apply Qle_shift_div_r; [exact Hpos|]. rewrite Qmult_1_l.
    rewrite <- Zle_Qle. lia. }
  split.
  - change 0%Z with (Qfloor 0). apply Qfloor_resp_le. rewrite Hx.
    apply Qle_trans with (0 * 100 + (1 # 2))%Q; [discriminate|].
    apply Qplus_le_l. apply Qmult_le_compat_r; [exact Hlow | discriminate].
  - change 100%Z with (Qfloor (1 * 100 + (1 # 2))). apply Qfloor_resp_le.
    rewrite Hx. apply Qplus_le_l. apply Qmult_le_compat_r; [exact Hhigh | discriminate].
Qed.

Lemma percent_lines_app : forall a b,
  percent_lines (a ++ b) = percent_lines a ++ percent_lines b.
Proof.
  induction a as [|x a IH]; intro b; [reflexivity|].
  destruct x; simpl; rewrite ?IH; reflexivity.
Qed.

Lemma percent_lines_file_types : forall l : Table.t,
  percent_lines (map (fun kv => FileType (fst kv) (snd kv)) l) = [].
Proof. induction l; simpl; auto. Qed.

Ltac percent_simpl :=
  simpl console;
  rewrite ?percent_lines_app, ?percent_lines_file_types;
  simpl percent_lines; rewrite ?app_nil_r.

Lemma minizip_loop_percent :
  forall cwd clock outputDir totalFiles startTime entries st w,
    Minizip.extractedCount st + List.length entries <= totalFiles ->
    Forall is_percent (percent_lines (console w)) ->
    wp (for_each (Minizip.extract_entry cwd clock outputDir totalFiles startTime)
          entries st)
       (Post (fun _ w' => Forall is_percent (percent_lines (console w')))
             (fun _ _ => False) (fun _ _ => False)) w.
Proof.
  intros cwd clock outputDir totalFiles startTime entries;
    induction entries as [|e entries IH]; intros st w Hcount Hw.
  - apply wp_ret; wp_simpl. exact Hw.
  - simpl List.length in Hcount. simpl for_each. apply wp_bind; wp_simpl.
    unfold Minizip.extract_entry.
    apply wp_try_catch; wp_simpl. apply wp_if; intro Hdir.
    + wp_step. apply IH; [cbn [Minizip.extractedCount]; lia | exact Hw].
    + repeat wp_step; apply IH;
        try (cbn [Minizip.extractedCount]; lia);
        percent_simpl; try exact Hw.
      all: apply Forall_app; split; [exact Hw|]; constructor; [|constructor];
           apply progress_bounds; lia.
Qed.

Lemma jszip_loop_percent :
  forall cwd clock outputDir totalFiles startTime files st w,
    JSZip.extractedCount st + List.length files <= totalFiles ->
    Forall is_percent (percent_lines (console w)) ->
    wp (for_each (JSZip.extract_file cwd clock outputDir totalFiles startTime)
          files st)
       (Post (fun _ w' => Forall is_percent (percent_lines (console w')))
             (fun _ _ => False) (fun _ _ => False)) w.
Proof.
  intros cwd clock outputDir totalFiles startTime files;
    induction files as [|z files IH]; intros st w Hcount Hw.
  - apply wp_ret; wp_simpl. exact Hw.
  - simpl List.length in Hcount. simpl for_each. apply wp_bind; wp_simpl.
    unfold JSZip.extract_file.
    apply wp_if; intro Hdir.
    + wp_step. apply IH; [cbn [JSZip.extractedCount]; lia | exact Hw].
    + repeat wp_step; apply IH;
        try (cbn [JSZip.extractedCount]; lia);
        percent_simpl; try exact Hw.
      all: apply Forall_app; split; [exact Hw|]; constructor; [|constructor];
           apply progress_bounds; lia.
Qed.

(** X16: Every progress line of the minizip and JSZip samples shows a whole
    percentage from 0 to 100, however the run ends: the count that the
    percentage is taken from grows by at most one for each entry and never
    exceeds the number of entries. *)
Theorem progress_lines_show_percentages :
  (forall cwd clock instantiate openArchive close inputFile outputDir fs,
     Forall is_percent
       (percent_lines
          (output (run (Minizip.extractZip cwd clock instantiate openArchive close
                          inputFile outputDir) fs))))
  /\ (forall cwd clock loadAsync inputFile outputDir fs,
        Forall is_percent
          (percent_lines
             (output (run (JSZip.extractZip cwd clock loadAsync
                             inputFile outputDir) fs)))).
Proof.
  split.
  - intros cwd clock instantiate openArchive close inputFile outputDir fs.
    assert (H : wp (Minizip.extractZip cwd clock instantiate openArchive close
                      inputFile outputDir)
                  (Post (fun _ w' => Forall is_percent (percent_lines (console w')))
                        (fun _ w' => Forall is_percent (percent_lines (console w')))
                        (fun _ w' => Forall is_percent (percent_lines (console w'))))
                  (start fs)).
    { unfold Minizip.extractZip.
      repeat wp_step; percent_simpl; try (constructor; fail).
      eapply wp_weaken;
        [ apply minizip_loop_percent;
          [cbn [Minizip.extractedCount]; lia | percent_simpl; constructor]
        | | wp_simpl; intros; contradiction | wp_simpl; intros; contradiction ].
      wp_simpl. intros st w' Hw'.
      repeat wp_step; try (percent_simpl; exact Hw').
      apply wp_print_each; wp_simpl. repeat wp_step.
      percent_simpl. exact Hw'. }
    unfold wp, holds in H. unfold run.
    destruct (Minizip.extractZip _ _ _ _ _ _ _ _) as [[s|e|n] w]; simpl in *; exact H.
  - intros cwd clock loadAsync inputFile outputDir fs.
    assert (H : wp (JSZip.extractZip cwd clock loadAsync inputFile outputDir)
                  (Post (fun _ w' => Forall is_percent (percent_lines (console w')))
                        (fun _ w' => Forall is_percent (percent_lines (console w')))
                        (fun _ w' => Forall is_percent (percent_lines (console w'))))
                  (start fs)).
    { unfold JSZip.extractZip.
      repeat wp_step; percent_simpl; try (constructor; fail).
      eapply wp_weaken;
        [ apply jszip_loop_percent;
          [cbn [JSZip.extractedCount]; lia | percent_simpl; constructor]
        | | wp_simpl; intros; contradiction | wp_simpl; intros; contradiction ].
      wp_simpl. intros st w' Hw'.
      repeat wp_step. apply wp_print_each; wp_simpl. repeat wp_step.
      percent_simpl. exact Hw'. }
    unfold wp, holds in H. unfold run.
    destruct (JSZip.extractZip _ _ _ _ _ _) as [[s|e|n] w]; simpl in *; exact H.
Qed.

(** ** The hint after an error *)

Lemma prefix_app : forall n a b,
  String.prefix n a = true -> String.prefix n (a ++ b)%string = true.
Proof.
  induction n as [|c n IH]; intros a b H;
    [destruct (a ++ b)%string; reflexivity|].
  destruct a as [|c' a]; [discriminate|]. simpl in *.
  destruct (Ascii.ascii_dec c c'); [|discriminate]. apply IH. exact H.
Qed.

Lemma includes_app_l : forall a b n,
  includes a n = true -> includes (a ++ b)%string n = true.
Proof.
  induction a as [|c a IH]; intros b n H.
  - simpl in H. rewrite orb_false_r in H.
    destruct n; [|discriminate]. destruct b; reflexivity.
  - simpl in H. apply orb_true_iff in H. simpl String.append.
    simpl includes. apply orb_true_iff. destruct H as [H|H].
    + left. apply (prefix_app n (String c a) b H).
    + right. apply IH. exact H.
Qed.

Lemma includes_app_r : forall a b n,
  includes b n = true -> includes (a ++ b)%string n = true.
Proof.
  induction a as [|c a IH]; intros b n H; [exact H|].
  simpl String.append. simpl includes. rewrite (IH b n H). apply orb_true_r.
Qed.

Lemma fs_message_includes : forall code p n,
  includes (errno_text code) n = true \/ includes p n = true ->
  includes (message (FsError code p)) n = true.
Proof.
  intros code p n [H|H]; unfold message.
  - apply includes_app_l. exact H.
  - do 2 apply includes_app_r. apply includes_app_l. exact H.
Qed.

(** X17: The [catch] of the fflate sample, and of the extract-zip sample, looks
    for "invalid" and "not a" in the whole message of the error.  The
    message of a file-system call that fails on its path (opening, creating
    a directory, listing, [stat]) holds the reason and the path: the hint
    about a corrupted, unsupported or password-protected ZIP is then also
    printed when a file is in the way of a directory (the reason of ENOTDIR
    is "not a directory"), and when the path contains one of the two texts.
    The message of a failed read of an open file holds no path: for a
    directory given as the input file the hint is not printed, whatever its
    name. *)
Theorem file_system_errors_show_the_zip_hint :
  (forall code p w,
     code = ENOTDIR \/ includes p "invalid" = true \/ includes p "not a" = true ->
     @Fflate.on_error unit (FsError code p) w
     = (Exit 1, add_line zip_hint (add_line (ErrorDuring (FsError code p)) w))
     /\ @ExtractZip.on_error unit (FsError code p) w
        = (Exit 1, add_line zip_hint (add_line (ErrorDuring (FsError code p)) w)))
  /\ (forall code w,
        code <> ENOTDIR ->
        @Fflate.on_error unit (ReadError code) w
        = (Exit 1, add_line (ErrorDuring (ReadError code)) w)
        /\ @ExtractZip.on_error unit (ReadError code) w
           = (Exit 1, add_line (ErrorDuring (ReadError code)) w))
  /\ (forall cwd clock unzipSync inputFile outputDir fs listed,
        Fs.readdir cwd fs inputFile = Ok listed ->
        Fs.existsSync cwd fs outputDir = true ->
        let r := run (Fflate.extractZipFile cwd clock unzipSync inputFile outputDir)
                     fs in
        exit_code r = 1
        /\ fatal_errors (output r) = [ReadError EISDIR]
        /\ ~ In zip_hint (output r)).
Proof.
  split; [|split].
  - intros code p w H.
    assert (Hhint : includes (message (FsError code p)) "invalid"
                    || includes (message (FsError code p)) "not a" = true).
    { apply orb_true_iff. destruct H as [->|[H|H]].
      - right. apply fs_message_includes. left. reflexivity.
      - left. apply fs_message_includes. right. exact H.
      - right. apply fs_message_includes. right. exact H. }
    unfold Fflate.on_error, ExtractZip.on_error. rewrite Hhint.
    split; reflexivity.
  - intros code w H. destruct code; try contradiction; split; reflexivity.
  - intros cwd clock unzipSync inputFile outputDir fs listed Hdir Hout r.
    assert (Hlookup : exists es,
              Str.is_empty inputFile = false
              /\ Fs.lookup fs (Fs.resolve cwd inputFile) = Some (Fs.Dir es)).
    { unfold Fs.readdir in Hdir. destruct (Str.is_empty inputFile); [discriminate|].
      destruct (Fs.lookup fs (Fs.resolve cwd inputFile)) as [[d|es]|];
        try discriminate. eauto. }
    destruct Hlookup as (es & Hempty & Hlookup).
    assert (Hexists : Fs.existsSync cwd fs inputFile = true).
    { unfold Fs.existsSync. rewrite Hempty, Hlookup.
      destruct (Str.ends_with Str.slash inputFile); reflexivity. }
    assert (Hstat : Fs.stat_size cwd fs inputFile = Ok 0).
    { unfold Fs.stat_size. rewrite Hempty, Hlookup. reflexivity. }
    assert (Hread : Fs.readFileSync cwd fs inputFile = Err (ReadError EISDIR)).
    { unfold Fs.readFileSync. rewrite Hempty, Hlookup. reflexivity. }
    assert (H : wp (Fflate.extractZipFile cwd clock unzipSync inputFile outputDir)
                  (Post (fun _ _ => False) (fun _ _ => False)
                        (fun n w' =>
                           n = 1
                           /\ console w'
                              = [InputSize (formatSize (of_nat 0));
                                 ExtractingTo inputFile outputDir;
                                 ErrorDuring (ReadError EISDIR)]))
                  (start fs)).
    { unfold Fflate.extractZipFile, Fflate.ensureDir.
      repeat wp_step; use_equations;
        match goal with
        | H : Fs.readFileSync _ _ _ = Err ?e |- _ =>
            rewrite Hread in H; injection H as <-
        end.
      - match goal with
        | H : (_ || _)%bool = true |- _ => vm_compute in H; discriminate
        end.
      - auto. }
    unfold wp, holds in H. subst r. unfold run.
    destruct (Fflate.extractZipFile _ _ _ _ _ _) as [[s|e|n] w];
      cbn [exit_code output on_return on_throw on_exit] in *; try contradiction.
    destruct H as [-> ->]. split; [reflexivity|]. split; [reflexivity|].
    intros [H|[H|[H|[]]]]; discriminate.
Qed.

(** The output path is a regular file: the first entry cannot be written
    below it, and the run of the fflate sample ends with the hint.  The
    input path [invalid.zip] is a directory: the run ends without the
    hint. *)
Lemma zip_hint_witness :
  @Fflate.on_error unit (FsError ENOTDIR "out/a.txt")
    (start fs_with_file_as_output)
  = (Exit 1, add_line zip_hint
               (add_line (ErrorDuring (FsError ENOTDIR "out/a.txt"))
                         (start fs_with_file_as_output)))
  /\ output (run (Fflate.extractZipFile example_cwd example_clock
                    (fun _ => Ok one_file) "in.zip" "out") fs_with_file_as_output)
     = [ InputSize (formatSize (of_nat 2)); ExtractingTo "in.zip" "out";
         ErrorDuring (FsError ENOTDIR "out/a.txt"); zip_hint ]
  /\ (let r := run (Fflate.extractZipFile example_cwd example_clock
                      (fun _ => Ok one_file) "invalid.zip" "out")
                   fs_with_directory_as_input in
      exit_code r = 1
      /\ fatal_errors (output r) = [ReadError EISDIR]
      /\ ~ In zip_hint (output r)).
Proof.
  destruct file_system_errors_show_the_zip_hint as (Hpath & _ & Hread).
  split; [|split].
  - apply (Hpath ENOTDIR "out/a.txt" (start fs_with_file_as_output)).
    left. reflexivity.
  - vm_compute. reflexivity.
  - exact (Hread example_cwd example_clock (fun _ => Ok one_file)
             "invalid.zip" "out" fs_with_directory_as_input [] eq_refl eq_refl).
Defined.

(** ** [ensureDir] *)

(** X18: [ensureDir] of the fflate sample returns when the path exists or could
    be created, and no file has changed then; it throws the error of
    [mkdirSync] otherwise.  It does not ensure a directory: when the path is
    a regular file it returns and leaves the file in place. *)
Theorem ensureDir_returns_when_the_path_exists : forall cwd dirPath w,
  match Fflate.ensureDir cwd dirPath w with
  | (Return _, w') =>
      Fs.existsSync cwd (root w') dirPath = true
      /\ (forall q, Fs.read_file (root w') q = Fs.read_file (root w) q)
      /\ (Fs.existsSync cwd (root w) dirPath = true -> w' = w)
      /\ console w' = console w
  | (Throw e, w') =>
      w' = w
      /\ Fs.existsSync cwd (root w) dirPath = false
      /\ Fs.mkdirSync cwd (root w) dirPath = Err e
  | (Exit _, _) => False
  end
  /\ (forall d,
        Str.is_empty dirPath = false ->
        Str.ends_with Str.slash dirPath = false ->
        Fs.read_file (root w) (Fs.resolve cwd dirPath) = Some d ->
        Fflate.ensureDir cwd dirPath w = (Return tt, w)).
Proof.
  intros cwd dirPath w. split.
  - change (wp (Fflate.ensureDir cwd dirPath)
              (Post (fun _ w' =>
                       Fs.existsSync cwd (root w') dirPath = true
                       /\ (forall q, Fs.read_file (root w') q = Fs.read_file (root w) q)
                       /\ (Fs.existsSync cwd (root w) dirPath = true -> w' = w)
                       /\ console w' = console w)
                    (fun e w' =>
                       w' = w
                       /\ Fs.existsSync cwd (root w) dirPath = false
                       /\ Fs.mkdirSync cwd (root w) dirPath = Err e)
                    (fun _ _ => False)) w).
    unfold Fflate.ensureDir. repeat wp_step; simpl root in *; auto.
    split; [eapply mkdirSync_exists; eassumption|].
    split; [intro q; eapply mkdirSync_keeps_files; eassumption|].
    split; [congruence | reflexivity].
  - intros d Hempty Hslash Hfile. unfold Fflate.ensureDir, bind, fs_read.
    unfold Fs.existsSync. rewrite Hempty, Hslash.
    unfold Fs.read_file in Hfile.
    destruct (Fs.lookup (root w) (Fs.resolve cwd dirPath)) as [[d'|es]|];
      try discriminate.
    reflexivity.
Qed.

(** ** [getDirectorySize] and the files that are written *)

Lemma directory_size_sum : forall es,
  ExtractZip.directory_size (Fs.Dir es)
  = list_sum (map (fun e => node_size (snd e)) es).
Proof.
  intro es. simpl.
  assert (Hgo : forall size,
    (fix go (fs : list (string * Fs.node)) (size : nat) : nat :=
       match fs with
       | [] => size
       | (name, file) :: fs' =>
           go fs' (size + match file with
                          | Fs.Dir _ => ExtractZip.directory_size file
                          | Fs.File data => List.length data
                          end)
       end) es size
    = size + list_sum (map (fun e => node_size (snd e)) es)).
  { induction es as [|[name file] es IH]; intro size; [simpl; lia|].
    cbv beta match fix. rewrite IH. cbn [map snd].
    change (list_sum (node_size file :: ?l)) with (node_size file + list_sum l).
    destruct file; unfold node_size; simpl list_sum; lia. }
  apply Hgo.
Qed.

Lemma sum_set_entry : forall s c es,
  list_sum (map (fun e => node_size (snd e)) (Fs.set_entry s c es))
  + match Fs.assoc s es with Some c0 => node_size c0 | None => 0 end
  = list_sum (map (fun e => node_size (snd e)) es) + node_size c.
Proof.
  intros s c es; induction es as [|[k n] es IH]; simpl; [lia|].
  destruct (String.eqb s k); simpl; lia.
Qed.

Lemma write_size : forall p n n' d,
  Fs.write n p d = inr n' ->
  node_size n' + size_at n p = node_size n + List.length d.
Proof.
  induction p as [|s p IH]; intros n n' d H; destruct n as [d0|es];
    simpl in H; try discriminate.
  - injection H as <-. unfold size_at, Fs.read_file. simpl. lia.
  - unfold size_at. rewrite read_file_cons.
    pose proof (sum_set_entry s) as Hsum.
    destruct (Fs.assoc s es) as [c|] eqn:Hs.
    + destruct (Fs.write c p d) as [e|c'] eqn:Hc; [discriminate|].
      injection H as <-. specialize (IH c c' d Hc). unfold size_at in IH.
      specialize (Hsum c' es). rewrite Hs in Hsum.
      cbn [node_size]. rewrite !directory_size_sum. lia.
    + destruct p; [|discriminate]. injection H as <-.
      specialize (Hsum (Fs.File d) es). rewrite Hs in Hsum.
      cbn [node_size] in *. rewrite !directory_size_sum. lia.
Qed.

Lemma write_below : forall r n q d n' sub,
  Fs.write n (r ++ q) d = inr n' ->
  Fs.lookup n r = Some sub ->
  exists sub', Fs.lookup n' r = Some sub' /\ Fs.write sub q d = inr sub'.
Proof.
  induction r as [|s r IH]; intros n q d n' sub Hw Hl.
  - simpl in *. injection Hl as <-. eauto.
  - destruct n as [d0|es]; [discriminate|]. simpl in Hl, Hw.
    destruct (Fs.assoc s es) as [c|]; [|discriminate].
    destruct (Fs.write c (r ++ q) d) as [e|c'] eqn:Hc; [discriminate|].
    injection Hw as <-. simpl. rewrite assoc_set_entry_same.
    eapply IH; eassumption.
Qed.

Lemma list_sum_perm : forall a b, Permutation a b -> list_sum a = list_sum b.
Proof.
  intros a b H; induction H; simpl; lia.
Qed.

(** The order of a listing does not change the size of a directory. *)
Lemma node_size_in_name_order : forall n,
  node_size (Fs.in_name_order n) = node_size n.
Proof.
  induction n as [d|es IH] using node_induction; [reflexivity|].
  change (Fs.in_name_order (Fs.Dir es)) with (Fs.Dir (Fs.listing es)).
  unfold node_size. rewrite !directory_size_sum. unfold Fs.listing.
  rewrite (list_sum_perm _ _ (Permutation_map _ (by_name_perm _))).
  rewrite map_map. cbn [snd]. f_equal.
  induction IH as [|e es He Hes IHes]; [reflexivity|].
  cbn [map]. rewrite He, IHes. reflexivity.
Qed.

(** X19: [getDirectorySize] follows the files that are written: after a file
    in the directory or below it was written, the size that the function
    returns is the size it returned before, less the size of the file that
    was at that path, if there was one, plus the size of the new data. *)
Theorem directory_size_follows_a_write :
  forall cwd dirPath p q data w fs' size,
    ExtractZip.getDirectorySize cwd dirPath w = (Return size, w) ->
    Fs.resolve cwd p = Fs.resolve cwd dirPath ++ q ->
    Fs.writeFileSync cwd (root w) p data = Ok fs' ->
    exists size',
      ExtractZip.getDirectorySize cwd dirPath (set_root fs' w)
      = (Return size', set_root fs' w)
      /\ size' + size_at (root w) (Fs.resolve cwd p) = size + List.length data.
Proof.
  intros cwd dirPath p q data w fs' size Hsize Hunder Hwrite.
  unfold ExtractZip.getDirectorySize, bind, fs_get, lift, ret in *.
  destruct (Fs.readdir cwd (root w) dirPath) as [files|e] eqn:Hdir;
    [|discriminate].
  injection Hsize as <-.
  unfold size_at. rewrite Hunder, (readdir_read_file _ _ _ _ q Hdir).
  unfold Fs.readdir in Hdir |- *. simpl root.
  destruct (Str.is_empty dirPath); [discriminate|].
  destruct (Fs.lookup (root w) (Fs.resolve cwd dirPath)) as [[d0|es]|] eqn:Hl;
    try discriminate.
  injection Hdir as <-.
  unfold Fs.writeFileSync in Hwrite.
  destruct (Str.is_empty p); [discriminate|].
  destruct (Str.ends_with Str.slash p); [discriminate|].
  destruct (Fs.write (root w) (Fs.resolve cwd p) data) as [e|n] eqn:Hw;
    [discriminate|].
  injection Hwrite as <-. rewrite Hunder in Hw.
  change (root (set_root n w)) with n.
  destruct (write_below _ _ _ _ _ _ Hw Hl) as (sub' & -> & Hsub).
  pose proof (write_size _ _ _ _ Hsub) as Hs.
  destruct sub' as [d1|es'].
  - destruct q; simpl in Hsub; [discriminate|].
    destruct (Fs.assoc s es) as [c|];
      [destruct (Fs.write c q data); discriminate
      |destruct q; discriminate].
  - eexists. split; [reflexivity|].
    rewrite read_file_listing.
    pose proof (node_size_in_name_order (Fs.Dir es)) as H1.
    pose proof (node_size_in_name_order (Fs.Dir es')) as H2.
    change (Fs.in_name_order (Fs.Dir es)) with (Fs.Dir (Fs.listing es)) in H1.
    change (Fs.in_name_order (Fs.Dir es')) with (Fs.Dir (Fs.listing es')) in H2.
    unfold size_at in Hs. rewrite <- H1, <- H2 in Hs. exact Hs.
Qed.

(** The file [old.log] of 9 bytes is replaced by 5 bytes: the directory,
    which held 9 bytes, holds 5. *)
Lemma directory_size_witness :
  exists fs',
    Fs.writeFileSync example_cwd fs_with_old_file "out/old.log" (text "hello") = Ok fs'
    /\ ExtractZip.getDirectorySize example_cwd "out" (start fs_with_old_file)
       = (Return 9, start fs_with_old_file)
    /\ ExtractZip.getDirectorySize example_cwd "out" (set_root fs' (start fs_with_old_file))
       = (Return 5, set_root fs' (start fs_with_old_file)).
Proof.
  destruct (Fs.writeFileSync example_cwd fs_with_old_file "out/old.log" (text "hello"))
    as [fs'|e] eqn:Hwrite; [|vm_compute in Hwrite; discriminate].
  exists fs'. split; [reflexivity|]. split; [reflexivity|].
  destruct (directory_size_follows_a_write example_cwd "out" "out/old.log"
              ["old.log"] (text "hello") (start fs_with_old_file) fs' 9
              eq_refl eq_refl Hwrite) as (size' & -> & Hsize).
  assert (Hold : size_at (root (start fs_with_old_file))
                   (Fs.resolve example_cwd "out/old.log") = 9)
    by (vm_compute; reflexivity).
  rewrite Hold in Hsize. change (List.length (text "hello")) with 5 in Hsize.
  assert (Hfive : size' = 5) by lia.
  rewrite Hfive. reflexivity.
Defined.

